(** * SmartSensrty backend: evidence custody, responder lookup, guardian responses

    A shallow embedding of the request handlers of

    - [routes/evidenceRoutes.js]   (chunked upload, finalize, retrieval, share, delete guard),
    - the stand-alone evidence router (the handlers of the second half of
      [routes/evidenceRoutes.js], in a module that binds the model as [SOSEvidence]),
    - [routes/volunteerRoutes.js]  (nearby volunteers; registration, position
      reports and alerts),
    - [routes/advancedSOSRoutes.js] (guardian response; SOS history),
    - [middleware/auth.js] and [index.js] (the two token middlewares; the
      emergency contacts),

    together with the properties the specification states about them, and
    further properties of the handlers.

    Modelling conventions.

    - A handler is a function from the store and the request to the new store
      and the response.  [Date.now()] and [crypto.randomBytes] are inputs of
      the request.
    - The upload directory is a finite map from file names to contents; file
      names are built exactly as the handlers build them, by string
      concatenation.  Stream-type names and chunk indexes are path components
      (no separator), and stream-type names are ordinary property names, so
      that [Object.entries] lists them in insertion order.  Where a property
      depends on it, its statement says so with the predicates of [Names].
    - A Buffer (a chunk, an uploaded file) is a string of 8-bit characters.
    - Multipart and JSON body fields are [option string]: [None] is
      [undefined].  [parseInt] is the JavaScript function on the ASCII range;
      its result goes through JSON before anyone reads it, so NaN and [null]
      are one value, [None].  Numbers are exact integers (the handlers stay
      far below 2^53).
    - Mongoose is an ideal document store: [save] inserts the document as
      built and gives it a fresh [_id], [find] filters by field equality,
      identifiers are well-formed.  Schema validation and casting are outside
      the model (the fields the SOSEvidence schema requires are not demanded
      of the record finalize-upload builds).
    - [jwt.verify] is represented by its outcome; multer's size and count
      limits and Express's own answers (no such route) come before the
      handlers and are not part of them. *)

From Stdlib Require Import ZArith Ascii String List Lia Permutation.
From stdpp Require Import base option gmap strings list pretty.

Local Open Scope string_scope.
Local Open Scope list_scope.

(** ** JavaScript values and primitives used by the handlers *)

Module JS.

(** Result of [parseInt] / content of a JSON number slot: [None] is NaN
    (in memory) or [null] (after [JSON.stringify]). *)
Definition number := option Z.

(** [!x] for a value that is [undefined] or a string. *)
Definition falsy (x : option string) : bool :=
  match x with
  | None => true
  | Some s => if decide (s = "") then true else false
  end.

Definition is_white (c : ascii) : bool :=
  let n := nat_of_ascii c in
  (Nat.eqb n 9 || Nat.eqb n 10 || Nat.eqb n 11 || Nat.eqb n 12
   || Nat.eqb n 13 || Nat.eqb n 32)%bool.

Fixpoint skip_white (s : string) : string :=
  match s with
  | String c s' => if is_white c then skip_white s' else s
  | EmptyString => s
  end.

(** Value of a digit in the given radix, if it is one. *)
Definition digit_value (radix : Z) (c : ascii) : option Z :=
  let n := Z.of_nat (nat_of_ascii c) in
  let v :=
    if (48 <=? n)%Z && (n <=? 57)%Z then Some (n - 48)%Z
    else if (97 <=? n)%Z && (n <=? 122)%Z then Some (n - 87)%Z
    else if (65 <=? n)%Z && (n <=? 90)%Z then Some (n - 55)%Z
    else None in
  match v with
  | Some d => if (d <? radix)%Z then Some d else None
  | None => None
  end.

(** Longest prefix of digits, most significant first. *)
Fixpoint digits_prefix (radix : Z) (s : string) (acc : option Z) : option Z :=
  match s with
  | String c s' =>
      match digit_value radix c with
      | Some d =>
          digits_prefix radix s'
            (Some (match acc with Some a => a * radix + d | None => d end)%Z)
      | None => acc
      end
  | EmptyString => acc
  end.

Definition strip_hex_prefix (s : string) : option string :=
  match s with
  | String "0" (String "x" r) => Some r
  | String "0" (String "X" r) => Some r
  | _ => None
  end.

(** [parseInt(s)] with no radix argument. *)
Definition parseInt_string (s : string) : number :=
  let s1 := skip_white s in
  let '(sign, s2) :=
    match s1 with
    | String "-" r => ((-1)%Z, r)
    | String "+" r => (1%Z, r)
    | _ => (1%Z, s1)
    end in
  let mag :=
    match strip_hex_prefix s2 with
    | Some r => digits_prefix 16 r None
    | None => digits_prefix 10 s2 None
    end in
  (λ m, sign * m)%Z <$> mag.

(** [parseInt(x)]: [undefined] is converted to the string "undefined". *)
Definition parseInt (x : option string) : number :=
  match x with
  | Some s => parseInt_string s
  | None => None
  end.

(** [x + 1] on a number. *)
Definition succ (x : number) : number := (λ z, z + 1)%Z <$> x.

(** Number of iterations of [for (let i = 0; i < n; i++)]: [null] and NaN
    compare as never greater than [0]. *)
Definition loop_count (n : number) : nat :=
  match n with
  | Some z => Z.to_nat z
  | None => 0
  end.

(** A JavaScript object with string keys, in property order. *)
Definition object (V : Type) := list (string * V).

Fixpoint get {V} (o : object V) (k : string) : option V :=
  match o with
  | [] => None
  | (k', v) :: o' => if decide (k' = k) then Some v else get o' k
  end.

(** [o[k] = v]: an existing property keeps its place, a new one goes last. *)
Fixpoint set {V} (o : object V) (k : string) (v : V) : object V :=
  match o with
  | [] => [(k, v)]
  | (k', v') :: o' =>
      if decide (k' = k) then (k, v) :: o' else (k', v') :: set o' k v
  end.

End JS.

(** ** SHA-256 and hexadecimal digests ([crypto.createHash('sha256')]) *)

Module SHA256.
Local Open Scope Z_scope.

Definition w32 (x : Z) : Z := x mod 4294967296.
Definition add32 (x y : Z) : Z := w32 (x + y).
Definition rotr (n x : Z) : Z :=
  Z.lor (Z.shiftr x n) (w32 (Z.shiftl x (32 - n))).
Definition shr (n x : Z) : Z := Z.shiftr x n.
Definition not32 (x : Z) : Z := 4294967295 - x.

Definition Ch (x y z : Z) : Z := Z.lxor (Z.land x y) (Z.land (not32 x) z).
Definition Maj (x y z : Z) : Z :=
  Z.lxor (Z.lxor (Z.land x y) (Z.land x z)) (Z.land y z).
Definition bsig0 (x : Z) : Z := Z.lxor (Z.lxor (rotr 2 x) (rotr 13 x)) (rotr 22 x).
Definition bsig1 (x : Z) : Z := Z.lxor (Z.lxor (rotr 6 x) (rotr 11 x)) (rotr 25 x).
Definition ssig0 (x : Z) : Z := Z.lxor (Z.lxor (rotr 7 x) (rotr 18 x)) (shr 3 x).
Definition ssig1 (x : Z) : Z := Z.lxor (Z.lxor (rotr 17 x) (rotr 19 x)) (shr 10 x).

(** The constants are given by their definition in the standard: the first 32
    bits of the fractional parts of the cube roots (round constants) and of
    the square roots (initial hash value) of the first primes. *)
Definition is_prime (n : Z) : bool :=
  forallb (λ d, negb (n mod d =? 0)) (map Z.of_nat (seq 2 (Z.to_nat n - 2))).

Definition primes (count : nat) : list Z :=
  firstn count (filter is_prime (map Z.of_nat (seq 2 310))).

(** Integer cube root, one bit at a time from bit [bits - 1] down. *)
Fixpoint cube_root (bits : nat) (n r : Z) : Z :=
  match bits with
  | O => r
  | S b =>
      let r' := r + 2 ^ Z.of_nat b in
      cube_root b n (if r' * r' * r' <=? n then r' else r)
  end.

Definition K : list Z :=
  map (λ p, w32 (cube_root 40 (p * 2 ^ 96) 0)) (primes 64).

Definition H0 : list Z :=
  map (λ p, w32 (Z.sqrt (p * 2 ^ 64))) (primes 8).

(** Big-endian bytes of [x], [n] of them. *)
Fixpoint be_bytes (n : nat) (x : Z) : list Z :=
  match n with
  | O => []
  | S n' => (Z.shiftr x (8 * Z.of_nat n')) mod 256 :: be_bytes n' x
  end.

Definition pad (msg : list Z) : list Z :=
  let len := Z.of_nat (length msg) in
  let zeros := Z.to_nat ((55 - len) mod 64) in
  msg ++ 128 :: repeat 0 zeros ++ be_bytes 8 (8 * len).

Fixpoint words (fuel : nat) (bs : list Z) : list Z :=
  match fuel, bs with
  | S f, a :: b :: c :: d :: r =>
      (a * 16777216 + b * 65536 + c * 256 + d) :: words f r
  | _, _ => []
  end.

Fixpoint blocks (fuel : nat) (ws : list Z) : list (list Z) :=
  match fuel, ws with
  | S f, _ :: _ => firstn 16 ws :: blocks f (skipn 16 ws)
  | _, _ => []
  end.

(** Message schedule, most recent word first. *)
Fixpoint schedule (n : nat) (rev_w : list Z) : list Z :=
  match n with
  | O => rev_w
  | S n' =>
      let w := add32 (add32 (ssig1 (nth 1 rev_w 0)) (nth 6 rev_w 0))
                     (add32 (ssig0 (nth 14 rev_w 0)) (nth 15 rev_w 0)) in
      schedule n' (w :: rev_w)
  end.

Definition round (s : list Z) (kw : Z * Z) : list Z :=
  match s with
  | [a; b; c; d; e; f; g; h] =>
      let t1 := add32 (add32 (add32 h (bsig1 e)) (add32 (Ch e f g) (fst kw))) (snd kw) in
      let t2 := add32 (bsig0 a) (Maj a b c) in
      [add32 t1 t2; a; b; c; add32 d t1; e; f; g]
  | _ => s
  end.

Definition compress (h : list Z) (block : list Z) : list Z :=
  let w := rev (schedule 48 (rev block)) in
  let s := fold_left round (combine K w) h in
  map (λ p, add32 (fst p) (snd p)) (combine h s).

Definition digest (msg : list Z) : list Z :=
  let p := pad msg in
  let ws := words (length p) p in
  concat (map (be_bytes 4) (fold_left compress (blocks (length ws) ws) H0)).

Definition hex_digit (d : Z) : ascii :=
  ascii_of_nat (Z.to_nat (if d <? 10 then 48 + d else 87 + d)).

Fixpoint hex (bs : list Z) : string :=
  match bs with
  | [] => EmptyString
  | b :: r => String (hex_digit (b / 16)) (String (hex_digit (b mod 16)) (hex r))
  end.

Definition bytes_of_string (s : string) : list Z :=
  map (λ c, Z.of_nat (nat_of_ascii c)) (list_ascii_of_string s).

(** [crypto.createHash('sha256').update(data).digest('hex')] *)
Definition sha256_hex (data : string) : string := hex (digest (bytes_of_string data)).

End SHA256.

(** ** Authentication ([middleware/auth.js]) *)

Module Auth.

(** What [authenticateToken] finds in the Authorization header. *)
Inductive credential :=
| NoToken                  (* no header, or nothing after the scheme *)
| InvalidToken             (* [jwt.verify] reports an error *)
| Verified (id : string).  (* verified payload, read as [req.user.id] *)

End Auth.

(** ** Stable sorting, as used for [.sort({...})] and [$near] *)

Section Sorting.
Context {A : Type} (leb : A → A → bool).

Fixpoint insert_sorted (x : A) (l : list A) : list A :=
  match l with
  | [] => [x]
  | y :: l' => if leb x y then x :: l else y :: insert_sorted x l'
  end.

Fixpoint sort_by (l : list A) : list A :=
  match l with
  | [] => []
  | x :: l' => insert_sorted x (sort_by l')
  end.
End Sorting.

(** ** The evidence router ([routes/evidenceRoutes.js]) *)

Module Evidence.
Import Auth.

(** *** Upload directory *)

(** One entry of [progress.json]. *)
Record fileProgress := FileProgress {
  uploadedChunks : JS.number;
  totalChunks : JS.number }.

(** [uploads/evidence/<uploadId>/]: the files other than [progress.json],
    and [progress.json] when it exists. *)
Record session := Session {
  files : gmap string string;
  progress : option (JS.object fileProgress) }.

(** *** Documents *)

Record evidenceFile := EvidenceFile {
  f_type : string;
  f_filename : string;
  f_data : string;          (* the file's bytes; kept base64-encoded *)
  f_secureUrl : string;
  f_size : nat;
  f_mimeType : string }.

Record shareRecord := ShareRecord {
  s_type : string;
  s_sharedAt : Z }.

Record evidenceDoc := EvidenceDoc {
  e_id : nat;
  e_userId : string;
  (* written by finalize-upload *)
  e_recordingId : option string;
  e_timestamp : Z;                  (* schema default: [Date.now] *)
  e_duration : option string;
  e_startTime : option string;
  e_encryptionIv : option string;
  e_fileSizes : option string;
  e_frontVideoUrl : option string;
  e_backVideoUrl : option string;
  e_audioUrl : option string;
  e_uploadStatus : option string;
  e_uploadedAt : option Z;
  e_cloudStorageStatus : option string;
  (* written by upload *)
  e_sosId : option string;
  e_type : option string;
  e_location : option string * option string * option string;
  e_evidenceFiles : list evidenceFile;
  e_deviceInfo : option string * option string * option string;
  (* shared *)
  e_sharedWith : list shareRecord;
  e_hash : option string;
  e_createdAt : Z }.

Record sosEventDoc := SosEventDoc {
  v_id : nat;
  v_recordingId : option string;
  v_userId : string;
  v_timestamp : option Z;
  v_status : string;
  v_location : option string;
  v_evidence : option nat }.

(** *** Store *)

Record store := Store {
  uploads : gmap string session;          (* uploads/evidence/ *)
  evidences : list evidenceDoc;           (* SOSEvidence collection *)
  sosEvents : list sosEventDoc;           (* SOS collection *)
  sosHistory : gmap string (list nat);    (* users' sosHistory, by user id *)
  next_id : nat;                          (* next fresh [_id] *)
  timers : list string }.                 (* pending upload-directory cleanups *)

(** Whether the module binds the identifier [SOSEvidence].
    [routes/evidenceRoutes.js] imports the model as [Evidence] only, and its
    handlers from [/upload] on refer to [SOSEvidence]: evaluating it raises
    a ReferenceError inside the handler's [try].  The stand-alone evidence
    router has the same handlers and binds the name. *)
Inductive module_scope := SOSEvidence_unbound | SOSEvidence_bound.

Definition evidenceRoutes_js : module_scope := SOSEvidence_unbound.
Definition standalone_router : module_scope := SOSEvidence_bound.

(** *** Requests and responses *)

Record chunkBody := ChunkBody {
  cb_uploadId : option string;
  cb_recordingId : option string;
  cb_fileType : option string;
  cb_chunkIndex : option string;
  cb_totalChunks : option string;
  cb_file : option string }.   (* [req.file]: the bytes multer stored *)

Record metadata := Metadata {
  m_timestamp : option Z;
  m_duration : option string;
  m_startTime : option string;
  m_encryptionIv : option string;
  m_fileSizes : option string;
  m_status : option string;
  m_location : option string }.

Record finalizeBody := FinalizeBody {
  fb_uploadId : option string;
  fb_recordingId : option string;
  fb_metadata : option metadata }.

Record uploadedFile := UploadedFile {
  u_originalname : string;
  u_mimetype : string;
  u_content : string;
  u_random : string }.   (* [crypto.randomBytes(16).toString('hex')] drawn for it *)

Record uploadBody := UploadBody {
  ub_sosId : option string;
  ub_type : option string;
  ub_latitude : option string;
  ub_longitude : option string;
  ub_placeName : option string;
  ub_deviceId : option string;
  ub_os : option string;
  ub_appVersion : option string;
  ub_files : list uploadedFile }.

Inductive request :=
| UploadChunk (c : credential) (b : chunkBody)
| FinalizeUpload (c : credential) (b : finalizeBody) (now : Z) (random_iv : string)
| GetEvidence (c : credential) (recordingId : string) (now : Z)
| ListEvents (c : credential) (limit skip : option string)
| GetEvent (c : credential) (eventId : nat)
| DeleteEvent (c : credential) (eventId : string)
| Upload (c : credential) (b : uploadBody) (now : Z)
| UserAll (c : credential) (limit page : option string)
| GetBySos (c : credential) (sosId : string)
| Share (c : credential) (evidenceId : nat) (shareWith : option (list string)) (now : Z)
| GetFile (c : credential) (token : string).

(** What the listings report of a file and of a record: no file data. *)
Record fileSummary := FileSummary {
  fs_type : string;
  fs_filename : string;
  fs_mimeType : string;
  fs_size : nat;
  fs_secureUrl : string }.

Record evidenceSummary := EvidenceSummary {
  es_id : nat;
  es_sosId : option string;
  es_type : option string;
  es_timestamp : Z;
  es_location : option string * option string * option string;
  es_files : list fileSummary;
  es_sharedWith : list shareRecord }.

Inductive body :=
| Error (msg : string)
| IncompleteUpload (fileType : string) (received total : JS.number)
| ChunkStored (uploadId recordingId fileType : string)
    (chunkIndex total : JS.number) (progress : JS.object fileProgress)
| Finalized (evidenceId : nat) (recordingId : string)
    (urls : JS.object string) (uploadId : string)
| EvidenceInfo (source : evidenceDoc) (expiresAt : Z)
| EventList (events : list (sosEventDoc * option evidenceDoc))
    (total : nat) (limit skip : Z)
| EventInfo (event : sosEventDoc) (evidence : option evidenceDoc)
| Uploaded (evidenceId : nat) (files : list fileSummary) (hash : string)
| UserEvidence (docs : list evidenceSummary) (total : nat) (page limit : Z)
| EvidenceList (docs : list evidenceDoc)
| Shared (sharedWith : list shareRecord)
| FileContent (mimeType filename data : string).

Record response := Response { status : nat; payload : body }.

(** *** Helpers of the handlers *)

Definition chunk_name (fileType chunkIndex : string) : string :=
  fileType +:+ "_chunk_" +:+ chunkIndex.

Definition final_name (fileType : string) : string :=
  fileType +:+ "_final.enc".

Definition file_url (recordingId fileType : string) : string :=
  "https://smartsensry-backend.herokuapp.com/api/sos-evidence/"
    +:+ recordingId +:+ "/" +:+ fileType.

Definition empty_session : session := Session ∅ None.

(** [authenticateToken]: the handler runs only for a verified token. *)
Definition authenticateToken (c : credential) : response + string :=
  match c with
  | NoToken => inl (Response 401 (Error "Access token required"))
  | InvalidToken => inl (Response 403 (Error "Invalid or expired token"))
  | Verified id => inr id
  end.

(** *** POST /upload-chunk *)

Definition upload_chunk (st : store) (c : credential) (b : chunkBody)
  : store * response :=
  match authenticateToken c with
  | inl r => (st, r)
  | inr userId =>
      if JS.falsy (cb_uploadId b) || JS.falsy (cb_recordingId b)
         || JS.falsy (cb_fileType b)
         || (if cb_chunkIndex b is None then true else false)
      then (st, Response 400
              (Error "Missing required fields: uploadId, recordingId, fileType, chunkIndex"))
      else
        match cb_uploadId b, cb_recordingId b, cb_fileType b, cb_chunkIndex b, cb_file b with
        | Some uploadId, Some recordingId, Some fileType, Some chunkIndex, Some chunk =>
            (* create the upload directory when it is missing *)
            let dir := default empty_session (uploads st !! uploadId) in
            (* move the chunk into it *)
            let files' := <[chunk_name fileType chunkIndex := chunk]> (files dir) in
            (* track upload progress *)
            let progress0 := default [] (progress dir) in
            let progress1 :=
              match JS.get progress0 fileType with
              | Some _ => progress0
              | None =>
                  JS.set progress0 fileType
                    (FileProgress (Some 0%Z) (JS.parseInt (cb_totalChunks b)))
              end in
            let progress2 :=
              match JS.get progress1 fileType with
              | Some fp =>
                  JS.set progress1 fileType
                    (FileProgress (JS.succ (JS.parseInt (Some chunkIndex))) (totalChunks fp))
              | None => progress1
              end in
            let st' :=
              Store (<[uploadId := Session files' (Some progress2)]> (uploads st))
                (evidences st) (sosEvents st) (sosHistory st) (next_id st) (timers st) in
            (st', Response 200
                    (ChunkStored uploadId recordingId fileType
                       (JS.parseInt (Some chunkIndex)) (JS.parseInt (cb_totalChunks b))
                       progress2))
        | _, _, _, _, _ => (st, Response 400 (Error "No chunk file provided"))
        end
  end.

(** *** POST /finalize-upload *)

(** First stream whose counter differs from its total. *)
Fixpoint first_incomplete (p : JS.object fileProgress) : option (string * fileProgress) :=
  match p with
  | [] => None
  | (fileType, fp) :: p' =>
      if decide (uploadedChunks fp = totalChunks fp) then first_incomplete p'
      else Some (fileType, fp)
  end.

(** The loop [for (let i = 0; i < totalChunks; i++)] from index [i] with [n]
    iterations to go: read chunk [i], append it, delete it.  Stops at the
    first chunk that cannot be read ([false]). *)
Fixpoint assemble_chunks (fileType : string) (fs : gmap string string)
    (i n : nat) (written : string) : gmap string string * string * bool :=
  match n with
  | O => (fs, written, true)
  | S n' =>
      match fs !! chunk_name fileType (pretty i) with
      | Some chunkData =>
          assemble_chunks fileType (delete (chunk_name fileType (pretty i)) fs)
            (S i) n' (written +:+ chunkData)
      | None => (fs, written, false)
      end
  end.

(** The assembly loop over [Object.entries(progress)]; an exception while
    assembling one stream is logged and the next stream is processed. *)
Fixpoint assemble_all (recordingId : string) (p : JS.object fileProgress)
    (fs : gmap string string) (fileUrls : JS.object string)
  : gmap string string * JS.object string :=
  match p with
  | [] => (fs, fileUrls)
  | (fileType, fp) :: p' =>
      let '(fs1, written, ok) :=
        assemble_chunks fileType fs 0 (JS.loop_count (totalChunks fp)) "" in
      let fs2 := <[final_name fileType := written]> fs1 in
      assemble_all recordingId p' fs2
        (if ok then JS.set fileUrls fileType (file_url recordingId fileType)
         else fileUrls)
  end.

(** [SOSEvent.findOneAndUpdate({recordingId}, update, {upsert: true})] *)
Fixpoint update_first_event (recordingId : string) (f : sosEventDoc → sosEventDoc)
    (l : list sosEventDoc) : option (list sosEventDoc * nat) :=
  match l with
  | [] => None
  | v :: l' =>
      if decide (v_recordingId v = Some recordingId) then Some (f v :: l', v_id v)
      else
        match update_first_event recordingId f l' with
        | Some (l'', id) => Some (v :: l'', id)
        | None => None
        end
  end.

Definition or_default (x : option string) (d : string) : string :=
  if JS.falsy x then d else default d x.

Definition finalize_upload (st : store) (c : credential) (b : finalizeBody)
    (now : Z) (random_iv : string) : store * response :=
  match authenticateToken c with
  | inl r => (st, r)
  | inr userId =>
      match fb_uploadId b, fb_recordingId b, fb_metadata b with
      | Some uploadId, Some recordingId, Some meta =>
          if JS.falsy (fb_uploadId b) || JS.falsy (fb_recordingId b)
          then (st, Response 400
                  (Error "Missing required fields: uploadId, recordingId, metadata"))
          else
            match uploads st !! uploadId with
            | None => (st, Response 404 (Error "Upload session not found"))
            | Some dir =>
                match progress dir with
                | None => (st, Response 500 (Error "Failed to finalize upload"))
                | Some p =>
                    (* verify all chunks for all file types *)
                    match first_incomplete p with
                    | Some (fileType, fp) =>
                        (st, Response 400
                               (IncompleteUpload fileType (uploadedChunks fp) (totalChunks fp)))
                    | None =>
                        (* assemble chunks into final files *)
                        let '(fs, fileUrls) := assemble_all recordingId p (files dir) [] in
                        (* create the evidence record *)
                        let evidenceId := next_id st in
                        let doc :=
                          {| e_id := evidenceId; e_userId := userId;
                             e_recordingId := Some recordingId;
                             e_timestamp := default now (m_timestamp meta);
                             e_duration := m_duration meta;
                             e_startTime := m_startTime meta;
                             e_encryptionIv :=
                               Some (or_default (m_encryptionIv meta) random_iv);
                             e_fileSizes := m_fileSizes meta;
                             e_frontVideoUrl := JS.get fileUrls "frontVideo";
                             e_backVideoUrl := JS.get fileUrls "backVideo";
                             e_audioUrl := JS.get fileUrls "audioRecording";
                             e_uploadStatus := Some "completed";
                             e_uploadedAt := Some now;
                             e_cloudStorageStatus := Some "pending";
                             e_sosId := None; e_type := None;
                             e_location := (None, None, None);
                             e_evidenceFiles := [];
                             e_deviceInfo := (None, None, None);
                             e_sharedWith := []; e_hash := None;
                             e_createdAt := now |} in
                        (* update or create the SOS event *)
                        let set_event v :=
                          {| v_id := v_id v; v_recordingId := Some recordingId;
                             v_userId := userId; v_timestamp := m_timestamp meta;
                             v_status := or_default (m_status meta) "confirmed";
                             v_location := m_location meta;
                             v_evidence := Some evidenceId |} in
                        let '(events', eventId, next') :=
                          match update_first_event recordingId set_event (sosEvents st) with
                          | Some (l, id) => (l, id, S evidenceId)
                          | None =>
                              (sosEvents st ++
                                 [set_event (SosEventDoc (S evidenceId) None userId None
                                               "" None None)],
                               S evidenceId, S (S evidenceId))
                          end in
                        (* add the event to the user's SOS history *)
                        let history' := alter (λ h, h ++ [eventId]) userId (sosHistory st) in
                        let st' :=
                          Store (<[uploadId := Session fs (progress dir)]> (uploads st))
                            (evidences st ++ [doc]) events' history' next'
                            (timers st ++ [uploadId]) in
                        (st', Response 200 (Finalized evidenceId recordingId fileUrls uploadId))
                    end
                end
            end
      | _, _, _ =>
          (st, Response 400
                 (Error "Missing required fields: uploadId, recordingId, metadata"))
      end
  end.

Fixpoint remove_first (x : string) (l : list string) : list string :=
  match l with
  | [] => []
  | y :: l' => if decide (y = x) then l' else y :: remove_first x l'
  end.

(** The cleanup scheduled by finalize-upload, five seconds later: removes
    the upload directory if it still exists. *)
Definition cleanup_timer (st : store) (uploadId : string) : store :=
  if decide (uploadId ∈ timers st) then
    Store (delete uploadId (uploads st)) (evidences st) (sosEvents st)
      (sosHistory st) (next_id st) (remove_first uploadId (timers st))
  else st.

(** *** Queries *)

Definition find_one {A} (p : A → bool) (l : list A) : option A := List.find p l.
Definition find_all {A} (p : A → bool) (l : list A) : list A := List.filter p l.

(** [.skip(s).limit(n)] of the driver: NaN and negative arguments are
    rejected, a limit of [0] is no limit. *)
Definition paginate {A} (limit skip : JS.number) (l : list A) : option (list A) :=
  match limit, skip with
  | Some n, Some s =>
      if (n <? 0)%Z || (s <? 0)%Z then None
      else
        let rest := drop (Z.to_nat s) l in
        Some (if (n =? 0)%Z then rest else take (Z.to_nat n) rest)
  | _, _ => None
  end.

Definition newest_first {A} (key : A → Z) : list A → list A :=
  sort_by (λ x y, (key y <=? key x)%Z).

Definition populate (st : store) (v : sosEventDoc) : option evidenceDoc :=
  match v_evidence v with
  | Some id => find_one (λ e, bool_decide (e_id e = id)) (evidences st)
  | None => None
  end.

(** *** GET /:recordingId *)

Definition get_evidence (st : store) (c : credential) (recordingId : string)
    (now : Z) : store * response :=
  match authenticateToken c with
  | inl r => (st, r)
  | inr userId =>
      match find_one (λ e, bool_decide (e_recordingId e = Some recordingId))
              (evidences st) with
      | None => (st, Response 404 (Error "Evidence not found"))
      | Some evidence =>
          (* verify user owns this evidence *)
          if decide (e_userId evidence ≠ userId)
          then (st, Response 403 (Error "Access denied - not your evidence"))
          else (st, Response 200 (EvidenceInfo evidence (now + 3600 * 1000)))
      end
  end.

(** *** GET / *)

Definition list_events (st : store) (c : credential) (limit skip : option string)
  : store * response :=
  match authenticateToken c with
  | inl r => (st, r)
  | inr userId =>
      let limit' := match limit with None => Some 50%Z | Some _ => JS.parseInt limit end in
      let skip' := match skip with None => Some 0%Z | Some _ => JS.parseInt skip end in
      let mine := find_all (λ v, bool_decide (v_userId v = userId)) (sosEvents st) in
      match paginate limit' skip'
              (newest_first (λ v, default 0%Z (v_timestamp v)) mine), limit', skip' with
      | Some page, Some n, Some s =>
          (st, Response 200
                 (EventList (map (λ v, (v, populate st v)) page) (length mine) n s))
      | _, _, _ => (st, Response 500 (Error "Failed to retrieve SOS history"))
      end
  end.

(** *** GET /events/:eventId *)

Definition get_event (st : store) (c : credential) (eventId : nat)
  : store * response :=
  match authenticateToken c with
  | inl r => (st, r)
  | inr userId =>
      match find_one (λ v, bool_decide (v_id v = eventId)) (sosEvents st) with
      | None => (st, Response 404 (Error "Event not found"))
      | Some event =>
          if decide (v_userId event ≠ userId)
          then (st, Response 403 (Error "Access denied"))
          else (st, Response 200 (EventInfo event (populate st event)))
      end
  end.

(** *** DELETE /events/:eventId *)

Definition delete_event (st : store) (c : credential) (eventId : string)
  : store * response :=
  match authenticateToken c with
  | inl r => (st, r)
  | inr _ =>
      (st, Response 403
             (Error "SOS events cannot be deleted for legal evidence preservation"))
  end.

(** *** POST /upload *)

Definition starts_with (p s : string) : bool :=
  if decide (String.prefix p s = true) then true else false.

Definition getEvidenceType (mimetype : string) : string :=
  if starts_with "video/" mimetype then "video_front"
  else if starts_with "audio/" mimetype then "audio"
  else if starts_with "image/" mimetype then "photo"
  else "unknown".

Definition secure_url (token : string) : string := "/api/evidence/file/" +:+ token.

(** The loop over [req.files]: the stored file entries and the file hashes,
    both in the order of the request. *)
Fixpoint process_files (fs : list uploadedFile) : list evidenceFile * list string :=
  match fs with
  | [] => ([], [])
  | f :: fs' =>
      let '(uploadedFiles, fileHashes) := process_files fs' in
      (EvidenceFile (getEvidenceType (u_mimetype f)) (u_originalname f)
         (u_content f) (secure_url (u_random f))
         (String.length (u_content f)) (u_mimetype f) :: uploadedFiles,
       SHA256.sha256_hex (u_content f) :: fileHashes)
  end.

(** [fileHashes.join('')] *)
Definition join (l : list string) : string := fold_right String.append "" l.

Definition summarize_file (f : evidenceFile) : fileSummary :=
  FileSummary (f_type f) (f_filename f) (f_mimeType f) (f_size f) (f_secureUrl f).

Definition upload (scope : module_scope) (st : store) (c : credential)
    (b : uploadBody) (now : Z) : store * response :=
  match authenticateToken c with
  | inl r => (st, r)
  | inr userId =>
      match ub_files b with
      | [] => (st, Response 400 (Error "No evidence files provided"))
      | _ :: _ =>
          let '(uploadedFiles, fileHashes) := process_files (ub_files b) in
          match scope with
          | SOSEvidence_unbound => (st, Response 500 (Error "Server error"))
          | SOSEvidence_bound =>
              (* generate hash for tamper protection *)
              let hash := SHA256.sha256_hex (join fileHashes) in
              let doc :=
                {| e_id := next_id st; e_userId := userId;
                   e_recordingId := None; e_timestamp := now;
                   e_duration := None; e_startTime := None;
                   e_encryptionIv := None; e_fileSizes := None;
                   e_frontVideoUrl := None; e_backVideoUrl := None;
                   e_audioUrl := None; e_uploadStatus := None;
                   e_uploadedAt := None; e_cloudStorageStatus := None;
                   e_sosId := ub_sosId b; e_type := ub_type b;
                   e_location := (ub_latitude b, ub_longitude b, ub_placeName b);
                   e_evidenceFiles := uploadedFiles;
                   e_deviceInfo := (ub_deviceId b, ub_os b, ub_appVersion b);
                   e_sharedWith := []; e_hash := Some hash;
                   e_createdAt := now |} in
              (Store (uploads st) (evidences st ++ [doc]) (sosEvents st)
                 (sosHistory st) (S (next_id st)) (timers st),
               Response 200
                 (Uploaded (next_id st) (map summarize_file uploadedFiles) hash))
          end
      end
  end.

(** *** GET /user/all *)

Definition summarize (e : evidenceDoc) : evidenceSummary :=
  EvidenceSummary (e_id e) (e_sosId e) (e_type e) (e_timestamp e) (e_location e)
    (map summarize_file (e_evidenceFiles e)) (e_sharedWith e).

(** [parseInt(x) || d] *)
Definition parseInt_or (x : option string) (d : Z) : Z :=
  match JS.parseInt x with
  | Some n => if (n =? 0)%Z then d else n
  | None => d
  end.

Definition user_all (scope : module_scope) (st : store) (c : credential)
    (limit page : option string) : store * response :=
  match authenticateToken c with
  | inl r => (st, r)
  | inr userId =>
      let limit' := parseInt_or limit 20 in
      let page' := parseInt_or page 1 in
      let skip := ((page' - 1) * limit')%Z in
      match scope with
      | SOSEvidence_unbound => (st, Response 500 (Error "Server error"))
      | SOSEvidence_bound =>
          let mine := find_all (λ e, bool_decide (e_userId e = userId)) (evidences st) in
          match paginate (Some limit') (Some skip) (newest_first e_timestamp mine) with
          | Some docs =>
              (st, Response 200
                     (UserEvidence (map summarize docs) (length mine) page' limit'))
          | None => (st, Response 500 (Error "Server error"))
          end
      end
  end.

(** *** GET /sos/:sosId *)

Definition get_by_sos (scope : module_scope) (st : store) (c : credential)
    (sosId : string) : store * response :=
  match authenticateToken c with
  | inl r => (st, r)
  | inr userId =>
      match scope with
      | SOSEvidence_unbound => (st, Response 500 (Error "Server error"))
      | SOSEvidence_bound =>
          let found :=
            find_all (λ e, bool_decide (e_sosId e = Some sosId)
                           && bool_decide (e_userId e = userId)) (evidences st) in
          (st, Response 200 (EvidenceList (newest_first e_createdAt found)))
      end
  end.

(** *** PUT /:evidenceId/share *)

Definition push_shares (records : list shareRecord) (e : evidenceDoc) : evidenceDoc :=
  {| e_id := e_id e; e_userId := e_userId e; e_recordingId := e_recordingId e;
     e_timestamp := e_timestamp e; e_duration := e_duration e;
     e_startTime := e_startTime e; e_encryptionIv := e_encryptionIv e;
     e_fileSizes := e_fileSizes e; e_frontVideoUrl := e_frontVideoUrl e;
     e_backVideoUrl := e_backVideoUrl e; e_audioUrl := e_audioUrl e;
     e_uploadStatus := e_uploadStatus e; e_uploadedAt := e_uploadedAt e;
     e_cloudStorageStatus := e_cloudStorageStatus e; e_sosId := e_sosId e;
     e_type := e_type e; e_location := e_location e;
     e_evidenceFiles := e_evidenceFiles e; e_deviceInfo := e_deviceInfo e;
     e_sharedWith := e_sharedWith e ++ records;
     e_hash := e_hash e; e_createdAt := e_createdAt e |}.

(** [findOne] followed by [evidence.save()]: the document that was found is
    written back in its place. *)
Fixpoint update_first {A} (p : A → bool) (f : A → A) (l : list A) : list A :=
  match l with
  | [] => []
  | x :: l' => if p x then f x :: l' else x :: update_first p f l'
  end.

Definition share (scope : module_scope) (st : store) (c : credential)
    (evidenceId : nat) (shareWith : option (list string)) (now : Z)
  : store * response :=
  match authenticateToken c with
  | inl r => (st, r)
  | inr userId =>
      match scope with
      | SOSEvidence_unbound => (st, Response 500 (Error "Server error"))
      | SOSEvidence_bound =>
          let mine e :=
            bool_decide (e_id e = evidenceId) && bool_decide (e_userId e = userId) in
          match find_one mine (evidences st) with
          | None => (st, Response 404 (Error "Evidence not found"))
          | Some evidence =>
              match shareWith with
              | None => (st, Response 500 (Error "Server error"))
              | Some types =>
                  (* add sharing records *)
                  let shareRecords := map (λ type, ShareRecord type now) types in
                  (Store (uploads st)
                     (update_first mine (push_shares shareRecords) (evidences st))
                     (sosEvents st) (sosHistory st) (next_id st) (timers st),
                   Response 200
                     (Shared (e_sharedWith (push_shares shareRecords evidence))))
              end
          end
      end
  end.

(** *** GET /file/:token *)

Definition has_file (url : string) (e : evidenceDoc) : bool :=
  existsb (λ f, bool_decide (f_secureUrl f = url)) (e_evidenceFiles e).

Definition get_file (scope : module_scope) (st : store) (c : credential)
    (token : string) : store * response :=
  match authenticateToken c with
  | inl r => (st, r)
  | inr userId =>
      match scope with
      | SOSEvidence_unbound => (st, Response 500 (Error "Server error"))
      | SOSEvidence_bound =>
          match find_one (λ e, has_file (secure_url token) e
                               && bool_decide (e_userId e = userId))
                  (evidences st) with
          | None => (st, Response 404 (Error "File not found"))
          | Some evidence =>
              match find_one (λ f, bool_decide (f_secureUrl f = secure_url token))
                      (e_evidenceFiles evidence) with
              | None => (st, Response 404 (Error "File not found"))
              | Some file =>
                  (st, Response 200
                         (FileContent (f_mimeType file) (f_filename file) (f_data file)))
              end
          end
      end
  end.

(** *** The router *)

Definition handle (scope : module_scope) (st : store) (r : request)
  : store * response :=
  match r with
  | UploadChunk c b => upload_chunk st c b
  | FinalizeUpload c b now iv => finalize_upload st c b now iv
  | GetEvidence c recordingId now => get_evidence st c recordingId now
  | ListEvents c limit skip => list_events st c limit skip
  | GetEvent c eventId => get_event st c eventId
  | DeleteEvent c eventId => delete_event st c eventId
  | Upload c b now => upload scope st c b now
  | UserAll c limit page => user_all scope st c limit page
  | GetBySos c sosId => get_by_sos scope st c sosId
  | Share c evidenceId shareWith now => share scope st c evidenceId shareWith now
  | GetFile c token => get_file scope st c token
  end.

(** What can happen to the store: a request is served or a cleanup timer
    fires. *)
Inductive event :=
| Http (r : request)
| Timeout (uploadId : string).

Definition step (scope : module_scope) (st : store) (ev : event) : store :=
  match ev with
  | Http r => fst (handle scope st r)
  | Timeout uploadId => cleanup_timer st uploadId
  end.

Fixpoint run (scope : module_scope) (st : store) (evs : list event) : store :=
  match evs with
  | [] => st
  | ev :: evs' => run scope (step scope st ev) evs'
  end.

Definition empty_store : store := Store ∅ [] [] ∅ 0 [].

End Evidence.

(** ** Vocabulary of the properties *)

Module ChunkStore.
Import Auth Evidence.

(** The progress entry upload-chunk keeps for a stream of a session. *)
Definition tracked (st : store) (uploadId fileType : string) : option fileProgress :=
  dir ← uploads st !! uploadId; p ← progress dir; JS.get p fileType.


(** The progress object before a request: [{}] when there is no
    [progress.json] yet. *)
Definition progress_before (st : store) (uploadId : string) : JS.object fileProgress :=
  default [] (progress (default empty_session (uploads st !! uploadId))).

(** The total kept for the stream: the one declared by its first chunk. *)
Definition declared_total (st : store) (uploadId fileType : string)
    (total : option string) : JS.number :=
  match tracked st uploadId fileType with
  | Some fp => totalChunks fp
  | None => JS.parseInt total
  end.

(** The store and the answer of an upload-chunk request that carries all its
    fields. *)
Definition stored (st : store) (uploadId recordingId fileType chunkIndex : string)
    (total : option string) (chunk : string) : store * response :=
  let p :=
    JS.set (progress_before st uploadId) fileType
      (FileProgress (JS.succ (JS.parseInt (Some chunkIndex)))
         (declared_total st uploadId fileType total)) in
  (Store
     (<[uploadId :=
          Session
            (<[chunk_name fileType chunkIndex := chunk]>
               (files (default empty_session (uploads st !! uploadId))))
            (Some p)]> (uploads st))
     (evidences st) (sosEvents st) (sosHistory st) (next_id st) (timers st),
   Response 200
     (ChunkStored uploadId recordingId fileType (JS.parseInt (Some chunkIndex))
        (JS.parseInt total) p)).


(** The upload-chunk request for chunk [i] of a stream of [total] chunks, with
    the index and the total written as decimal numerals. *)
Definition put_chunk (id uploadId recordingId fileType : string) (total i : nat)
    (data : string) : event :=
  Http (UploadChunk (Verified id)
          (ChunkBody (Some uploadId) (Some recordingId) (Some fileType)
             (Some (pretty i)) (Some (pretty total)) (Some data))).

(** A client that sends the chunks of one stream in index order. *)
Definition in_order_puts (id uploadId recordingId fileType : string)
    (chunks : list string) : list event :=
  imap (put_chunk id uploadId recordingId fileType (length chunks)) chunks.

(** The session after the first chunks of a stream of [total] chunks have
    arrived in index order: none yet and no session, or the chunks on disk
    and the counter at their number. *)
Definition received (st : store) (uploadId fileType : string) (total : nat)
    (arrived : list string) : Prop :=
  match arrived with
  | [] => uploads st !! uploadId = None
  | _ :: _ =>
      ∃ fs, uploads st !! uploadId
            = Some (Session fs
                      (Some [(fileType,
                              FileProgress (Some (Z.of_nat (length arrived)))
                                (Some (Z.of_nat total)))]))
            ∧ ∀ j c, arrived !! j = Some c →
                     fs !! chunk_name fileType (pretty j) = Some c
  end.

(** The finalize request of a client that sends all three fields. *)
Definition finalize_request (uploadId recordingId : string) (meta : metadata)
  : finalizeBody :=
  FinalizeBody (Some uploadId) (Some recordingId) (Some meta).

End ChunkStore.

Module Ledger.
Import Auth Evidence.

(** The evidence collection only grows: every document keeps its place and
    its fields, [sharedWith] gets entries appended, new documents come last. *)
Inductive grows : list evidenceDoc → list evidenceDoc → Prop :=
| grows_nil l' : grows [] l'
| grows_cons e records l l' :
    grows l l' → grows (e :: l) (push_shares records e :: l').

(** What created a document: POST /upload computes the hash from the request's
    files in their order; finalize-upload leaves the hash unset. *)
Definition created_by (r : request) (doc : evidenceDoc) : Prop :=
  match r with
  | Upload _ b _ =>
      e_hash doc
      = Some (SHA256.sha256_hex
                (join (map (λ f, SHA256.sha256_hex (u_content f)) (ub_files b))))
      ∧ map f_data (e_evidenceFiles doc) = map u_content (ub_files b)
  | FinalizeUpload _ _ _ _ => e_hash doc = None
  | _ => False
  end.

(** SOS events keep their place and their [_id]. *)
Definition events_kept (l l' : list sosEventDoc) : Prop :=
  map v_id l `prefix_of` map v_id l'.

(** The hash POST /upload computes, read off the stored files. *)
Definition files_hash (fs : list evidenceFile) : string :=
  SHA256.sha256_hex (join (map (λ f, SHA256.sha256_hex (f_data f)) fs)).

(** Modelled on the specification's words: the stream types in a canonical
    order, taken here as the order of the schema's enum
    ['video_front', 'video_back', 'audio', 'photo']. *)
Definition stream_rank (type : string) : nat :=
  if decide (type = "video_front") then 0
  else if decide (type = "video_back") then 1
  else if decide (type = "audio") then 2
  else if decide (type = "photo") then 3
  else 4.

Definition canonical_order : list evidenceFile → list evidenceFile :=
  sort_by (λ x y, Nat.leb (stream_rank (f_type x)) (stream_rank (f_type y))).

(** Modelled on the specification's words:
    [combinedHash = H(contentHash_1 ∥ contentHash_2 ∥ ...)] in canonical order. *)
Definition spec_combinedHash (fs : list evidenceFile) : string :=
  files_hash (canonical_order fs).

(** The three retrieval requests, sent by the verified user [id]. *)
Definition retrieval_by (id : string) (r : request) : Prop :=
  match r with
  | GetEvidence (Verified id') _ _ | GetBySos (Verified id') _
  | GetFile (Verified id') _ => id' = id
  | _ => False
  end.

(** The document is one the retrieval request asks for. *)
Definition asked_for (r : request) (e : evidenceDoc) : Prop :=
  match r with
  | GetEvidence _ recordingId _ => e_recordingId e = Some recordingId
  | GetBySos _ sosId => e_sosId e = Some sosId
  | GetFile _ token => has_file (secure_url token) e = true
  | _ => False
  end.

(** Every piece of evidence in the response comes from a stored document of
    the user [id]. *)
Definition own_evidence_only (st : store) (id : string) (b : body) : Prop :=
  match b with
  | Error _ => True
  | EvidenceInfo source _ => source ∈ evidences st ∧ e_userId source = id
  | EvidenceList docs => ∀ e, e ∈ docs → e ∈ evidences st ∧ e_userId e = id
  | FileContent mimeType filename data =>
      ∃ e f, e ∈ evidences st ∧ e_userId e = id ∧ f ∈ e_evidenceFiles e
             ∧ f_data f = data ∧ f_mimeType f = mimeType ∧ f_filename f = filename
  | _ => False
  end.

(** A response that carries evidence content. *)
Definition has_evidence_content (b : body) : Prop :=
  match b with
  | EvidenceInfo _ _ | FileContent _ _ _ => True
  | EvidenceList docs => docs ≠ []
  | _ => False
  end.

End Ledger.

(** ** Nearby volunteers ([routes/volunteerRoutes.js]) *)

Module Volunteers.
Import Auth.

Section Geo.
(** Positions and the two distance computations are external: MongoDB's
    [$near] on the 2dsphere index, and the handler's haversine function on
    floating-point numbers.  [parse_origin] and [parse_radius] are
    [parseFloat] on the route parameters, [None] when the result is not a
    position or a radius the query accepts. *)
Context {point : Type}.
Variable sphere_distance : point → point → Z.
Variable calculateDistance : point → point → Z.
Variable parse_origin : string → string → option point.
Variable parse_radius : string → option Z.

Record user := User {
  u_id : string;
  u_name : string;
  u_mobile : string;
  isVolunteer : bool;
  volunteerLocation : option point;
  volunteerLastActive : option Z }.

Record volunteerInfo := VolunteerInfo {
  vi_id : string;
  vi_name : string;
  vi_mobile : string;
  vi_location : point;
  vi_lastActive : Z;
  vi_distance : Z }.

Inductive body :=
| Error (msg : string)
| Nearby (count : nat) (volunteers : list volunteerInfo).

Record response := Response { status : nat; payload : body }.

(** The router's own [authenticateToken]. *)
Definition authenticateToken (c : credential) : response + string :=
  match c with
  | NoToken => inl (Response 401 (Error "Access token required"))
  | InvalidToken => inl (Response 403 (Error "Invalid token"))
  | Verified id => inr id
  end.

Definition day_ms : Z := 24 * 60 * 60 * 1000.

(** The filter of the query: a volunteer, active within the last 24 hours,
    located within the radius. *)
Definition matches (now : Z) (origin : point) (radius : Z) (u : user) : bool :=
  isVolunteer u
  && match volunteerLastActive u with
     | Some t => (now - day_ms <=? t)%Z
     | None => false
     end
  && match volunteerLocation u with
     | Some p => (sphere_distance origin p <=? radius)%Z
     | None => false
     end.

Definition distance_of (origin : point) (u : user) : Z :=
  match volunteerLocation u with
  | Some p => sphere_distance origin p
  | None => 0
  end.

(** [User.find({...$near...}).limit(20)]: matching users, nearest first. *)
Definition find_nearby (users : list user) (now : Z) (origin : point) (radius : Z)
  : list user :=
  take 20
    (sort_by (λ x y, (distance_of origin x <=? distance_of origin y)%Z)
       (filter (λ u, matches now origin radius u = true) users)).

Definition describe (origin : point) (u : user) : option volunteerInfo :=
  match volunteerLocation u, volunteerLastActive u with
  | Some p, Some t =>
      Some (VolunteerInfo (u_id u) (u_name u) (u_mobile u) p t (calculateDistance origin p))
  | _, _ => None
  end.

(** GET /nearby/:lat/:lng/:radius *)
Definition nearby (users : list user) (c : credential) (lat lng radius : string)
    (now : Z) : response :=
  match authenticateToken c with
  | inl r => r
  | inr _ =>
      if JS.falsy (Some lat) || JS.falsy (Some lng) || JS.falsy (Some radius)
      then Response 400 (Error "Latitude, longitude, and radius required")
      else
        match parse_origin lat lng, parse_radius radius with
        | Some origin, Some searchRadius =>
            let volunteers := find_nearby users now origin searchRadius in
            Response 200
              (Nearby (length volunteers) (omap (describe origin) volunteers))
        | _, _ => Response 500 (Error "Server error")
        end
  end.

End Geo.
End Volunteers.

(** ** Guardian responses ([routes/advancedSOSRoutes.js]) *)

Module AdvancedSOS.

(** A document of the SOS collection ([models/SOS]). *)
Record sos := Sos {
  sos_id : string;
  sos_userId : string;
  sos_status : string;          (* 'active', 'resolved' or 'cancelled' *)
  sos_resolvedAt : option Z }.

(** The only collection the router imports. *)
Definition store := list sos.

Record guardianResponse := GuardianResponse {
  guardianId : string;
  sosEventId : option string;
  action : option string;
  reason : option string;
  respondedAt : Z }.

Inductive body :=
| Error (msg : string)
| Recorded (response : guardianResponse).   (* message: 'Response recorded' *)

Record response := Response { status : nat; payload : body }.

Record respondRequest := RespondRequest {
  rq_guardianId : string;
  rq_sosEventId : option string;
  rq_action : option string;
  rq_reason : option string;
  rq_now : Z }.

(** POST /guardians/:guardianId/respond.  The handler builds the response
    object and sends it back; saving it, attaching it to the SOS event and
    starting location sharing on 'ACCEPTED' are comments in the source. *)
Definition respond (st : store) (r : respondRequest) : store * response :=
  let response :=
    GuardianResponse (rq_guardianId r) (rq_sosEventId r) (rq_action r)
      (rq_reason r) (rq_now r) in
  let st' :=
    if decide (rq_action r = Some "ACCEPTED") then st else st in
  (st', Response 200 (Recorded response)).

Fixpoint respond_all (st : store) (rs : list respondRequest)
  : store * list response :=
  match rs with
  | [] => (st, [])
  | r :: rs' =>
      let '(st1, resp) := respond st r in
      let '(st2, resps) := respond_all st1 rs' in
      (st2, resp :: resps)
  end.

Definition status_of (st : store) (id : string) : option string :=
  sos_status <$> List.find (λ s, bool_decide (sos_id s = id)) st.

End AdvancedSOS.

(** The scenarios of the examples: one user, one upload session. *)
Module Scenario.
Import Auth Evidence.

(** User ids and the SOS id are ObjectId strings. *)
Definition alice_id : string := "64a1f0c2b7e4d9a3c5e8f001".
Definition bob_id : string := "64a1f0c2b7e4d9a3c5e8f002".
Definition sos_id : string := "64a1f0c2b7e4d9a3c5e8f0a5".

Definition alice : credential := Verified alice_id.
Definition bob : credential := Verified bob_id.

Definition put (stream index total data : string) : event :=
  Http (UploadChunk alice
          (ChunkBody (Some "u1") (Some "rec1") (Some stream) (Some index)
             (Some total) (Some data))).

Definition meta : metadata := Metadata (Some 1000%Z) None None None None None None.

Definition finalize : request :=
  FinalizeUpload alice (ChunkStore.finalize_request "u1" "rec1" meta)
    5000 "00112233445566778899aabbccddeeff".

(** Only the last of three chunks arrives. *)
Definition only_last : store :=
  run evidenceRoutes_js empty_store [put "audioRecording" "2" "3" "CC"].

(** Only the first of three chunks arrives. *)
Definition only_first : store :=
  run evidenceRoutes_js empty_store [put "audioRecording" "0" "3" "AA"].

(** Both chunks of two arrive, in index order and in the other order. *)
Definition in_order : store :=
  run evidenceRoutes_js empty_store
    [put "audioRecording" "0" "2" "AA"; put "audioRecording" "1" "2" "BB"].

Definition reversed : store :=
  run evidenceRoutes_js empty_store
    [put "audioRecording" "1" "2" "BB"; put "audioRecording" "0" "2" "AA"].

Definition file_of (st : store) (name : string) : option string :=
  dir ← uploads st !! "u1"; files dir !! name.

(** A direct upload of a photo and an audio file, in the two request orders. *)
Definition photo : uploadedFile :=
  UploadedFile "scene.jpg" "image/jpeg" "PHOTO-BYTES" "0f0e0d0c0b0a09080706050403020100".
Definition audio : uploadedFile :=
  UploadedFile "voice.mp3" "audio/mpeg" "AUDIO-BYTES" "000102030405060708090a0b0c0d0e0f".

Definition upload_of (fs : list uploadedFile) : uploadBody :=
  UploadBody (Some sos_id) (Some "panic") (Some "12.9") (Some "77.6") None
    None None None fs.

(** The record the stand-alone router stores for alice's upload of the photo
    and the audio file, in that order. *)
Definition uploaded_doc : evidenceDoc :=
  {| e_id := 0; e_userId := alice_id; e_recordingId := None; e_timestamp := 7000;
     e_duration := None; e_startTime := None; e_encryptionIv := None;
     e_fileSizes := None; e_frontVideoUrl := None; e_backVideoUrl := None;
     e_audioUrl := None; e_uploadStatus := None; e_uploadedAt := None;
     e_cloudStorageStatus := None; e_sosId := Some sos_id; e_type := Some "panic";
     e_location := (Some "12.9", Some "77.6", None);
     e_evidenceFiles :=
       [ EvidenceFile "photo" "scene.jpg" "PHOTO-BYTES"
           "/api/evidence/file/0f0e0d0c0b0a09080706050403020100" 11 "image/jpeg";
         EvidenceFile "audio" "voice.mp3" "AUDIO-BYTES"
           "/api/evidence/file/000102030405060708090a0b0c0d0e0f" 11 "audio/mpeg" ];
     e_deviceInfo := (None, None, None);
     e_sharedWith := [];
     e_hash :=
       Some (SHA256.sha256_hex
               (SHA256.sha256_hex "PHOTO-BYTES" +:+ SHA256.sha256_hex "AUDIO-BYTES"));
     e_createdAt := 7000 |}.

(** Volunteers on an integer grid: positions are pairs of integers, the
    distance is the taxicab distance, route parameters are integer numerals. *)
Definition grid_distance (p q : Z * Z) : Z :=
  (Z.abs (fst p - fst q) + Z.abs (snd p - snd q))%Z.

Definition grid_origin (lat lng : string) : option (Z * Z) :=
  match JS.parseInt (Some lat), JS.parseInt (Some lng) with
  | Some a, Some b => Some (a, b)
  | _, _ => None
  end.

Definition grid_radius (radius : string) : option Z :=
  match JS.parseInt (Some radius) with
  | Some r => if (r <? 0)%Z then None else Some r
  | None => None
  end.

(** One volunteer seen an hour ago, one seen two days ago, both next door. *)
Definition hour_ms : Z := 3600000.
Definition query_time : Z := 1000 * Volunteers.day_ms.
Definition recent_volunteer : Volunteers.user :=
  Volunteers.User "v1" "Asha" "111" true (Some (1, 1)%Z) (Some (query_time - hour_ms)%Z).
Definition stale_volunteer : Volunteers.user :=
  Volunteers.User "v2" "Ravi" "222" true (Some (1, 2)%Z)
    (Some (query_time - 2 * Volunteers.day_ms)%Z).

(** An active incident, and two guardians who accept it one after the other. *)
Definition incident : AdvancedSOS.store := [AdvancedSOS.Sos "e1" alice_id "active" None].
Definition accept (guardian : string) (now : Z) : AdvancedSOS.respondRequest :=
  AdvancedSOS.RespondRequest guardian (Some "e1") (Some "ACCEPTED") None now.

(** The store of the stand-alone router after alice's direct upload. *)
Definition with_upload : store :=
  fst (upload standalone_router empty_store alice (upload_of [photo; audio]) 7000).

End Scenario.


(** ** Names that are path components and property names

    The handlers build paths with [path.join] and look stream types up in the
    object read from [progress.json].  The model keeps a session under the
    upload id as it was sent and a file under its name, and an object has its
    own properties only.  The two agree for the names below: a plain name is
    one path component that [path.join] leaves as it is, and a stream name is
    a plain name that no object inherits from [Object.prototype] (for
    'constructor', [progress[fileType]] is a function before any chunk has
    arrived).  Numerals of at most 15 characters are integers that a double
    holds exactly.  File names are compared as the file system compares
    them, character by character. *)

Module Names.
Import Evidence.

(** Letters, digits, [-] and [_]. *)
Definition name_char (c : ascii) : bool :=
  let n := nat_of_ascii c in
  ((48 <=? n) && (n <=? 57) || (65 <=? n) && (n <=? 90)
   || (97 <=? n) && (n <=? 122) || (n =? 45) || (n =? 95))%nat.

(** Between 1 and 64 characters, each a letter, a digit, [-] or [_]. *)
Definition plain (s : string) : bool :=
  negb (String.eqb s "") && (String.length s <=? 64)%nat
  && forallb name_char (list_ascii_of_string s).

(** The properties of [Object.prototype]. *)
Definition inherited : list string :=
  [ "constructor"; "__defineGetter__"; "__defineSetter__"; "hasOwnProperty";
    "__lookupGetter__"; "__lookupSetter__"; "isPrototypeOf";
    "propertyIsEnumerable"; "toString"; "valueOf"; "__proto__"; "toLocaleString" ].

Definition stream_name (s : string) : bool :=
  plain s && negb (existsb (String.eqb s) inherited).

(** A chunk index: a plain name of at most 15 characters. *)
Definition index_name (s : string) : bool :=
  plain s && (String.length s <=? 15)%nat.

(** A [totalChunks] field: missing, or at most 15 ASCII characters. *)
Definition total_text (x : option string) : bool :=
  match x with
  | None => true
  | Some s =>
      (String.length s <=? 15)%nat
      && forallb (λ c, (nat_of_ascii c <? 128)%nat) (list_ascii_of_string s)
  end.

(** An upload-chunk body whose names are of this kind.  A body without an
    upload id, a stream type or a chunk index is answered 400 before any
    name is used. *)
Definition ordinary_chunk (b : chunkBody) : bool :=
  match cb_uploadId b, cb_fileType b, cb_chunkIndex b with
  | Some uploadId, Some fileType, Some chunkIndex =>
      plain uploadId && stream_name fileType && index_name chunkIndex
      && total_text (cb_totalChunks b)
  | _, _, _ => true
  end.

Definition ordinary_finalize (b : finalizeBody) : bool :=
  match fb_uploadId b with
  | Some uploadId => plain uploadId
  | None => true
  end.

(** The other requests use no path. *)
Definition ordinary (r : request) : bool :=
  match r with
  | UploadChunk _ b => ordinary_chunk b
  | FinalizeUpload _ b _ _ => ordinary_finalize b
  | _ => true
  end.

Definition ordinary_event (ev : event) : bool :=
  match ev with
  | Http r => ordinary r
  | Timeout uploadId => plain uploadId
  end.

(** A file name inside an upload directory: one path component, and not the
    progress file, which the model keeps apart. *)
Definition file_name (s : string) : bool :=
  negb (existsb (String.eqb s) [""; "."; ".."; "progress.json"])
  && forallb (λ c, negb (Ascii.eqb c "/") && negb (Ascii.eqb c "000"))
       (list_ascii_of_string s).

(** A number that a double holds exactly, or none. *)
Definition safe (n : JS.number) : bool :=
  match n with
  | Some z => (Z.abs z <? 2 ^ 53)%Z
  | None => true
  end.

Definition progress_entry (entry : string * fileProgress) : bool :=
  stream_name entry.1 && safe (uploadedChunks entry.2) && safe (totalChunks entry.2).

(** The upload directories of a store are flat: every session is a
    directory with a plain name, it holds files only, and the streams of its
    [progress.json] have stream names and numbers as JSON holds them. *)
Definition flat (st : store) : Prop :=
  map_Forall
    (λ uploadId dir,
       plain uploadId = true
       ∧ map_Forall (λ name _, file_name name = true) (files dir)
       ∧ Forall (λ entry, progress_entry entry = true) (default [] (progress dir)))
    (uploads st).

End Names.

(** ** Base64 ([buffer.toString('base64')], [Buffer.from(s, 'base64')]) *)

Module Base64.
Local Open Scope N_scope.

Definition alphabet : string :=
  "ABCDEFGHIJKLMNOPQRSTUVWXYZabcdefghijklmnopqrstuvwxyz0123456789+/".

(** The character of a 6-bit value. *)
Definition base64_char (v : N) : ascii :=
  default "="%char (String.get (N.to_nat v) alphabet).

(** [buffer.toString('base64')]: three bytes give four characters; the last
    group is padded with [=]. *)
Fixpoint encode (s : string) : string :=
  match s with
  | EmptyString => EmptyString
  | String a EmptyString =>
      let x := N_of_ascii a in
      String (base64_char (x / 4)) (String (base64_char (x mod 4 * 16)) "==")
  | String a (String b EmptyString) =>
      let x := N_of_ascii a in
      let y := N_of_ascii b in
      String (base64_char (x / 4))
        (String (base64_char (x mod 4 * 16 + y / 16))
           (String (base64_char (y mod 16 * 4)) "="))
  | String a (String b (String c rest)) =>
      let x := N_of_ascii a in
      let y := N_of_ascii b in
      let z := N_of_ascii c in
      String (base64_char (x / 4))
        (String (base64_char (x mod 4 * 16 + y / 16))
           (String (base64_char (y mod 16 * 4 + z / 64))
              (String (base64_char (z mod 64)) (encode rest))))
  end.

(** The 6-bit value of a character of the standard or of the URL-safe
    alphabet. *)
Definition unbase64 (c : ascii) : option N :=
  let n := N_of_ascii c in
  if (65 <=? n) && (n <=? 90) then Some (n - 65)
  else if (97 <=? n) && (n <=? 122) then Some (n - 71)
  else if (48 <=? n) && (n <=? 57) then Some (n + 4)
  else if (n =? 43) || (n =? 45) then Some 62
  else if (n =? 47) || (n =? 95) then Some 63
  else None.

(** [Buffer.from(s, 'base64')] from position [k] of a group of four, [hi]
    being the value read last: characters outside the alphabets are skipped,
    decoding stops at the first [=]. *)
Fixpoint decode_from (k : nat) (hi : N) (s : string) : string :=
  match s with
  | EmptyString => EmptyString
  | String c rest =>
      if decide (c = "="%char) then EmptyString
      else
        match unbase64 c with
        | None => decode_from k hi rest
        | Some lo =>
            match k with
            | 0%nat => decode_from 1 lo rest
            | 1%nat => String (ascii_of_N (hi * 4 + lo / 16)) (decode_from 2 lo rest)
            | 2%nat => String (ascii_of_N (hi mod 16 * 16 + lo / 4)) (decode_from 3 lo rest)
            | _ => String (ascii_of_N (hi mod 4 * 64 + lo)) (decode_from 0 lo rest)
            end
        end
  end.

Definition decode (s : string) : string := decode_from 0 0 s.

End Base64.

(** ** The stand-alone evidence router: multer's file filter, and the schema *)

Module Standalone.

(** [allowedTypes] of [fileFilter]: a file of another type is refused by multer
    before the handler runs. *)
Definition allowedTypes : list string :=
  ["video/mp4"; "video/avi"; "audio/mpeg"; "audio/wav"; "image/jpeg"; "image/png"].

Definition fileFilter (mimetype : string) : bool :=
  bool_decide (mimetype ∈ allowedTypes).

End Standalone.

(** The enumerations of [models/SOSEvidence.js]. *)
Module Schema.

Definition evidenceFile_types : list string :=
  ["video_front"; "video_back"; "audio"; "photo"].

Definition sharedWith_types : list string :=
  ["family"; "police"; "emergency_services"; "sos_logs"].

End Schema.

(** ** Vocabulary of the properties of the upload directory and of the events *)

Module Directory.
Import Auth Evidence.

(** The content of a file of an upload directory. *)
Definition file (st : store) (uploadId name : string) : option string :=
  dir ← uploads st !! uploadId; files dir !! name.

(** The chunk files the assembly loop asks for: the stream's indexes below
    its total, written as the template literal writes a number. *)
Definition numbered_chunks (fileType : string) (fp : fileProgress) : list string :=
  map (λ i, chunk_name fileType (pretty i)) (seq 0 (JS.loop_count (totalChunks fp))).

(** The files finalize-upload reads, deletes or writes for a progress object. *)
Definition finalize_touches (p : JS.object fileProgress) : list string :=
  flat_map (λ entry, final_name entry.1 :: numbered_chunks entry.1 entry.2) p.

(** The progress object of a session, [{}] when there is none. *)
Definition progress_of (st : store) (uploadId : string) : JS.object fileProgress :=
  default [] (dir ← uploads st !! uploadId; progress dir).

End Directory.

Module Events.
Import Auth Evidence.

(** The two event retrieval requests, sent by the verified user [id]. *)
Definition retrieval_by (id : string) (r : request) : Prop :=
  match r with
  | ListEvents (Verified id') _ _ | GetEvent (Verified id') _ => id' = id
  | _ => False
  end.

(** The events an answer shows. *)
Definition shown (b : body) : list sosEventDoc :=
  match b with
  | EventList events _ _ _ => map fst events
  | EventInfo v _ => [v]
  | _ => []
  end.

(** Every event of the user has a timestamp, as the schema's default gives
    it one. *)
Definition timestamped (st : store) (id : string) : Prop :=
  ∀ v, v ∈ sosEvents st → v_userId v = id → is_Some (v_timestamp v).

(** The events of a user, newest first: what GET / pages through. *)
Definition history_of (st : store) (id : string) : list sosEventDoc :=
  newest_first (λ v, default 0%Z (v_timestamp v))
    (find_all (λ v, bool_decide (v_userId v = id)) (sosEvents st)).

(** [pagination.hasMore] of the response of GET /:
    [parseInt(skip) + parseInt(limit) < total]. *)
Definition hasMore (b : body) : option bool :=
  match b with
  | EventList _ total limit skip => Some (skip + limit <? Z.of_nat total)%Z
  | _ => None
  end.

(** The number of events of a user: [SOSEvent.countDocuments({ userId })]. *)
Definition count_of (st : store) (id : string) : nat :=
  length (find_all (λ v, bool_decide (v_userId v = id)) (sosEvents st)).

(** A list goes by decreasing [key]: no element is followed by one with a
    larger key. *)
Fixpoint decreasing {A} (key : A → Z) (l : list A) : Prop :=
  match l with
  | [] => True
  | x :: l' => Forall (λ y, key y ≤ key x)%Z l' ∧ decreasing key l'
  end.

End Events.

(** ** SOS history ([routes/advancedSOSRoutes.js], GET /history) *)

Module SosHistory.

Section Log.
(** Coordinates are JSON numbers that the handler passes on. *)
Context {number : Type}.

Record coordinates := Coordinates {
  latitude : option number;
  longitude : option number }.

(** A document of the SOS collection ([models/SOS]) as [lean()] returns it. *)
Record sosDoc := SosDoc {
  d_id : string;
  d_userId : string;
  d_type : string;
  d_status : string;
  d_location : string;
  d_timestamp : Z;
  d_createdAt : Z;
  d_coordinates : option coordinates;
  d_evidence : option string;
  d_silent : bool;
  d_resolvedAt : option Z }.

(** One entry of [data]. *)
Record entry := Entry {
  h_id : string;
  h_type : string;
  h_status : string;
  h_location : string;
  h_timestamp : Z;
  h_createdAt : Z;
  h_coordinates : option coordinates;
  h_latitude : option number;
  h_longitude : option number;
  h_address : string;
  h_evidence : option string;
  h_silent : bool;
  h_resolvedAt : option Z }.

Definition format (event : sosDoc) : entry :=
  {| h_id := d_id event; h_type := d_type event; h_status := d_status event;
     h_location := d_location event; h_timestamp := d_timestamp event;
     h_createdAt := d_createdAt event; h_coordinates := d_coordinates event;
     h_latitude := c ← d_coordinates event; latitude c;
     h_longitude := c ← d_coordinates event; longitude c;
     h_address := d_location event; h_evidence := d_evidence event;
     h_silent := d_silent event; h_resolvedAt := d_resolvedAt event |}.

Record pagination := Pagination {
  page : Z;
  pages : Z;
  limit : Z;
  total : nat;
  hasNextPage : bool;
  hasPrevPage : bool }.

Inductive body :=
| Error (message : string)
| History (data : list entry) (p : pagination).

Record response := Response { status : nat; payload : body }.

(** What [authenticateToken] leaves in [req.user], as far as the handler
    reads it. *)
Record user := User { user_id : option string; user__id : option string }.

Inductive credential :=
| NoToken
| InvalidToken
| Verified (u : user).

Definition authenticateToken (c : credential) : response + user :=
  match c with
  | NoToken => inl (Response 401 (Error "Access token required"))
  | InvalidToken => inl (Response 403 (Error "Invalid or expired token"))
  | Verified u => inr u
  end.

(** [Math.ceil(a / b)] for a divisor other than [0]. *)
Definition ceil_div (a b : Z) : Z := (- ((- a) / b))%Z.

(** [.skip(s).limit(n)]: a negative skip is refused by the server; the driver
    sends a negative limit as its absolute value; a limit of [0] is no
    limit. *)
Definition skip_limit {A} (s n : Z) (l : list A) : option (list A) :=
  if (s <? 0)%Z then None
  else
    let rest := drop (Z.to_nat s) l in
    Some (if (n =? 0)%Z then rest else take (Z.to_nat (Z.abs n)) rest).

(** The events of a user: [SOS.find({ userId })]. *)
Definition events_of (st : list sosDoc) (userId : option string) : list sosDoc :=
  List.filter (λ d, bool_decide (userId = Some (d_userId d))) st.

(** GET /history *)
Definition history (st : list sosDoc) (c : credential) (limit page : option string)
  : response :=
  match authenticateToken c with
  | inl r => r
  | inr u =>
      let userId := if JS.falsy (user_id u) then user__id u else user_id u in
      let limit' := Evidence.parseInt_or limit 50 in
      let page' := Evidence.parseInt_or page 1 in
      let skip := ((page' - 1) * limit')%Z in
      let mine := events_of st userId in
      match skip_limit skip limit' (Evidence.newest_first d_timestamp mine) with
      | Some sosEvents =>
          let total := length mine in
          let pages := ceil_div (Z.of_nat total) limit' in
          Response 200
            (History (map format sosEvents)
               (Pagination page' pages limit' total (page' <? pages)%Z (1 <? page')%Z))
      | None => Response 500 (Error "Failed to fetch SOS history")
      end
  end.

(** The entries of an answer, none when it is an error. *)
Definition data_of (r : response) : list entry :=
  match payload r with
  | History data _ => data
  | Error _ => []
  end.

Definition pagination_of (r : response) : option pagination :=
  match payload r with
  | History _ p => Some p
  | Error _ => None
  end.

(** The request for page [p] with [n] events a page, by the user [id]. *)
Definition page_request (st : list sosDoc) (id : string) (n p : nat) : response :=
  history st (Verified (User (Some id) None)) (Some (pretty n)) (Some (pretty p)).

End Log.
End SosHistory.

(** ** JSON values of a request body *)

Module Json.
Section Values.
(** JSON numbers are floating-point numbers; a handler only tests them for
    zero. *)
Context {number : Type}.
Variable is_zero : number → bool.

Inductive value :=
| JUndefined                 (* the property is missing *)
| JNull
| JBool (b : bool)
| JNumber (x : number)
| JString (s : string)
| JCompound.                 (* an array or an object *)

(** [!v] *)
Definition falsy (v : value) : bool :=
  match v with
  | JUndefined | JNull => true
  | JBool b => negb b
  | JNumber x => is_zero x
  | JString s => bool_decide (s = "")
  | JCompound => false
  end.

End Values.
End Json.

(** ** The volunteer router ([routes/volunteerRoutes.js]): registration and alerts *)

Module VolunteerRoutes.
Import Auth.

Section Routes.
Context {point number : Type}.
(** As for GET /nearby: MongoDB's [$near] and the handler's haversine
    function are external. *)
Variable sphere_distance : point → point → Z.
Variable calculateDistance : point → point → Z.
Variable parse_origin : string → string → option point.
Variable parse_radius : string → option Z.
(** Body values. [stored_point longitude latitude] is the point MongoDB keeps
    for [coordinates: [longitude, latitude]] after Mongoose's cast,
    [query_point] the point a [$near] query is run from; [None] when they are
    refused.  [distance_km latitude longitude p] is
    [calculateDistance(latitude, longitude, ...) / 1000] for a volunteer at
    [p]. *)
Variable is_zero : number → bool.
Variable stored_point : @Json.value number → @Json.value number → option point.
Variable query_point : @Json.value number → @Json.value number → option point.
Variable distance_km : @Json.value number → @Json.value number → point → number.

Local Abbreviation user := (@Volunteers.user point).
Local Abbreviation value := (@Json.value number).
Local Abbreviation falsy := (Json.falsy is_zero).

Record alertInfo := AlertInfo {
  ai_id : string;
  ai_name : string;
  ai_mobile : string;
  ai_distance : number }.

Inductive body :=
| Error (message : string)
| Registered (location : point) (lastActive : Z)      (* isVolunteer: true *)
| LocationUpdated (location : point) (lastActive : Z)
| Unregistered
| NoVolunteers                                         (* alerted: 0, volunteers: [] *)
| Alerted (alerted : nat) (emergencyType : value) (volunteers : list alertInfo).

Record response := Response { status : nat; payload : body }.

(** The router's own [authenticateToken]. *)
Definition authenticateToken (c : credential) : response + string :=
  match c with
  | NoToken => inl (Response 401 (Error "Access token required"))
  | InvalidToken => inl (Response 403 (Error "Invalid token"))
  | Verified id => inr id
  end.

(** [User.findById(id)] *)
Definition findById (users : list user) (id : string) : option user :=
  Evidence.find_one (λ u, bool_decide (Volunteers.u_id u = id)) users.

(** [user.save()]: the document that was found is written back. *)
Definition save (users : list user) (id : string) (u : user) : list user :=
  Evidence.update_first (λ u, bool_decide (Volunteers.u_id u = id)) (λ _, u) users.

(** POST /register *)
Definition register (users : list user) (c : credential) (latitude longitude : value)
    (now : Z) : list user * response :=
  match authenticateToken c with
  | inl r => (users, r)
  | inr id =>
      if falsy latitude || falsy longitude
      then (users, Response 400 (Error "Location coordinates required"))
      else
        match findById users id with
        | None => (users, Response 404 (Error "User not found"))
        | Some u =>
            match stored_point longitude latitude with
            | None => (users, Response 500 (Error "Server error"))
            | Some p =>
                (save users id
                   (Volunteers.User (Volunteers.u_id u) (Volunteers.u_name u)
                      (Volunteers.u_mobile u) true (Some p) (Some now)),
                 Response 200 (Registered p now))
            end
        end
  end.

(** PUT /location *)
Definition update_location (users : list user) (c : credential)
    (latitude longitude : value) (now : Z) : list user * response :=
  match authenticateToken c with
  | inl r => (users, r)
  | inr id =>
      if falsy latitude || falsy longitude
      then (users, Response 400 (Error "Location coordinates required"))
      else
        match findById users id with
        | None => (users, Response 404 (Error "Volunteer not found"))
        | Some u =>
            if negb (Volunteers.isVolunteer u)
            then (users, Response 404 (Error "Volunteer not found"))
            else
              match stored_point longitude latitude with
              | None => (users, Response 500 (Error "Server error"))
              | Some p =>
                  (save users id
                     (Volunteers.User (Volunteers.u_id u) (Volunteers.u_name u)
                        (Volunteers.u_mobile u) (Volunteers.isVolunteer u) (Some p)
                        (Some now)),
                   Response 200 (LocationUpdated p now))
              end
        end
  end.

(** DELETE /unregister *)
Definition unregister (users : list user) (c : credential) : list user * response :=
  match authenticateToken c with
  | inl r => (users, r)
  | inr id =>
      match findById users id with
      | None => (users, Response 404 (Error "User not found"))
      | Some u =>
          (save users id
             (Volunteers.User (Volunteers.u_id u) (Volunteers.u_name u)
                (Volunteers.u_mobile u) false None None),
           Response 200 Unregistered)
      end
  end.

(** The query of POST /alert-nearby: the ten nearest volunteers within five
    kilometres who were active in the last 24 hours. *)
Definition find_to_alert (users : list user) (now : Z) (origin : point) : list user :=
  take 10
    (sort_by (λ x y, (Volunteers.distance_of sphere_distance origin x
                      <=? Volunteers.distance_of sphere_distance origin y)%Z)
       (filter (λ u, Volunteers.matches sphere_distance now origin 5000 u = true) users)).

Definition describe_alert (latitude longitude : value) (v : user) : option alertInfo :=
  match Volunteers.volunteerLocation v with
  | Some p =>
      Some (AlertInfo (Volunteers.u_id v) (Volunteers.u_name v) (Volunteers.u_mobile v)
              (distance_km latitude longitude p))
  | None => None
  end.

(** POST /alert-nearby *)
Definition alert_nearby (users : list user) (c : credential)
    (latitude longitude emergencyType : value) (now : Z) : response :=
  match authenticateToken c with
  | inl r => r
  | inr _ =>
      if falsy latitude || falsy longitude || falsy emergencyType
      then Response 400 (Error "Location coordinates and emergency type required")
      else
        match query_point longitude latitude with
        | None => Response 500 (Error "Server error")
        | Some origin =>
            let volunteers := find_to_alert users now origin in
            match volunteers with
            | [] => Response 200 NoVolunteers
            | _ :: _ =>
                Response 200
                  (Alerted (length volunteers) emergencyType
                     (omap (describe_alert latitude longitude) volunteers))
            end
        end
  end.

(** *** The router *)

Inductive request :=
| Register (c : credential) (latitude longitude : value) (now : Z)
| UpdateLocation (c : credential) (latitude longitude : value) (now : Z)
| Unregister (c : credential)
| Nearby (c : credential) (lat lng radius : string) (now : Z)
| AlertNearby (c : credential) (latitude longitude emergencyType : value) (now : Z).

(** The answer of a request: of this module's handlers, or of GET /nearby. *)
Inductive answer :=
| Answer (r : response)
| NearbyAnswer (r : @Volunteers.response point).

Definition handle (users : list user) (r : request) : list user * answer :=
  match r with
  | Register c latitude longitude now =>
      let '(users', resp) := register users c latitude longitude now in
      (users', Answer resp)
  | UpdateLocation c latitude longitude now =>
      let '(users', resp) := update_location users c latitude longitude now in
      (users', Answer resp)
  | Unregister c =>
      let '(users', resp) := unregister users c in (users', Answer resp)
  | Nearby c lat lng radius now =>
      (users,
       NearbyAnswer
         (Volunteers.nearby sphere_distance calculateDistance parse_origin parse_radius
            users c lat lng radius now))
  | AlertNearby c latitude longitude emergencyType now =>
      (users, Answer (alert_nearby users c latitude longitude emergencyType now))
  end.

Fixpoint run (users : list user) (rs : list request) : list user :=
  match rs with
  | [] => users
  | r :: rs' => run (fst (handle users r)) rs'
  end.

(** The ids of the volunteers an answer lists. *)
Definition listed_ids (a : answer) : list string :=
  match a with
  | Answer (Response _ (Alerted _ _ volunteers)) => map ai_id volunteers
  | NearbyAnswer (Volunteers.Response _ (Volunteers.Nearby _ volunteers)) =>
      map Volunteers.vi_id volunteers
  | _ => []
  end.

(** The request registers the user [id] as a volunteer. *)
Definition registers (id : string) (r : request) : Prop :=
  match r with
  | Register (Verified id') _ _ _ => id' = id
  | _ => False
  end.

(** The request reports a position of the verified user [id] at time [now]:
    POST /register or PUT /location. *)
Definition reports_position (id : string) (latitude longitude : value) (now : Z)
    (r : request) : Prop :=
  r = Register (Verified id) latitude longitude now
  ∨ r = UpdateLocation (Verified id) latitude longitude now.

Definition status_of (a : answer) : nat :=
  match a with
  | Answer r => status r
  | NearbyAnswer r => Volunteers.status r
  end.

(** No user with the id [id] is a volunteer. *)
Definition hidden (id : string) (users : list user) : Prop :=
  ∀ u, u ∈ users → Volunteers.u_id u = id → Volunteers.isVolunteer u = false.

End Routes.
End VolunteerRoutes.

(** ** Reading the Authorization header ([middleware/auth.js], [index.js]) *)

Module Middleware.

(** [s.split(' ')]: the text before the first space and, when there is a
    space, the text after it. *)
Fixpoint before_space (s : string) : string :=
  match s with
  | EmptyString => EmptyString
  | String c rest => if decide (c = " "%char) then EmptyString else String c (before_space rest)
  end.

Fixpoint after_space (s : string) : option string :=
  match s with
  | EmptyString => None
  | String c rest => if decide (c = " "%char) then Some rest else after_space rest
  end.

(** [s.split(' ')[1]] *)
Definition second_word (s : string) : option string :=
  before_space <$> after_space s.

(** [authHeader && authHeader.split(' ')[1]] *)
Definition header_token (authHeader : option string) : option string :=
  match authHeader with
  | None => None
  | Some h => if decide (h = "") then Some "" else second_word h
  end.

(** White space of [trim] among the characters of a header value (the
    code points below 256). *)
Definition is_space (c : ascii) : bool :=
  bool_decide (nat_of_ascii c ∈ [9; 10; 11; 12; 13; 32; 160]).

Fixpoint trim_start (s : string) : string :=
  match s with
  | String c rest => if is_space c then trim_start rest else s
  | EmptyString => EmptyString
  end.

Fixpoint trim_end (s : string) : string :=
  match s with
  | String c rest =>
      match trim_end rest with
      | EmptyString => if is_space c then EmptyString else String c EmptyString
      | rest' => String c rest'
      end
  | EmptyString => EmptyString
  end.

(** [s.trim()] *)
Definition trim (s : string) : string := trim_end (trim_start s).

(** [s.slice(n)] *)
Fixpoint slice (n : nat) (s : string) : string :=
  match n, s with
  | S n', String _ rest => slice n' rest
  | _, _ => s
  end.

(** The errors of [jwt.verify], by name. *)
Inductive jwt_error := TokenExpiredError | JsonWebTokenError | NotBeforeError.

Record response := Response { status : nat; message : string }.

Section Jwt.
(** [jwt_verify secret token] is [jwt.verify(token, secret)]: the decoded
    payload or the error.  [JWT_SECRET] is the environment variable, when it
    is set.  [userId_of decoded] tells whether [decoded.userId] is truthy,
    and then gives it. *)
Context {payload userId : Type}.
Variable jwt_verify : string → string → jwt_error + payload.
Variable JWT_SECRET : option string.
Variable userId_of : payload → option userId.

(** [authenticateToken] of [middleware/auth.js]: [req.user] is the payload. *)
Definition authenticateToken (authHeader : option string) : response + payload :=
  let token := header_token authHeader in
  if JS.falsy token then inl (Response 401 "Access token required")
  else
    match jwt_verify
            (Evidence.or_default JWT_SECRET
               "your-super-secret-jwt-key-change-this-in-production")
            (default "" token) with
    | inl _ => inl (Response 403 "Invalid or expired token")
    | inr user => inr user
    end.

(** [auth] of [index.js]: [req.user] is [decoded.userId]. *)
Definition auth (authHeader : option string) : response + userId :=
  if JS.falsy authHeader
  then inl (Response 401 "No token, authorization denied")
  else
    let h := default "" authHeader in
    if negb (Evidence.starts_with "Bearer " h)
    then inl (Response 401 "Invalid token format. Expected: Bearer <token>")
    else
      let token := trim (slice 7 h) in
      if decide (token = "") then inl (Response 401 "Empty token provided")
      else
        match jwt_verify (Evidence.or_default JWT_SECRET "your-secret-key") token with
        | inl TokenExpiredError => inl (Response 401 "Token has expired")
        | inl JsonWebTokenError => inl (Response 401 "Invalid token signature")
        | inl NotBeforeError => inl (Response 401 "Token verification failed")
        | inr decoded =>
            match userId_of decoded with
            | None => inl (Response 401 "Invalid token structure")
            | Some id => inr id
            end
        end.

End Jwt.

(** A token as the login routes send it: not empty, no white space in it. *)
Definition plain_token (tok : string) : Prop :=
  tok ≠ "" ∧ Forall (λ c, is_space c = false) (list_ascii_of_string tok).

(** A scheme word: no space in it. *)
Definition one_word (w : string) : Prop :=
  Forall (λ c, c ≠ " "%char) (list_ascii_of_string w).

End Middleware.

(** ** Emergency contacts ([index.js], /api/contacts) *)

Module Contacts.

(** [Model.findOneAndDelete(filter)]: the first match goes. *)
Fixpoint remove_first {A} (p : A → bool) (l : list A) : list A :=
  match l with
  | [] => []
  | x :: l' => if p x then l' else x :: remove_first p l'
  end.

Section Handlers.
(** The requests pass through [auth]; the token's user id is a string.  A
    request body is kept as it arrives: [created b] are the name, relation
    and phone that Mongoose stores for [new Contact({ userId, name, relation,
    phone })] built from the body [b], [None] when [save()] refuses them;
    [updated b] is what [findOneAndUpdate] does to these three fields with
    the update [{ name, relation, phone }] of [b], [None] when the update is
    refused.  The time stamps of a document are left out. *)
Context {payload body fields : Type}.
Variable jwt_verify : string → string → Middleware.jwt_error + payload.
Variable JWT_SECRET : option string.
Variable userId_of : payload → option string.
Variable created : body → option fields.
Variable updated : body → option (fields → fields).

Record contact := Contact {
  c_id : nat;
  c_userId : string;
  c_fields : fields }.

Record store := Store {
  contacts : list contact;
  next_id : nat }.

Inductive answer :=
| Message (message : string)
| ContactList (l : list contact)
| ContactDoc (c : contact).

Record response := Response { status : nat; payload_of : answer }.

(** The middleware in front of every route: its answer, or [req.user]. *)
Definition auth (authHeader : option string) : response + string :=
  match Middleware.auth jwt_verify JWT_SECRET userId_of authHeader with
  | inl r => inl (Response (Middleware.status r) (Message (Middleware.message r)))
  | inr user => inr user
  end.

(** The filter [{ _id: req.params.id, userId: req.user }]. *)
Definition owned_by (user : string) (id : nat) (c : contact) : bool :=
  bool_decide (c_id c = id) && bool_decide (c_userId c = user).

(** [Contact.find({ userId })] *)
Definition of_user (user : string) (st : store) : list contact :=
  Evidence.find_all (λ c, bool_decide (c_userId c = user)) (contacts st).

(** GET /api/contacts *)
Definition get_contacts (st : store) (authHeader : option string) : store * response :=
  match auth authHeader with
  | inl r => (st, r)
  | inr user => (st, Response 200 (ContactList (of_user user st)))
  end.

(** POST /api/contacts *)
Definition post_contact (st : store) (authHeader : option string) (b : body)
  : store * response :=
  match auth authHeader with
  | inl r => (st, r)
  | inr user =>
      match created b with
      | None => (st, Response 500 (Message "Server error"))
      | Some f =>
          let contact := Contact (next_id st) user f in
          (Store (contacts st ++ [contact]) (S (next_id st)),
           Response 201 (ContactDoc contact))
      end
  end.

(** PUT /api/contacts/:id *)
Definition put_contact (st : store) (authHeader : option string) (id : nat) (b : body)
  : store * response :=
  match auth authHeader with
  | inl r => (st, r)
  | inr user =>
      match updated b with
      | None => (st, Response 500 (Message "Server error"))
      | Some change =>
          match Evidence.find_one (owned_by user id) (contacts st) with
          | None => (st, Response 404 (Message "Contact not found"))
          | Some found =>
              let contact := Contact (c_id found) (c_userId found) (change (c_fields found)) in
              (Store (Evidence.update_first (owned_by user id) (λ _, contact) (contacts st))
                 (next_id st),
               Response 200 (ContactDoc contact))
          end
      end
  end.

(** DELETE /api/contacts/:id *)
Definition delete_contact (st : store) (authHeader : option string) (id : nat)
  : store * response :=
  match auth authHeader with
  | inl r => (st, r)
  | inr user =>
      match Evidence.find_one (owned_by user id) (contacts st) with
      | None => (st, Response 404 (Message "Contact not found"))
      | Some _ =>
          (Store (remove_first (owned_by user id) (contacts st)) (next_id st),
           Response 200 (Message "Contact deleted"))
      end
  end.

Inductive request :=
| GetContacts (authHeader : option string)
| PostContact (authHeader : option string) (b : body)
| PutContact (authHeader : option string) (id : nat) (b : body)
| DeleteContact (authHeader : option string) (id : nat).

Definition handle (st : store) (r : request) : store * response :=
  match r with
  | GetContacts h => get_contacts st h
  | PostContact h b => post_contact st h b
  | PutContact h id b => put_contact st h id b
  | DeleteContact h id => delete_contact st h id
  end.

Fixpoint run (st : store) (rs : list request) : store :=
  match rs with
  | [] => st
  | r :: rs' => run (fst (handle st r)) rs'
  end.

Definition header_of (r : request) : option string :=
  match r with
  | GetContacts h | PostContact h _ | PutContact h _ _ | DeleteContact h _ => h
  end.

(** The request passes the middleware as the user [user]. *)
Definition sent_by (user : string) (r : request) : Prop :=
  Middleware.auth jwt_verify JWT_SECRET userId_of (header_of r) = inr user.

(** The contacts an answer shows. *)
Definition shown (r : response) : list contact :=
  match payload_of r with
  | Message _ => []
  | ContactList l => l
  | ContactDoc c => [c]
  end.

(** The ids of the collection are pairwise distinct, and below the next id
    drawn. *)
Definition distinct_ids (st : store) : Prop :=
  NoDup (c_id <$> contacts st) ∧ Forall (λ c, (c_id c < next_id st)%nat) (contacts st).

End Handlers.
End Contacts.


(** Further scenarios of the examples. *)
Module Cases.
Import Auth Evidence.

(** The second chunk of two is sent under the index '01'. *)
Definition padded_index : store :=
  run evidenceRoutes_js empty_store [Scenario.put "audioRecording" "01" "2" "BB"].

(** A store with five SOS events, four of alice and one of bob, stored in
    no particular order of time. *)
Definition event_log : store :=
  Store ∅ []
    [ SosEventDoc 1 None Scenario.alice_id (Some 100%Z) "active" (Some "Home") None;
      SosEventDoc 2 None Scenario.bob_id (Some 250%Z) "active" (Some "Station") None;
      SosEventDoc 3 None Scenario.alice_id (Some 400%Z) "resolved" (Some "Park") None;
      SosEventDoc 4 None Scenario.alice_id (Some 200%Z) "active" (Some "Office") None;
      SosEventDoc 5 None Scenario.alice_id (Some 300%Z) "cancelled" (Some "Market") None ]
    ∅ 6 [].

(** An SOS log: three events of alice, one of bob. *)
Definition sos_log : list (@SosHistory.sosDoc Z) :=
  [ SosHistory.SosDoc "65b000000000000000000001" Scenario.alice_id "manual" "resolved"
      "Home" 100 100 None None false (Some 150%Z);
    SosHistory.SosDoc "65b000000000000000000002" Scenario.bob_id "panic" "active"
      "Station" 250 250 None None true None;
    SosHistory.SosDoc "65b000000000000000000003" Scenario.alice_id "shake" "active"
      "Park" 300 300 (Some (SosHistory.Coordinates (Some 12%Z) (Some 77%Z))) None false None;
    SosHistory.SosDoc "65b000000000000000000004" Scenario.alice_id "voice" "cancelled"
      "Office" 200 200 None (Some "audio_recording") false None ].

(** Volunteers on the integer grid of the scenarios: body coordinates are
    integers, a point is (latitude, longitude). *)
Definition grid_point (longitude latitude : @Json.value Z) : option (Z * Z) :=
  match latitude, longitude with
  | Json.JNumber a, Json.JNumber b => Some (a, b)
  | _, _ => None
  end.

Definition grid_km (latitude longitude : @Json.value Z) (p : Z * Z) : Z :=
  match grid_point longitude latitude with
  | Some origin => (Scenario.grid_distance origin p / 1000)%Z
  | None => 0%Z
  end.

Definition grid_handle :=
  VolunteerRoutes.handle Scenario.grid_distance Scenario.grid_distance
    Scenario.grid_origin Scenario.grid_radius (Z.eqb 0) grid_point grid_point grid_km.

Definition grid_run :=
  VolunteerRoutes.run Scenario.grid_distance Scenario.grid_distance
    Scenario.grid_origin Scenario.grid_radius (Z.eqb 0) grid_point grid_point grid_km.

(** The volunteer seen an hour ago, and a user who is not a volunteer. *)
Definition asha : Auth.credential := Auth.Verified "v1".
Definition newcomer : @Volunteers.user (Z * Z) :=
  Volunteers.User "v3" "Meera" "333" false None None.

End Cases.

(** A contact book for the examples: tokens are verified by a table. *)
Module Book.

Definition verify (secret token : string) : Middleware.jwt_error + string :=
  if decide (secret = "s3cret") then
    if decide (token = "alice.jwt") then inr Scenario.alice_id
    else if decide (token = "bob.jwt") then inr Scenario.bob_id
    else inl Middleware.JsonWebTokenError
  else inl Middleware.JsonWebTokenError.

Definition userId_of (p : string) : option string :=
  if decide (p = "") then None else Some p.

(** Name, relation and phone: a body without one of them is refused by
    [save()]; an update sets the fields it carries. *)
Definition fields : Type := string * string * string.
Definition body : Type := option string * option string * option string.

Definition created (b : body) : option fields :=
  match b with
  | (Some name, Some relation, Some phone) => Some (name, relation, phone)
  | _ => None
  end.

Definition updated (b : body) : option (fields → fields) :=
  let '(name, relation, phone) := b in
  Some (λ f, (default f.1.1 name, default f.1.2 relation, default f.2 phone)).

Definition handle := Contacts.handle verify (Some "s3cret") userId_of created updated.
Definition run := Contacts.run verify (Some "s3cret") userId_of created updated.

Definition alice_header : option string := Some "Bearer alice.jwt".
Definition bob_header : option string := Some "Bearer bob.jwt".

Definition book : @Contacts.store fields :=
  Contacts.Store
    [ Contacts.Contact 0 Scenario.alice_id ("Ravi", "brother", "111");
      Contacts.Contact 1 Scenario.bob_id ("Sita", "mother", "222");
      Contacts.Contact 2 Scenario.alice_id ("Asha", "friend", "333") ] 3.

End Book.

(** * Properties *)

(** ** Test vectors of the primitives *)

Example sha256_empty :
  SHA256.sha256_hex "" = "e3b0c44298fc1c149afbf4c8996fb92427ae41e4649b934ca495991b7852b855".
Proof. vm_compute. reflexivity. Qed.

Example sha256_abc :
  SHA256.sha256_hex "abc" = "ba7816bf8f01cfea414140de5dae2223b00361a396177a9cb410ff61f20015ad".
Proof. vm_compute. reflexivity. Qed.

Example sha256_two_blocks :
  SHA256.sha256_hex "abcdbcdecdefdefgefghfghighijhijkijkljklmklmnlmnomnopnopq"
  = "248d6a61d20638b8e5c026930c3e6039a33ce45964ff2167f6ecedd419db06c1".
Proof. vm_compute. reflexivity. Qed.

Example sha256_constants :
  firstn 2 SHA256.K = [0x428a2f98; 0x71374491]%Z
  ∧ last SHA256.K = Some 0xc67178f2%Z
  ∧ firstn 2 SHA256.H0 = [0x6a09e667; 0xbb67ae85]%Z
  ∧ length SHA256.K = 64.
Proof. vm_compute. repeat split; reflexivity. Qed.

Example parseInt_examples :
  JS.parseInt (Some "12") = Some 12%Z /\ JS.parseInt (Some " -7px") = Some (-7)%Z
  /\ JS.parseInt (Some "0x1f") = Some 31%Z /\ JS.parseInt (Some "abc") = None
  /\ JS.parseInt (Some "") = None /\ JS.parseInt None = None.
Proof. vm_compute. repeat split; reflexivity. Qed.

(** ** JavaScript objects *)

Section ObjectFacts.
Context {V : Type}.
Implicit Types (o : JS.object V) (k : string) (v : V).

Lemma get_set_eq o k v : JS.get (JS.set o k v) k = Some v.
Proof.
  induction o as [|[k' v'] o IH]; simpl.
  - by rewrite decide_True.
  - destruct (decide (k' = k)) as [->|Hne]; simpl.
    + by rewrite decide_True.
    + by rewrite decide_False.
Qed.

Lemma get_set_ne o k k' v : k ≠ k' → JS.get (JS.set o k v) k' = JS.get o k'.
Proof.
  intros Hne. induction o as [|[k0 v0] o IH]; simpl.
  - by rewrite decide_False.
  - destruct (decide (k0 = k)) as [->|Hk]; simpl.
    + by rewrite !decide_False.
    + destruct (decide (k0 = k')); [done | exact IH].
Qed.

Lemma set_set_eq o k v v' : JS.set (JS.set o k v) k v' = JS.set o k v'.
Proof.
  induction o as [|[k0 v0] o IH]; simpl.
  - by rewrite decide_True.
  - destruct (decide (k0 = k)) as [->|Hk]; simpl.
    + by rewrite decide_True.
    + rewrite decide_False by done. by rewrite IH.
Qed.

Lemma get_Some_elem o k v : JS.get o k = Some v → (k, v) ∈ o.
Proof.
  induction o as [|[k0 v0] o IH]; simpl; [done|].
  destruct (decide (k0 = k)) as [->|Hk].
  - intros [= ->]. left.
  - intros H. right. by apply IH.
Qed.

End ObjectFacts.

(** ** The chunk store: upload-chunk *)

Module ChunkStoreFacts.
Import Auth Evidence ChunkStore.

Lemma upload_chunk_stores st id uploadId recordingId fileType chunkIndex total chunk :
  uploadId ≠ "" → recordingId ≠ "" → fileType ≠ "" →
  upload_chunk st (Verified id)
    (ChunkBody (Some uploadId) (Some recordingId) (Some fileType)
       (Some chunkIndex) total (Some chunk))
  = stored st uploadId recordingId fileType chunkIndex total chunk.
Proof.
  intros Hu Hr Hf.
  unfold upload_chunk, stored, progress_before, declared_total, tracked. simpl.
  rewrite !decide_False by done. simpl.
  destruct (uploads st !! uploadId) as [dir|] eqn:Hdir; simpl.
  - destruct (progress dir) as [p0|] eqn:Hp; simpl.
    + destruct (JS.get p0 fileType) as [fp|] eqn:Hget; simpl.
      * by rewrite Hget.
      * rewrite get_set_eq. simpl. by rewrite set_set_eq.
    + rewrite decide_True by done. simpl. by rewrite decide_True.
  - rewrite decide_True by done. simpl. by rewrite decide_True.
Qed.



(** A request leaves the store as it is or stores its chunk. *)
Lemma upload_chunk_cases st c b :
  fst (upload_chunk st c b) = st
  ∨ ∃ uploadId recordingId fileType chunkIndex chunk,
      b = ChunkBody (Some uploadId) (Some recordingId) (Some fileType)
            (Some chunkIndex) (cb_totalChunks b) (Some chunk)
      ∧ upload_chunk st c b
        = stored st uploadId recordingId fileType chunkIndex (cb_totalChunks b) chunk.
Proof.
  destruct c as [| |id]; [by left..|].
  destruct b as [[uploadId|] [recordingId|] [fileType|] [chunkIndex|] total [chunk|]];
    try (left; unfold upload_chunk, JS.falsy; simpl; repeat case_decide; reflexivity).
  destruct (decide (uploadId = "")) as [->|Hu]; [by left|].
  destruct (decide (recordingId = "")) as [->|Hr];
    [left; unfold upload_chunk, JS.falsy; simpl; repeat case_decide; reflexivity|].
  destruct (decide (fileType = "")) as [->|Hf];
    [left; unfold upload_chunk, JS.falsy; simpl; repeat case_decide; reflexivity|].
  right. exists uploadId, recordingId, fileType, chunkIndex, chunk.
  split; [done|]. by apply upload_chunk_stores.
Qed.

End ChunkStoreFacts.



(** ** Decimal numerals: [parseInt] reads back what a template literal prints *)

Module NumeralFacts.

Lemma digit_value_char d :
  (d < 10)%N → JS.digit_value 10 (pretty_N_char d) = Some (Z.of_N d).
Proof.
  intros Hd.
  assert (d = 0 ∨ d = 1 ∨ d = 2 ∨ d = 3 ∨ d = 4 ∨ d = 5 ∨ d = 6 ∨ d = 7
          ∨ d = 8 ∨ d = 9)%N as Hcases by lia.
  repeat destruct Hcases as [->|Hcases]; try subst d; reflexivity.
Qed.

(** Reading the digits of [x] after an accumulator shifts the accumulator
    and adds [x]. *)
Lemma digits_prefix_pretty_go x :
  (0 < x)%N → ∀ s acc, ∃ m,
    JS.digits_prefix 10 (pretty_N_go x s) acc
    = JS.digits_prefix 10 s (Some (default 0 acc * m + Z.of_N x))%Z.
Proof.
  induction (N.lt_wf_0 x) as [x _ IH]. intros Hx s acc.
  rewrite pretty_N_go_step by done.
  destruct (N.eq_0_gt_0_cases (x `div` 10)) as [Hz|Hpos].
  - rewrite Hz, pretty_N_go_0. simpl.
    rewrite digit_value_char by (by apply N.mod_lt).
    exists 10%Z. f_equal. f_equal.
    assert (x `mod` 10 = x)%N as ->.
    { apply N.mod_small. apply N.div_small_iff in Hz; [done | lia]. }
    destruct acc; simpl; lia.
  - destruct (IH (x `div` 10)%N) with (s := String (pretty_N_char (x `mod` 10)) s)
      (acc := acc) as [m Hm].
    { by apply N.div_lt. }
    { done. }
    rewrite Hm. simpl. rewrite digit_value_char by (by apply N.mod_lt).
    exists (m * 10)%Z. f_equal. f_equal.
    pose proof (N.div_mod x 10) as Hdm.
    assert (Z.of_N x = 10 * Z.of_N (x `div` 10) + Z.of_N (x `mod` 10))%Z as ->.
    { rewrite (Hdm ltac:(lia)) at 1. by rewrite N2Z.inj_add, N2Z.inj_mul. }
    lia.
Qed.

(** A positive number is printed with a leading digit from 1 to 9. *)
Lemma pretty_go_leading x :
  (0 < x)%N → ∀ s, ∃ d rest,
    (0 < d < 10)%N ∧ pretty_N_go x s = String (pretty_N_char d) rest.
Proof.
  induction (N.lt_wf_0 x) as [x _ IH]. intros Hx s.
  rewrite pretty_N_go_step by done.
  destruct (N.eq_0_gt_0_cases (x `div` 10)) as [Hz|Hpos].
  - rewrite Hz, pretty_N_go_0. exists (x `mod` 10)%N, s. split; [|done].
    apply N.div_small_iff in Hz; [|lia]. rewrite N.mod_small by done. lia.
  - apply IH; [by apply N.div_lt | done].
Qed.

Lemma parseInt_leading d rest :
  (0 < d < 10)%N →
  JS.parseInt_string (String (pretty_N_char d) rest)
  = JS.digits_prefix 10 (String (pretty_N_char d) rest) None.
Proof.
  intros Hd.
  assert (d = 1 ∨ d = 2 ∨ d = 3 ∨ d = 4 ∨ d = 5 ∨ d = 6 ∨ d = 7 ∨ d = 8 ∨ d = 9)%N
    as Hcases by lia.
  repeat destruct Hcases as [->|Hcases]; try subst d;
    unfold JS.parseInt_string; simpl;
    (destruct (JS.digits_prefix 10 rest _) as [z|]; simpl; [f_equal; lia | done]).
Qed.

Lemma parseInt_pretty_N (x : N) : JS.parseInt (Some (pretty x)) = Some (Z.of_N x).
Proof.
  unfold pretty, pretty_N. simpl. case_decide as Hx; [by subst|].
  assert (0 < x)%N as Hpos by lia.
  destruct (pretty_go_leading x Hpos "") as (d & rest & Hd & Heq).
  rewrite Heq, parseInt_leading by done. rewrite <- Heq.
  destruct (digits_prefix_pretty_go x Hpos "" None) as [m ->]. simpl. done.
Qed.

Lemma parseInt_pretty (n : nat) : JS.parseInt (Some (pretty n)) = Some (Z.of_nat n).
Proof.
  unfold pretty, pretty_nat. rewrite parseInt_pretty_N. by rewrite nat_N_Z.
Qed.

End NumeralFacts.

(** ** Plain names *)

Module NameFacts.
Import Names.



End NameFacts.




(** ** The chunk store: finalize-upload *)

Module FinalizeFacts.
Import Auth Evidence ChunkStore.

Lemma first_incomplete_Some (p : JS.object fileProgress) :
  (∃ fileType fp, (fileType, fp) ∈ p ∧ uploadedChunks fp ≠ totalChunks fp) →
  ∃ fileType fp,
    first_incomplete p = Some (fileType, fp)
    ∧ (fileType, fp) ∈ p ∧ uploadedChunks fp ≠ totalChunks fp.
Proof.
  induction p as [|[ft fp] p IH]; intros (ft' & fp' & Hin & Hne).
  - by apply elem_of_nil in Hin.
  - simpl. destruct (decide (uploadedChunks fp = totalChunks fp)) as [Heq|Hneq].
    + apply elem_of_cons in Hin as [[= -> ->]|Hin]; [done|].
      destruct IH as (ft1 & fp1 & H1 & H2 & H3); [by eauto|].
      exists ft1, fp1. split; [done|]. split; [by right | done].
    + exists ft, fp. split; [done|]. split; [left | done].
Qed.

Lemma first_incomplete_None (p : JS.object fileProgress) :
  first_incomplete p = None ↔
  ∀ fileType fp, (fileType, fp) ∈ p → uploadedChunks fp = totalChunks fp.
Proof.
  induction p as [|[ft fp] p IH]; simpl.
  - split; [|done]. intros _ ?? Hin. by apply elem_of_nil in Hin.
  - destruct (decide (uploadedChunks fp = totalChunks fp)) as [Heq|Hneq].
    + rewrite IH. split.
      * intros H ft' fp' [[= -> ->]|Hin]%elem_of_cons; [done | by eapply H].
      * intros H ft' fp' Hin. eapply H. by right.
    + split; [done|]. intros H. destruct Hneq. eapply H. left.
Qed.

Lemma finalize_upload_incomplete st id uploadId recordingId meta now iv dir p fileType fp :
  uploadId ≠ "" → recordingId ≠ "" →
  uploads st !! uploadId = Some dir → progress dir = Some p →
  first_incomplete p = Some (fileType, fp) →
  finalize_upload st (Verified id) (finalize_request uploadId recordingId meta) now iv
  = (st, Response 400 (IncompleteUpload fileType (uploadedChunks fp) (totalChunks fp))).
Proof.
  intros Hu Hr Hdir Hp Hfirst. unfold finalize_upload, finalize_request, JS.falsy. simpl.
  rewrite !decide_False by done. simpl. by rewrite Hdir, Hp, Hfirst.
Qed.

End FinalizeFacts.

(** C1 (as stated, refuted). With chunks 0 and 1 of 3 never received,
    finalize does not refuse: the check passes, the answer is not the 400
    incomplete-upload error, and the session is not left as it was (the
    assembly has written an empty final file).  And when finalize does refuse
    (only chunk 0 of 3 received), the error carries the stream and two
    counters, not the missing indexes. *)
Lemma finalize_passes_with_missing_chunks :
  let st := Scenario.only_last in
  let result := Evidence.handle Evidence.evidenceRoutes_js st Scenario.finalize in
  Scenario.file_of st (Evidence.chunk_name "audioRecording" "0") = None
  ∧ Scenario.file_of st (Evidence.chunk_name "audioRecording" "1") = None
  ∧ (Evidence.totalChunks <$> ChunkStore.tracked st "u1" "audioRecording") = Some (Some 3%Z)
  ∧ Evidence.status (snd result) ≠ 400
  ∧ Scenario.file_of st (Evidence.final_name "audioRecording") = None
  ∧ Scenario.file_of (fst result) (Evidence.final_name "audioRecording") = Some ""
  ∧ snd (Evidence.handle Evidence.evidenceRoutes_js Scenario.only_first Scenario.finalize)
    = Evidence.Response 400
        (Evidence.IncompleteUpload "audioRecording" (Some 1%Z) (Some 3%Z)).
Proof. vm_compute. repeat split; try reflexivity. discriminate. Qed.

(** C1 (amended). If finalize is called while the progress counter of some
    stream of the session differs from the stream's declared total, finalize
    fails with status 400 and an incomplete-upload error that names such a
    stream with its two counters; the store is unchanged: no evidence record
    is created and the session stays as it was. *)
Theorem finalize_rejects_incomplete_progress
    (st : Evidence.store) (id uploadId recordingId : string)
    (meta : Evidence.metadata) (now : Z) (iv : string)
    (dir : Evidence.session) (p : JS.object Evidence.fileProgress) :
  uploadId ≠ "" → recordingId ≠ "" →
  Evidence.uploads st !! uploadId = Some dir →
  Evidence.progress dir = Some p →
  (∃ fileType fp,
     (fileType, fp) ∈ p ∧ Evidence.uploadedChunks fp ≠ Evidence.totalChunks fp) →
  ∃ fileType fp,
    (fileType, fp) ∈ p
    ∧ Evidence.uploadedChunks fp ≠ Evidence.totalChunks fp
    ∧ Evidence.handle Evidence.evidenceRoutes_js st
        (Evidence.FinalizeUpload (Auth.Verified id)
           (ChunkStore.finalize_request uploadId recordingId meta) now iv)
      = (st, Evidence.Response 400
               (Evidence.IncompleteUpload fileType (Evidence.uploadedChunks fp)
                  (Evidence.totalChunks fp))).
Proof.
  intros Hu Hr Hdir Hp Hex.
  destruct (FinalizeFacts.first_incomplete_Some p Hex) as (ft & fp & Hfirst & Hin & Hne).
  exists ft, fp. split; [done|]. split; [done|]. simpl.
  by eapply FinalizeFacts.finalize_upload_incomplete.
Qed.

Lemma finalize_rejects_incomplete_progress_witness :
  ∃ fileType fp,
    (fileType, fp) ∈ [("audioRecording", Evidence.FileProgress (Some 1%Z) (Some 3%Z))]
    ∧ Evidence.uploadedChunks fp ≠ Evidence.totalChunks fp
    ∧ Evidence.handle Evidence.evidenceRoutes_js Scenario.only_first
        (Evidence.FinalizeUpload Scenario.alice
           (ChunkStore.finalize_request "u1" "rec1"
              Scenario.meta)
           5000 "iv")
      = (Scenario.only_first,
         Evidence.Response 400
           (Evidence.IncompleteUpload fileType (Evidence.uploadedChunks fp)
              (Evidence.totalChunks fp))).
Proof.
  apply (finalize_rejects_incomplete_progress Scenario.only_first Scenario.alice_id "u1" "rec1"
           Scenario.meta 5000 "iv"
           (Evidence.Session
              {[Evidence.chunk_name "audioRecording" "0" := "AA"]}
              (Some [("audioRecording", Evidence.FileProgress (Some 1%Z) (Some 3%Z))]))
           [("audioRecording", Evidence.FileProgress (Some 1%Z) (Some 3%Z))]).
  - discriminate.
  - discriminate.
  - vm_compute. reflexivity.
  - reflexivity.
  - exists "audioRecording", (Evidence.FileProgress (Some 1%Z) (Some 3%Z)).
    split; [left | discriminate].
Defined.

(** C2 (the code at the failing input). Two chunks covering indexes 0 and 1:
    received in index order, finalize passes the check and assembles the
    concatenation; received in the other order, both chunks are on disk and
    finalize answers 400 'Received 1/2 chunks', leaving the store as it is. *)
Theorem finalize_depends_on_arrival_order :
  let ordered := Evidence.handle Evidence.evidenceRoutes_js Scenario.in_order Scenario.finalize in
  let swapped := Evidence.handle Evidence.evidenceRoutes_js Scenario.reversed Scenario.finalize in
  Evidence.status (snd ordered) ≠ 400
  ∧ Scenario.file_of (fst ordered) (Evidence.final_name "audioRecording") = Some "AABB"
  ∧ Scenario.file_of Scenario.reversed (Evidence.chunk_name "audioRecording" "0") = Some "AA"
  ∧ Scenario.file_of Scenario.reversed (Evidence.chunk_name "audioRecording" "1") = Some "BB"
  ∧ swapped
    = (Scenario.reversed,
       Evidence.Response 400
         (Evidence.IncompleteUpload "audioRecording" (Some 1%Z) (Some 2%Z))).
Proof. vm_compute. repeat split; try reflexivity. discriminate. Qed.

(** ** Chunks received in index order *)

Module InOrderFacts.
Import Auth Evidence ChunkStore.

Lemma append_nil_r (s : string) : s +:+ "" = s.
Proof.
  induction s as [|a s IH]; [done|].
  change (String a (s +:+ "") = String a s). by rewrite IH.
Qed.

Lemma append_assoc (s1 s2 s3 : string) : (s1 +:+ s2) +:+ s3 = s1 +:+ (s2 +:+ s3).
Proof.
  induction s1 as [|a s1 IH]; [done|].
  change (String a ((s1 +:+ s2) +:+ s3) = String a (s1 +:+ (s2 +:+ s3))).
  by rewrite IH.
Qed.

Lemma chunk_name_inj fileType (i j : nat) :
  chunk_name fileType (pretty i) = chunk_name fileType (pretty j) → i = j.
Proof.
  unfold chunk_name. intros H.
  apply String.app_inj in H. apply String.app_inj in H. by apply (inj pretty) in H.
Qed.

(** The assembly loop on a directory that holds chunks [i], [i+1], ... of the
    stream: it writes them in that order, deletes them and reports success. *)
Lemma assemble_chunks_complete fileType (chunks : list string) :
  ∀ (fs : gmap string string) (i : nat) (written : string),
    (∀ j c, chunks !! j = Some c →
            fs !! chunk_name fileType (pretty (i + j)) = Some c) →
    ∃ fs', assemble_chunks fileType fs i (length chunks) written
           = (fs', written +:+ join chunks, true).
Proof.
  induction chunks as [|c chunks IH]; intros fs i written Hall; simpl.
  - exists fs. unfold join. simpl. by rewrite append_nil_r.
  - pose proof (Hall 0 c eq_refl) as H0. rewrite Nat.add_0_r in H0. rewrite H0.
    destruct (IH (delete (chunk_name fileType (pretty i)) fs) (S i) (written +:+ c))
      as [fs' Hfs'].
    { intros j c' Hj. rewrite lookup_delete_ne.
      - replace (S i + j) with (i + S j) by lia. by apply Hall.
      - intros Heq%chunk_name_inj. lia. }
    exists fs'. rewrite Hfs'. f_equal. f_equal.
    unfold join. simpl. by rewrite append_assoc.
Qed.

(** The assembly loop stops at the first chunk that is not in the directory. *)
Lemma assemble_chunks_missing fileType (fs : gmap string string) (n : nat) written :
  (0 < n)%nat → fs !! chunk_name fileType (pretty 0) = None →
  assemble_chunks fileType fs 0 n written = (fs, written, false).
Proof. intros Hn Hnone. destruct n; [lia|]. simpl. by rewrite Hnone. Qed.


Section OneStream.
Variables (scope : module_scope) (id uploadId recordingId fileType : string).
Variable total : nat.
Hypothesis uploadId_given : uploadId ≠ "".
Hypothesis recordingId_given : recordingId ≠ "".
Hypothesis fileType_given : fileType ≠ "".

Local Abbreviation put := (put_chunk id uploadId recordingId fileType total).

(** One more chunk, sent with the next index. *)
Lemma received_next st arrived c :
  received st uploadId fileType total arrived →
  received (step scope st (put (length arrived) c)) uploadId fileType total
    (arrived ++ [c]).
Proof.
  intros Hrec. unfold put_chunk. simpl.
  rewrite ChunkStoreFacts.upload_chunk_stores by done.
  unfold stored, progress_before, declared_total, tracked.
  rewrite !NumeralFacts.parseInt_pretty.
  destruct arrived as [|a arrived]; simpl in Hrec.
  - rewrite Hrec. simpl. eexists. rewrite lookup_insert_eq. split; [reflexivity|].
    intros [|j] c' Hj; simpl in Hj; [|by rewrite lookup_nil in Hj].
    injection Hj as <-. apply lookup_insert_eq.
  - destruct Hrec as (fs & Hdir & Hfiles). rewrite Hdir. simpl.
    rewrite !decide_True by done. simpl.
    eexists. rewrite lookup_insert_eq. split.
    + do 4 f_equal. rewrite length_app. simpl. do 3 f_equal. lia.
    + intros j c' Hj.
      destruct (decide (j = S (length arrived))) as [->|Hne].
      * change (a :: arrived ++ [c]) with ((a :: arrived) ++ [c]) in Hj.
        rewrite lookup_app_r in Hj by (simpl; lia).
        replace (S (length arrived) - length (a :: arrived)) with 0 in Hj
          by (simpl; lia).
        injection Hj as <-. apply lookup_insert_eq.
      * rewrite lookup_insert_ne by (intros Heq%chunk_name_inj; lia).
        apply Hfiles.
        change (a :: arrived ++ [c]) with ((a :: arrived) ++ [c]) in Hj.
        apply lookup_app_Some in Hj as [Hj|[Hlen Hj]]; [done|].
        apply lookup_lt_Some in Hj. simpl in *. lia.
Qed.

(** All the remaining chunks, sent in index order. *)
Lemma received_rest rest :
  ∀ st arrived,
    received st uploadId fileType total arrived →
    received (run scope st (imap (λ i, put (length arrived + i)) rest))
      uploadId fileType total (arrived ++ rest).
Proof.
  induction rest as [|c rest IH]; intros st arrived Hrec.
  - simpl. by rewrite app_nil_r.
  - rewrite imap_cons. simpl. rewrite Nat.add_0_r.
    apply received_next with (c := c) in Hrec.
    apply IH in Hrec.
    rewrite <- app_assoc in Hrec. simpl in Hrec.
    erewrite imap_ext; [exact Hrec|].
    intros i x _. simpl. rewrite length_app. simpl. f_equal. lia.
Qed.

End OneStream.

Lemma received_nonempty st uploadId fileType total arrived :
  arrived ≠ [] → received st uploadId fileType total arrived →
  ∃ fs, uploads st !! uploadId
        = Some (Session fs
                  (Some [(fileType,
                          FileProgress (Some (Z.of_nat (length arrived)))
                            (Some (Z.of_nat total)))]))
        ∧ ∀ j c, arrived !! j = Some c →
                 fs !! chunk_name fileType (pretty j) = Some c.
Proof. by destruct arrived. Qed.

(** A client that sends the chunks of one stream in index order to a new
    upload id can finalize: the answer is 200, the assembled file is the
    concatenation of the chunks in index order, and the stream gets its URL. *)
Lemma in_order_upload_finalizes (scope : module_scope) (st : store)
    (id uploadId recordingId fileType : string) (chunks : list string)
    (meta : metadata) (now : Z) (iv : string) :
  uploadId ≠ "" → recordingId ≠ "" → fileType ≠ "" → chunks ≠ [] →
  uploads st !! uploadId = None →
  let st1 := run scope st (in_order_puts id uploadId recordingId fileType chunks) in
  let result :=
    handle scope st1
      (FinalizeUpload (Verified id) (finalize_request uploadId recordingId meta) now iv) in
  snd result
  = Response 200
      (Finalized (next_id st1) recordingId
         [(fileType, file_url recordingId fileType)] uploadId)
  ∧ (dir ← uploads (fst result) !! uploadId; files dir !! final_name fileType)
    = Some (join chunks).
Proof.
  intros Hu Hr Hf Hne Hfresh. cbv zeta.
  pose proof (received_rest scope id uploadId recordingId fileType (length chunks)
                Hu Hr Hf chunks st [] Hfresh) as Hrec.
  change (received
            (run scope st (in_order_puts id uploadId recordingId fileType chunks))
            uploadId fileType (length chunks) chunks) in Hrec.
  apply received_nonempty in Hrec as (fs & Hdir & Hfiles); [|done].
  set (st1 := run scope st (in_order_puts id uploadId recordingId fileType chunks)) in *.
  destruct (assemble_chunks_complete fileType chunks fs 0 "") as [fs' Hasm].
  { intros j c Hj. simpl. by apply Hfiles. }
  simpl. unfold finalize_upload, finalize_request, JS.falsy. simpl.
  rewrite !decide_False by done. simpl. rewrite Hdir. simpl.
  rewrite decide_True by done. simpl.
  rewrite Nat2Z.id, Hasm. simpl.
  destruct (update_first_event _ _ _) as [[l eid]|]; simpl;
    (split; [reflexivity|]); rewrite lookup_insert_eq; simpl;
    apply lookup_insert_eq.
Qed.

(** Whatever is on disk, finalize refuses right after a chunk whose index is
    not the stream's declared total minus one: the counter is the index of
    the chunk received last, plus one. *)
Lemma finalize_refused_after_other_chunk (scope : module_scope) (st : store)
    (id uploadId recordingId fileType chunkIndex : string) (total : option string)
    (chunk : string) (meta : metadata) (now : Z) (iv : string) :
  uploadId ≠ "" → recordingId ≠ "" → fileType ≠ "" →
  JS.succ (JS.parseInt (Some chunkIndex)) ≠ declared_total st uploadId fileType total →
  let st1 :=
    fst (upload_chunk st (Verified id)
           (ChunkBody (Some uploadId) (Some recordingId) (Some fileType)
              (Some chunkIndex) total (Some chunk))) in
  ∃ stream fp,
    handle scope st1
      (FinalizeUpload (Verified id) (finalize_request uploadId recordingId meta) now iv)
    = (st1, Response 400 (IncompleteUpload stream (uploadedChunks fp) (totalChunks fp))).
Proof.
  intros Hu Hr Hf Hlast. cbv zeta.
  rewrite ChunkStoreFacts.upload_chunk_stores by done. unfold stored. simpl.
  set (fp := FileProgress (JS.succ (JS.parseInt (Some chunkIndex)))
               (declared_total st uploadId fileType total)).
  set (p := JS.set (progress_before st uploadId) fileType fp).
  destruct (FinalizeFacts.first_incomplete_Some p) as (stream & fp' & Hfirst & _ & _).
  { exists fileType, fp. split; [|done].
    apply get_Some_elem. apply get_set_eq. }
  exists stream, fp'.
  eapply FinalizeFacts.finalize_upload_incomplete; [done | done | | | exact Hfirst].
  - simpl. apply lookup_insert_eq.
  - reflexivity.
Qed.

End InOrderFacts.

(** ** The evidence ledger *)

Module LedgerFacts.
Import Auth Evidence Ledger.

Lemma push_shares_nil e : push_shares [] e = e.
Proof. destruct e. unfold push_shares. simpl. by rewrite app_nil_r. Qed.

Lemma push_shares_app records1 records2 e :
  push_shares records2 (push_shares records1 e) = push_shares (records1 ++ records2) e.
Proof. unfold push_shares. simpl. by rewrite app_assoc. Qed.

Lemma grows_refl l : grows l l.
Proof.
  induction l as [|e l IH]; [constructor|].
  rewrite <- (push_shares_nil e) at 2. by constructor.
Qed.

Lemma grows_trans l1 l2 l3 : grows l1 l2 → grows l2 l3 → grows l1 l3.
Proof.
  intros H12. revert l3. induction H12 as [|e records l l' H12 IH]; intros l3 H23.
  - constructor.
  - inversion H23 as [|e' records' l0 l3' H23' Heq1 Heq2]; subst.
    rewrite push_shares_app. constructor. by apply IH.
Qed.

Lemma grows_app l extra : grows l (l ++ extra).
Proof.
  induction l as [|e l IH]; [constructor|]. simpl.
  rewrite <- (push_shares_nil e) at 2. by constructor.
Qed.

Lemma grows_update_first p records l :
  grows l (update_first p (push_shares records) l).
Proof.
  induction l as [|e l IH]; simpl; [constructor|].
  destruct (p e).
  - constructor. apply grows_refl.
  - rewrite <- (push_shares_nil e) at 2. by constructor.
Qed.

(** What [grows] says, position by position. *)
Lemma grows_lookup l l' i e :
  grows l l' → l !! i = Some e → ∃ records, l' !! i = Some (push_shares records e).
Proof.
  intros Hg. revert i. induction Hg as [|e0 records l l' Hg IH]; intros i Hi.
  - by rewrite lookup_nil in Hi.
  - destruct i as [|i]; simpl in *.
    + injection Hi as ->. by exists records.
    + by apply IH.
Qed.

Lemma grows_length l l' : grows l l' → (length l ≤ length l')%nat.
Proof. induction 1; simpl; lia. Qed.

Lemma update_first_length {A} (p : A → bool) f (l : list A) :
  length (update_first p f l) = length l.
Proof. induction l as [|x l IH]; simpl; [done|]. destruct (p x); simpl; congruence. Qed.

Lemma process_files_spec fs :
  process_files fs
  = (map (λ f, EvidenceFile (getEvidenceType (u_mimetype f)) (u_originalname f)
                 (u_content f) (secure_url (u_random f))
                 (String.length (u_content f)) (u_mimetype f)) fs,
     map (λ f, SHA256.sha256_hex (u_content f)) fs).
Proof.
  induction fs as [|f fs IH]; simpl; [done|]. by rewrite IH.
Qed.

(** The three things a request can do to the evidence collection. *)
Lemma handle_evidences scope st r :
  evidences (fst (handle scope st r)) = evidences st
  ∨ (∃ doc, evidences (fst (handle scope st r)) = evidences st ++ [doc]
            ∧ created_by r doc)
  ∨ (scope = SOSEvidence_bound
     ∧ ∃ p records,
         evidences (fst (handle scope st r))
         = update_first p (push_shares records) (evidences st)).
Proof.
  destruct r as [c b|c b now iv|c rid now|c lim sk|c eid|c eid|c b now|c lim pg
                |c sid|c eid sw now|c tok]; simpl.
  - (* upload-chunk *)
    left. unfold upload_chunk.
    destruct (authenticateToken c); [done|].
    destruct (_ || _); [done|]. by repeat case_match.
  - (* finalize-upload *)
    unfold finalize_upload.
    destruct (authenticateToken c) as [?|userId]; [by left|].
    destruct (fb_uploadId b) as [uploadId|]; [|by left].
    destruct (fb_recordingId b) as [recordingId|]; [|by left].
    destruct (fb_metadata b) as [meta|]; [|by left].
    destruct (_ || _); [by left|].
    destruct (uploads st !! uploadId) as [dir|]; [|by left].
    destruct (progress dir) as [p|]; [|by left].
    destruct (first_incomplete p) as [[ft fp]|]; [by left|].
    destruct (assemble_all recordingId p (files dir) []) as [fs urls].
    right; left. eexists.
    destruct (update_first_event _ _ _) as [[l id]|]; simpl; split; reflexivity.
  - left. unfold get_evidence. by repeat case_match.
  - left. unfold list_events. by repeat case_match.
  - left. unfold get_event. by repeat case_match.
  - left. unfold delete_event. by repeat case_match.
  - (* upload *)
    unfold upload.
    destruct (authenticateToken c) as [?|userId]; [by left|].
    destruct (ub_files b) as [|f fs] eqn:Hfiles; [by left|].
    rewrite process_files_spec.
    destruct scope; [by left|].
    right; left. eexists. simpl. split; [reflexivity|]. split; [reflexivity|].
    simpl. f_equal. rewrite map_map. reflexivity.
  - left. unfold user_all. by repeat case_match.
  - left. unfold get_by_sos. by repeat case_match.
  - (* share *)
    unfold share.
    destruct (authenticateToken c) as [?|userId]; [by left|].
    destruct scope; [by left|].
    destruct (find_one _ _); [|by left].
    destruct sw as [types|]; [|by left].
    right; right. split; [done|]. by eexists _, _.
  - left. unfold get_file. by repeat case_match.
Qed.

Lemma handle_grows scope st r :
  grows (evidences st) (evidences (fst (handle scope st r))).
Proof.
  destruct (handle_evidences scope st r)
    as [->|[(doc & -> & _)|(_ & p & records & ->)]].
  - apply grows_refl.
  - apply grows_app.
  - apply grows_update_first.
Qed.

(** In [routes/evidenceRoutes.js] stored documents are never written again. *)
Lemma step_unbound_prefix st ev :
  evidences st `prefix_of` evidences (step evidenceRoutes_js st ev).
Proof.
  destruct ev as [r|uploadId]; simpl.
  - destruct (handle_evidences evidenceRoutes_js st r)
      as [->|[(doc & -> & _)|(Hscope & _)]]; [done | by apply prefix_app_r | done].
  - unfold cleanup_timer. by case_decide.
Qed.

Lemma run_unbound_prefix st evs :
  evidences st `prefix_of` evidences (run evidenceRoutes_js st evs).
Proof.
  revert st. induction evs as [|ev evs IH]; intros st; simpl; [done|].
  etrans; [apply step_unbound_prefix | apply IH].
Qed.

Lemma step_grows scope st ev : grows (evidences st) (evidences (step scope st ev)).
Proof.
  destruct ev as [r|uploadId]; simpl.
  - apply handle_grows.
  - unfold cleanup_timer. case_decide; apply grows_refl.
Qed.

Lemma run_grows scope st evs : grows (evidences st) (evidences (run scope st evs)).
Proof.
  revert st. induction evs as [|ev evs IH]; intros st; simpl.
  - apply grows_refl.
  - eapply grows_trans; [apply step_grows | apply IH].
Qed.

Lemma update_first_event_ids recordingId f l l' id :
  (∀ v, v_id (f v) = v_id v) →
  update_first_event recordingId f l = Some (l', id) → map v_id l' = map v_id l.
Proof.
  intros Hf. revert l' id. induction l as [|v l IH]; intros l' id; simpl; [done|].
  case_decide.
  - intros [= <- <-]. simpl. by rewrite Hf.
  - destruct (update_first_event recordingId f l) as [[l0 id0]|]; [|done].
    intros [= <- <-]. simpl. f_equal. by eapply IH.
Qed.

Lemma handle_events_kept scope st r :
  events_kept (sosEvents st) (sosEvents (fst (handle scope st r))).
Proof.
  unfold events_kept.
  destruct r as [c b|c b now iv|c rid now|c lim sk|c eid|c eid|c b now|c lim pg
                |c sid|c eid sw now|c tok]; simpl.
  - unfold upload_chunk. destruct (authenticateToken c); [done|].
    destruct (_ || _); [done|]. by repeat case_match.
  - unfold finalize_upload.
    destruct (authenticateToken c) as [?|userId]; [done|].
    destruct (fb_uploadId b) as [uploadId|]; [|done].
    destruct (fb_recordingId b) as [recordingId|]; [|done].
    destruct (fb_metadata b) as [meta|]; [|done].
    destruct (_ || _); [done|].
    destruct (uploads st !! uploadId) as [dir|]; [|done].
    destruct (progress dir) as [p|]; [|done].
    destruct (first_incomplete p) as [[ft fp]|]; [done|].
    destruct (assemble_all recordingId p (files dir) []) as [fs urls].
    destruct (update_first_event _ _ _) as [[l id]|] eqn:Hupd; simpl.
    + apply update_first_event_ids in Hupd; [|done]. by rewrite Hupd.
    + rewrite map_app. by apply prefix_app_r.
  - unfold get_evidence. by repeat case_match.
  - unfold list_events. by repeat case_match.
  - unfold get_event. by repeat case_match.
  - unfold delete_event. by repeat case_match.
  - unfold upload. by repeat case_match.
  - unfold user_all. by repeat case_match.
  - unfold get_by_sos. by repeat case_match.
  - unfold share. by repeat case_match.
  - unfold get_file. by repeat case_match.
Qed.

Lemma run_events_kept scope st evs :
  events_kept (sosEvents st) (sosEvents (run scope st evs)).
Proof.
  unfold events_kept. revert st. induction evs as [|ev evs IH]; intros st; simpl; [done|].
  etrans; [|apply IH].
  destruct ev as [r|uploadId]; simpl.
  - apply handle_events_kept.
  - unfold cleanup_timer. by case_decide.
Qed.

End LedgerFacts.

(** C4 (as stated, refuted). A photo and an audio file uploaded in that order
    get a hash that is not the one of the canonical order, and the same two
    files uploaded in the other order get a different hash: the hash follows
    the order of the request. *)
Lemma upload_hash_is_not_in_canonical_order :
  let docs fs :=
    Evidence.evidences
      (fst (Evidence.upload Evidence.standalone_router Evidence.empty_store
              Scenario.alice (Scenario.upload_of fs) 7000)) in
  docs [Scenario.photo; Scenario.audio] = [Scenario.uploaded_doc]
  ∧ Evidence.e_hash Scenario.uploaded_doc
    ≠ Some (Ledger.spec_combinedHash (Evidence.e_evidenceFiles Scenario.uploaded_doc))
  ∧ map Evidence.e_hash (docs [Scenario.photo; Scenario.audio])
    ≠ map Evidence.e_hash (docs [Scenario.audio; Scenario.photo]).
Proof.
  vm_compute. split; [reflexivity|]. split; discriminate.
Qed.

(** C4 (amended). Whenever a request adds a record to the evidence collection,
    the request is a direct upload or a finalize.  The record of a direct
    upload carries the SHA-256 of the concatenation of the SHA-256 hex digests
    of its files, taken in the order of the files in the request, which is the
    order of the record's [evidenceFiles]; the record of a finalize carries no
    hash. *)
Theorem created_record_hash (scope : Evidence.module_scope) (st : Evidence.store)
    (r : Evidence.request) (doc : Evidence.evidenceDoc) :
  Evidence.evidences (fst (Evidence.handle scope st r)) = Evidence.evidences st ++ [doc] →
  Ledger.created_by r doc
  ∧ (∀ h, Evidence.e_hash doc = Some h →
          h = Ledger.files_hash (Evidence.e_evidenceFiles doc)).
Proof.
  intros Hnew.
  assert (Ledger.created_by r doc) as Hby.
  { destruct (LedgerFacts.handle_evidences scope st r)
      as [Heq|[(doc0 & Heq & Hby)|(_ & p & records & Heq)]].
    - rewrite Heq in Hnew. apply (f_equal length) in Hnew.
      rewrite length_app in Hnew. simpl in Hnew. lia.
    - rewrite Heq in Hnew. apply app_inv_head in Hnew. by injection Hnew as ->.
    - rewrite Heq in Hnew. apply (f_equal length) in Hnew.
      rewrite LedgerFacts.update_first_length, length_app in Hnew. simpl in Hnew. lia. }
  split; [exact Hby|].
  intros h Hh. destruct r; simpl in Hby; try done.
  - congruence.
  - destruct Hby as [Hhash Hdata]. rewrite Hhash in Hh. injection Hh as <-.
    unfold Ledger.files_hash. rewrite <- (map_map Evidence.f_data SHA256.sha256_hex).
    rewrite Hdata. by rewrite map_map.
Qed.

Lemma created_record_hash_witness :
  Ledger.created_by
    (Evidence.Upload Scenario.alice
       (Scenario.upload_of [Scenario.photo; Scenario.audio]) 7000)
    Scenario.uploaded_doc
  ∧ (∀ h, Evidence.e_hash Scenario.uploaded_doc = Some h →
          h = Ledger.files_hash (Evidence.e_evidenceFiles Scenario.uploaded_doc)).
Proof.
  apply (created_record_hash Evidence.standalone_router Evidence.empty_store
           (Evidence.Upload Scenario.alice
              (Scenario.upload_of [Scenario.photo; Scenario.audio]) 7000)
           Scenario.uploaded_doc).
  vm_compute. reflexivity.
Defined.

(** The share handler of the stand-alone router does what the handler text
    says: an unknown id, or a record of someone else, is answered 404, and a
    share of an own record appends one entry per requested party. *)
Lemma standalone_share_not_found st id evidenceId shareWith now :
  (∀ e, e ∈ Evidence.evidences st → Evidence.e_id e = evidenceId →
        Evidence.e_userId e ≠ id) →
  Evidence.handle Evidence.standalone_router st
    (Evidence.Share (Auth.Verified id) evidenceId shareWith now)
  = (st, Evidence.Response 404 (Evidence.Error "Evidence not found")).
Proof.
  intros Hnone. simpl. unfold Evidence.share. simpl.
  destruct (Evidence.find_one _ _) as [e|] eqn:Hfind; [|done].
  apply find_some in Hfind as [Hin Hp].
  apply andb_prop in Hp as [H1%bool_decide_eq_true H2%bool_decide_eq_true].
  destruct (Hnone e); [by apply list_elem_of_In | done | done].
Qed.

Lemma standalone_share_appends st id evidenceId types now e :
  Evidence.find_one
    (λ e, bool_decide (Evidence.e_id e = evidenceId)
          && bool_decide (Evidence.e_userId e = id)) (Evidence.evidences st) = Some e →
  snd (Evidence.handle Evidence.standalone_router st
         (Evidence.Share (Auth.Verified id) evidenceId (Some types) now))
  = Evidence.Response 200
      (Evidence.Shared
         (Evidence.e_sharedWith e ++ map (λ type, Evidence.ShareRecord type now) types)).
Proof. intros Hfind. simpl. unfold Evidence.share. simpl. by rewrite Hfind. Qed.

(** Over any sequence of requests and timers, on either router, [sharedWith]
    of a stored record only gets longer. *)
Lemma sharedWith_only_grows scope st evs i e :
  Evidence.evidences st !! i = Some e →
  ∃ e' records,
    Evidence.evidences (Evidence.run scope st evs) !! i = Some e'
    ∧ Evidence.e_id e' = Evidence.e_id e
    ∧ Evidence.e_sharedWith e' = Evidence.e_sharedWith e ++ records.
Proof.
  intros Hi.
  destruct (LedgerFacts.grows_lookup _ _ i e (LedgerFacts.run_grows scope st evs) Hi)
    as [records Hi'].
  by exists (Evidence.push_shares records e), records.
Qed.

(** C7 (the code at the failing input). In [routes/evidenceRoutes.js] the
    share handler refers to [SOSEvidence], which the module does not bind:
    whatever the record, the requester and the parties, the answer is
    500 'Server error'; and over any sequence of requests and timers every
    stored record stays exactly as it is, so nothing is ever appended to a
    [sharedWith]. *)
Theorem share_fails_in_evidenceRoutes_js (st : Evidence.store) (id : string)
    (evidenceId : nat) (shareWith : option (list string)) (now : Z)
    (evs : list Evidence.event) :
  Evidence.handle Evidence.evidenceRoutes_js st
    (Evidence.Share (Auth.Verified id) evidenceId shareWith now)
  = (st, Evidence.Response 500 (Evidence.Error "Server error"))
  ∧ ∀ i e, Evidence.evidences st !! i = Some e →
           Evidence.evidences (Evidence.run Evidence.evidenceRoutes_js st evs) !! i
           = Some e.
Proof.
  split; [reflexivity|]. intros i e Hi.
  destruct (LedgerFacts.run_unbound_prefix st evs) as [extra ->].
  by apply lookup_app_l_Some.
Qed.

(** C8. A delete request is refused whoever sends it: 401 without a token, 403
    with an invalid one, 403 with a valid one, and the store is unchanged.
    And nothing else deletes: over any sequence of requests and timers, every
    evidence record stays at its place with its fields (only [sharedWith] may
    get longer), and every SOS event stays at its place with its [_id]. *)
Theorem deletion_is_always_rejected (scope : Evidence.module_scope)
    (st : Evidence.store) (evs : list Evidence.event)
    (c : Auth.credential) (eventId : string) :
  (fst (Evidence.handle scope st (Evidence.DeleteEvent c eventId)) = st
   ∧ (Evidence.status (snd (Evidence.handle scope st (Evidence.DeleteEvent c eventId))) = 401
      ∨ Evidence.status (snd (Evidence.handle scope st (Evidence.DeleteEvent c eventId))) = 403))
  ∧ (∀ i e, Evidence.evidences st !! i = Some e →
       ∃ records,
         Evidence.evidences (Evidence.run scope st evs) !! i
         = Some (Evidence.push_shares records e))
  ∧ (∀ i v, Evidence.sosEvents st !! i = Some v →
       ∃ v', Evidence.sosEvents (Evidence.run scope st evs) !! i = Some v'
             ∧ Evidence.v_id v' = Evidence.v_id v).
Proof.
  split; [|split].
  - destruct c; simpl; auto.
  - intros i e Hi. eapply LedgerFacts.grows_lookup; [apply LedgerFacts.run_grows | done].
  - intros i v Hi.
    destruct (LedgerFacts.run_events_kept scope st evs) as [k Hk].
    assert ((Evidence.v_id <$> Evidence.sosEvents (Evidence.run scope st evs)) !! i
            = Some (Evidence.v_id v)) as Hlook.
    { change (map Evidence.v_id (Evidence.sosEvents (Evidence.run scope st evs)) !! i
              = Some (Evidence.v_id v)).
      rewrite Hk. apply lookup_app_l_Some.
      change ((Evidence.v_id <$> Evidence.sosEvents st) !! i = Some (Evidence.v_id v)).
      by rewrite list_lookup_fmap, Hi. }
    rewrite list_lookup_fmap in Hlook.
    destruct (Evidence.sosEvents (Evidence.run scope st evs) !! i) as [v'|]; [|done].
    exists v'. split; [done|]. by injection Hlook.
Qed.

(** ** Retrieval *)

Module RetrievalFacts.
Import Auth Evidence Ledger.

Lemma insert_sorted_perm {A} (leb : A → A → bool) x l :
  insert_sorted leb x l ≡ₚ x :: l.
Proof.
  induction l as [|y l IH]; simpl; [done|].
  destruct (leb x y); [done|]. rewrite IH. apply Permutation_swap.
Qed.

Lemma sort_by_perm {A} (leb : A → A → bool) l : sort_by leb l ≡ₚ l.
Proof.
  induction l as [|x l IH]; simpl; [done|].
  by rewrite insert_sorted_perm, IH.
Qed.

Lemma find_one_Some {A} (p : A → bool) l x :
  find_one p l = Some x → x ∈ l ∧ p x = true.
Proof. intros [Hin Hp]%find_some. split; [by apply list_elem_of_In | done]. Qed.

Lemma find_one_None {A} (p : A → bool) l x :
  find_one p l = None → x ∈ l → p x = false.
Proof. intros Hnone Hin%list_elem_of_In. by eapply find_none. Qed.

Lemma find_all_elem {A} (p : A → bool) l x :
  x ∈ find_all p l ↔ x ∈ l ∧ p x = true.
Proof.
  unfold find_all. rewrite !list_elem_of_In, filter_In. done.
Qed.

End RetrievalFacts.

(** C10 (as stated, refuted). Alice has a record for SOS 'sos1'.  Bob asks for
    the evidence of 'sos1': the stand-alone router answers 200 with an empty
    list, [routes/evidenceRoutes.js] answers 500; neither answers 403 or 404. *)
Lemma list_by_sos_answers_a_stranger_without_403_or_404 :
  let ask scope :=
    snd (Evidence.handle scope Scenario.with_upload (Evidence.GetBySos Scenario.bob Scenario.sos_id)) in
  Evidence.evidences Scenario.with_upload = [Scenario.uploaded_doc]
  ∧ Evidence.e_sosId Scenario.uploaded_doc = Some Scenario.sos_id
  ∧ Evidence.e_userId Scenario.uploaded_doc = Scenario.alice_id
  ∧ ask Evidence.standalone_router = Evidence.Response 200 (Evidence.EvidenceList [])
  ∧ Evidence.status (ask Evidence.evidenceRoutes_js) = 500.
Proof. vm_compute. repeat split; reflexivity. Qed.

(** C10 (amended). For each of the three retrieval requests (by recording id,
    by SOS id, by file token) of a verified user: the store is unchanged;
    every piece of evidence in the response comes from a stored record whose
    [userId] is the requester's id; and when the requester owns no record that
    the request asks for, the response carries no evidence content, the
    request by recording id is answered 403 or 404, the request by file token
    is not answered 200, and the request by SOS id is answered neither 403 nor
    404. *)
Theorem retrieval_discloses_only_own_evidence (scope : Evidence.module_scope)
    (st : Evidence.store) (id : string) (r : Evidence.request) :
  Ledger.retrieval_by id r →
  let resp := snd (Evidence.handle scope st r) in
  fst (Evidence.handle scope st r) = st
  ∧ Ledger.own_evidence_only st id (Evidence.payload resp)
  ∧ ((∀ e, e ∈ Evidence.evidences st → Evidence.e_userId e = id →
           ¬ Ledger.asked_for r e) →
     ¬ Ledger.has_evidence_content (Evidence.payload resp)
     ∧ match r with
       | Evidence.GetEvidence _ _ _ =>
           Evidence.status resp = 403 ∨ Evidence.status resp = 404
       | Evidence.GetFile _ _ => Evidence.status resp ≠ 200
       | _ => Evidence.status resp ≠ 403 ∧ Evidence.status resp ≠ 404
       end).
Proof.
  intros Hr. cbv zeta.
  destruct r as [c b|c b now iv|c rid now|c lim sk|c eid|c eid|c b now|c lim pg
                |c sid|c eid sw now|c tok]; try done;
    destruct c as [| |id']; try done; simpl in Hr; subst id'; simpl.
  - (* by recording id *)
    unfold Evidence.get_evidence. simpl.
    destruct (Evidence.find_one _ _) as [e|] eqn:Hfind; simpl.
    + apply RetrievalFacts.find_one_Some in Hfind as [Hin Hrid%bool_decide_eq_true].
      destruct (decide (Evidence.e_userId e ≠ id)) as [Hne|Heq]; simpl.
      * split; [done|]. split; [done|]. intros _. split; [tauto | by left].
      * apply dec_stable in Heq. split; [done|]. split; [done|].
        intros Hnone. destruct (Hnone e Hin Heq Hrid).
    + split; [done|]. split; [done|]. intros _. split; [tauto | by right].
  - (* by SOS id *)
    unfold Evidence.get_by_sos. simpl. destruct scope; simpl.
    + split; [done|]. split; [done|]. intros _. split; [tauto | done].
    + split; [done|]. split.
      * intros e He. unfold Evidence.newest_first in He.
        rewrite RetrievalFacts.sort_by_perm in He.
        apply RetrievalFacts.find_all_elem in He as [Hin Hp].
        apply andb_prop in Hp as [_ Hu%bool_decide_eq_true]. done.
      * intros Hnone. split; [|done].
        intros Hcontent. apply Hcontent.
        destruct (Evidence.newest_first _ _) as [|e l] eqn:Hsorted; [done|].
        assert (e ∈ Evidence.newest_first Evidence.e_createdAt
                      (Evidence.find_all
                         (λ e, bool_decide (Evidence.e_sosId e = Some sid)
                               && bool_decide (Evidence.e_userId e = id))
                         (Evidence.evidences st))) as He.
        { rewrite Hsorted. left. }
        unfold Evidence.newest_first in He.
        rewrite RetrievalFacts.sort_by_perm in He.
        apply RetrievalFacts.find_all_elem in He as [Hin Hp].
        apply andb_prop in Hp as [Hs%bool_decide_eq_true Hu%bool_decide_eq_true].
        destruct (Hnone e Hin Hu Hs).
  - (* by file token *)
    unfold Evidence.get_file. simpl. destruct scope; simpl.
    + split; [done|]. split; [done|]. intros _. split; [tauto | done].
    + destruct (Evidence.find_one _ (Evidence.evidences st)) as [e|] eqn:Hfind; simpl.
      * apply RetrievalFacts.find_one_Some in Hfind as [Hin Hp].
        apply andb_prop in Hp as [Hfile Hu%bool_decide_eq_true].
        destruct (Evidence.find_one _ (Evidence.e_evidenceFiles e)) as [f|] eqn:Hf; simpl.
        -- apply RetrievalFacts.find_one_Some in Hf as [Hfin Hurl].
           split; [done|]. split.
           ++ by exists e, f.
           ++ intros Hnone. destruct (Hnone e Hin Hu Hfile).
        -- split; [done|]. split; [done|]. intros _. split; [tauto | done].
      * split; [done|]. split; [done|]. intros _. split; [tauto | done].
Qed.

Lemma retrieval_discloses_only_own_evidence_witness :
  let r := Evidence.GetEvidence Scenario.alice "rec1" 9000 in
  let st := fst (Evidence.handle Evidence.evidenceRoutes_js Scenario.in_order Scenario.finalize) in
  let resp := snd (Evidence.handle Evidence.evidenceRoutes_js st r) in
  fst (Evidence.handle Evidence.evidenceRoutes_js st r) = st
  ∧ Ledger.own_evidence_only st Scenario.alice_id (Evidence.payload resp)
  ∧ ((∀ e, e ∈ Evidence.evidences st → Evidence.e_userId e = Scenario.alice_id →
           ¬ Ledger.asked_for r e) →
     ¬ Ledger.has_evidence_content (Evidence.payload resp)
     ∧ (Evidence.status resp = 403 ∨ Evidence.status resp = 404)).
Proof.
  apply (retrieval_discloses_only_own_evidence Evidence.evidenceRoutes_js
           (fst (Evidence.handle Evidence.evidenceRoutes_js Scenario.in_order
                   Scenario.finalize))
           Scenario.alice_id (Evidence.GetEvidence Scenario.alice "rec1" 9000)).
  reflexivity.
Defined.

(** ** Guardian responses *)

Module RespondFacts.
Import AdvancedSOS.

Lemma respond_eq st r :
  respond st r
  = (st, Response 200
           (Recorded (GuardianResponse (rq_guardianId r) (rq_sosEventId r)
                        (rq_action r) (rq_reason r) (rq_now r)))).
Proof. unfold respond. by case_decide. Qed.

Lemma respond_all_cons st r rs :
  respond_all st (r :: rs)
  = (fst (respond_all st rs),
     Response 200
       (Recorded (GuardianResponse (rq_guardianId r) (rq_sosEventId r)
                    (rq_action r) (rq_reason r) (rq_now r)))
     :: snd (respond_all st rs)).
Proof.
  change (respond_all st (r :: rs))
    with (let '(st1, resp) := respond st r in
          let '(st2, resps) := respond_all st1 rs in (st2, resp :: resps)).
  rewrite respond_eq. by destruct (respond_all st rs).
Qed.

Lemma respond_all_store st rs : fst (respond_all st rs) = st.
Proof.
  induction rs as [|r rs IH]; [done|]. by rewrite respond_all_cons.
Qed.

Lemma respond_all_responses st rs :
  snd (respond_all st rs)
  = map (λ r, Response 200
                (Recorded (GuardianResponse (rq_guardianId r) (rq_sosEventId r)
                             (rq_action r) (rq_reason r) (rq_now r)))) rs.
Proof.
  induction rs as [|r rs IH]; [done|]. rewrite respond_all_cons. simpl. by rewrite IH.
Qed.

End RespondFacts.

(** C5 (as stated, refuted). Two guardians accept the active incident 'e1',
    10 ms apart: both are answered 200 'Response recorded', and the incident is
    still 'active', not resolved. *)
Lemma accepted_response_does_not_resolve_the_incident :
  let result :=
    AdvancedSOS.respond_all Scenario.incident
      [Scenario.accept "g1" 1000; Scenario.accept "g2" 1010] in
  AdvancedSOS.status_of Scenario.incident "e1" = Some "active"
  ∧ map AdvancedSOS.status (snd result) = [200; 200]
  ∧ AdvancedSOS.status_of (fst result) "e1" = Some "active"
  ∧ AdvancedSOS.status_of (fst result) "e1" ≠ Some "resolved".
Proof. vm_compute. repeat split; try reflexivity. discriminate. Qed.

(** C5 (amended). The respond endpoint keeps no record and settles nothing:
    whatever responses arrive and in whatever order, accepted or not, each is
    answered 200 with the response echoed back, the SOS collection is left as
    it was, and so the status of every incident is what it was before. *)
Theorem responses_change_no_incident (st : AdvancedSOS.store)
    (rs : list AdvancedSOS.respondRequest) :
  fst (AdvancedSOS.respond_all st rs) = st
  ∧ (∀ id, AdvancedSOS.status_of (fst (AdvancedSOS.respond_all st rs)) id
           = AdvancedSOS.status_of st id)
  ∧ snd (AdvancedSOS.respond_all st rs)
    = map (λ r, AdvancedSOS.Response 200
                  (AdvancedSOS.Recorded
                     (AdvancedSOS.GuardianResponse (AdvancedSOS.rq_guardianId r)
                        (AdvancedSOS.rq_sosEventId r) (AdvancedSOS.rq_action r)
                        (AdvancedSOS.rq_reason r) (AdvancedSOS.rq_now r)))) rs.
Proof.
  split; [apply RespondFacts.respond_all_store|]. split.
  - intros id. by rewrite RespondFacts.respond_all_store.
  - apply RespondFacts.respond_all_responses.
Qed.

(** ** Nearby volunteers *)

Section NearbyFacts.
Context {point : Type}.
Variable sphere_distance : point → point → Z.
Variable calculateDistance : point → point → Z.
Variable parse_origin : string → string → option point.
Variable parse_radius : string → option Z.

Local Abbreviation matches := (Volunteers.matches sphere_distance).
Local Abbreviation find_nearby := (Volunteers.find_nearby sphere_distance).
Local Abbreviation describe := (Volunteers.describe calculateDistance).
Local Abbreviation nearby :=
  (Volunteers.nearby sphere_distance calculateDistance parse_origin parse_radius).

Lemma matches_recent now origin radius (u : Volunteers.user) :
  matches now origin radius u = true →
  ∃ p t, Volunteers.volunteerLocation u = Some p
         ∧ Volunteers.volunteerLastActive u = Some t
         ∧ (now - Volunteers.day_ms ≤ t)%Z.
Proof.
  unfold Volunteers.matches. intros H.
  apply andb_prop in H as [H Hloc]. apply andb_prop in H as [_ Hact].
  destruct (Volunteers.volunteerLastActive u) as [t|]; [|done].
  destruct (Volunteers.volunteerLocation u) as [p|]; [|done].
  exists p, t. split; [done|]. split; [done|]. by apply Z.leb_le.
Qed.

Lemma find_nearby_matches users now origin radius u :
  u ∈ find_nearby users now origin radius →
  u ∈ users ∧ matches now origin radius u = true.
Proof.
  unfold Volunteers.find_nearby. intros Hin.
  assert (u ∈ sort_by
            (λ x y, (Volunteers.distance_of sphere_distance origin x
                     <=? Volunteers.distance_of sphere_distance origin y)%Z)
            (filter (λ u, matches now origin radius u = true) users)) as Hs.
  { rewrite <- (take_drop 20). apply elem_of_app. by left. }
  rewrite RetrievalFacts.sort_by_perm in Hs.
  apply list_elem_of_filter in Hs as [? ?]. done.
Qed.

Lemma find_nearby_length users now origin radius :
  length (find_nearby users now origin radius)
  = Nat.min 20 (length (filter (λ u, matches now origin radius u = true) users)).
Proof.
  unfold Volunteers.find_nearby.
  by rewrite length_take, (Permutation_length (RetrievalFacts.sort_by_perm _ _)).
Qed.

Lemma describe_all_length origin (l : list Volunteers.user) :
  (∀ u, u ∈ l → is_Some (describe origin u)) →
  length (omap (describe origin) l) = length l.
Proof.
  induction l as [|u l IH]; intros Hall; simpl; [done|].
  destruct (Hall u) as [v Hv]; [left|]. rewrite Hv. simpl.
  f_equal. apply IH. intros u' Hu'. apply Hall. by right.
Qed.

(** C9. For a verified requester and route parameters that parse, the query
    is answered 200 with the list and its length; every volunteer in the list
    was active within the 24 hours before the query, so nobody whose last
    activity is more than 24 hours old is in it; and the list has as many
    entries as there are matching volunteers, up to the route's maximum of
    20: a smaller pool is returned as it is, not as an error. *)
Theorem nearby_excludes_stale_and_returns_small_pools
    (users : list Volunteers.user) (id lat lng radius : string) (now : Z)
    (origin : point) (searchRadius : Z) :
  lat ≠ "" → lng ≠ "" → radius ≠ "" →
  parse_origin lat lng = Some origin →
  parse_radius radius = Some searchRadius →
  ∃ volunteers,
    nearby users (Auth.Verified id) lat lng radius now
    = Volunteers.Response 200 (Volunteers.Nearby (length volunteers) volunteers)
    ∧ (∀ v, v ∈ volunteers → (now - Volunteers.day_ms ≤ Volunteers.vi_lastActive v)%Z)
    ∧ (∀ u t, u ∈ users → Volunteers.volunteerLastActive u = Some t →
              (t < now - Volunteers.day_ms)%Z →
              ∀ v, v ∈ volunteers → describe origin u ≠ Some v)
    ∧ length volunteers
      = Nat.min 20
          (length (filter (λ u, matches now origin searchRadius u = true) users)).
Proof.
  intros Hlat Hlng Hrad Horigin Hradius.
  exists (omap (describe origin) (find_nearby users now origin searchRadius)).
  assert (∀ v, v ∈ omap (describe origin) (find_nearby users now origin searchRadius) →
               (now - Volunteers.day_ms ≤ Volunteers.vi_lastActive v)%Z) as Hrecent.
  { intros v (u & Hu & Hdesc)%list_elem_of_omap.
    apply find_nearby_matches in Hu as [_ Hm].
    apply matches_recent in Hm as (p & t & Hp & Ht & Hle).
    unfold Volunteers.describe in Hdesc. rewrite Hp, Ht in Hdesc.
    by injection Hdesc as <-. }
  split; [|split; [exact Hrecent|split]].
  - unfold Volunteers.nearby, JS.falsy. simpl.
    rewrite !decide_False by done. simpl.
    rewrite Horigin, Hradius.
    rewrite describe_all_length; [done|].
    intros u Hu. apply find_nearby_matches in Hu as [_ Hm].
    apply matches_recent in Hm as (p & t & Hp & Ht & _).
    unfold Volunteers.describe. rewrite Hp, Ht. by eexists.
  - intros u t _ Ht Hold v Hv Hdesc.
    apply Hrecent in Hv.
    unfold Volunteers.describe in Hdesc. rewrite Ht in Hdesc.
    destruct (Volunteers.volunteerLocation u); [|done].
    injection Hdesc as <-. simpl in Hv. lia.
  - rewrite describe_all_length; [apply find_nearby_length|].
    intros u Hu. apply find_nearby_matches in Hu as [_ Hm].
    apply matches_recent in Hm as (p & t & Hp & Ht & _).
    unfold Volunteers.describe. rewrite Hp, Ht. by eexists.
Qed.

End NearbyFacts.

Lemma nearby_excludes_stale_and_returns_small_pools_witness :
  let users := [Scenario.stale_volunteer; Scenario.recent_volunteer] in
  ∃ volunteers,
    Volunteers.nearby Scenario.grid_distance Scenario.grid_distance
      Scenario.grid_origin Scenario.grid_radius users Scenario.alice
      "0" "0" "10" Scenario.query_time
    = Volunteers.Response 200 (Volunteers.Nearby (length volunteers) volunteers)
    ∧ (∀ v, v ∈ volunteers →
            (Scenario.query_time - Volunteers.day_ms ≤ Volunteers.vi_lastActive v)%Z)
    ∧ (∀ u t, u ∈ users → Volunteers.volunteerLastActive u = Some t →
              (t < Scenario.query_time - Volunteers.day_ms)%Z →
              ∀ v, v ∈ volunteers →
                   Volunteers.describe Scenario.grid_distance (0, 0)%Z u ≠ Some v)
    ∧ length volunteers
      = Nat.min 20
          (length (filter (λ u, Volunteers.matches Scenario.grid_distance
                                  Scenario.query_time (0, 0)%Z 10 u = true) users)).
Proof.
  apply (nearby_excludes_stale_and_returns_small_pools Scenario.grid_distance
           Scenario.grid_distance Scenario.grid_origin Scenario.grid_radius
           [Scenario.stale_volunteer; Scenario.recent_volunteer]
           Scenario.alice_id "0" "0" "10" Scenario.query_time (0, 0)%Z 10%Z);
    [discriminate | discriminate | discriminate | reflexivity | reflexivity].
Defined.

(** The scenario's answer: only the volunteer seen an hour ago. *)
Example nearby_scenario :
  Volunteers.nearby Scenario.grid_distance Scenario.grid_distance
    Scenario.grid_origin Scenario.grid_radius
    [Scenario.stale_volunteer; Scenario.recent_volunteer] Scenario.alice
    "0" "0" "10" Scenario.query_time
  = Volunteers.Response 200
      (Volunteers.Nearby 1
         [Volunteers.VolunteerInfo "v1" "Asha" "111" (1, 1)%Z
            (Scenario.query_time - Scenario.hour_ms) 2]).
Proof. vm_compute. reflexivity. Qed.
(** * Further properties of the handlers *)

(** ** Base64: what is stored for a file and what is served back *)

Module Base64Facts.
Import Base64.
Local Open Scope N_scope.

#[local] Ltac Zify.zify_post_hook ::= Z.to_euclidean_division_equations.

Lemma sextets_ok :
  forallb (λ v, bool_decide (unbase64 (base64_char v) = Some v
                             ∧ base64_char v ≠ "="%char))
    (map N.of_nat (seq 0 64)) = true.
Proof. vm_compute. reflexivity. Qed.

Lemma sextet v :
  v < 64 → unbase64 (base64_char v) = Some v ∧ base64_char v ≠ "="%char.
Proof.
  intros Hv. pose proof sextets_ok as H. rewrite forallb_forall in H.
  specialize (H v). apply bool_decide_eq_true in H; [done|].
  apply in_map_iff. exists (N.to_nat v). split; [lia|]. apply in_seq. lia.
Qed.

(** One character of the alphabet, read at position [k] of its group. *)
Lemma decode_char k hi v rest :
  v < 64 →
  decode_from k hi (String (base64_char v) rest)
  = match k with
    | 0%nat => decode_from 1 v rest
    | 1%nat => String (ascii_of_N (hi * 4 + v / 16)) (decode_from 2 v rest)
    | 2%nat => String (ascii_of_N (hi mod 16 * 16 + v / 4)) (decode_from 3 v rest)
    | _ => String (ascii_of_N (hi mod 4 * 64 + v)) (decode_from 0 v rest)
    end.
Proof.
  intros Hv. destruct (sextet v Hv) as [Hun Hne]. simpl.
  rewrite decide_False by done. by rewrite Hun.
Qed.

Lemma byte_bound a : N_of_ascii a < 256.
Proof. apply N_ascii_bounded. Qed.

Lemma byte_back a x : x = N_of_ascii a → ascii_of_N x = a.
Proof. intros ->. apply ascii_N_embedding. Qed.

Lemma round_trip_upto (n : nat) :
  ∀ s hi, (String.length s ≤ n)%nat → decode_from 0 hi (encode s) = s.
Proof.
  induction n as [|n IH]; intros s hi Hlen.
  { destruct s; [done | simpl in Hlen; lia]. }
  destruct s as [|a [|b [|c rest]]]; [done| | |].
  - pose proof (byte_bound a). cbn [encode].
    rewrite decode_char by lia. rewrite decode_char by lia.
    simpl. f_equal. apply byte_back. lia.
  - pose proof (byte_bound a). pose proof (byte_bound b). cbn [encode].
    rewrite decode_char by lia. rewrite decode_char by lia. rewrite decode_char by lia.
    simpl. f_equal; [apply byte_back; lia|]. f_equal. apply byte_back. lia.
  - pose proof (byte_bound a). pose proof (byte_bound b). pose proof (byte_bound c).
    cbn [encode].
    rewrite decode_char by lia. rewrite decode_char by lia.
    rewrite decode_char by lia. rewrite decode_char by lia.
    rewrite IH by (simpl in Hlen; lia).
    f_equal; [apply byte_back; lia|]. f_equal; [apply byte_back; lia|].
    f_equal. apply byte_back. lia.
Qed.

End Base64Facts.

Example base64_examples :
  Base64.encode "" = "" ∧ Base64.encode "f" = "Zg==" ∧ Base64.encode "fo" = "Zm8="
  ∧ Base64.encode "foobar" = "Zm9vYmFy"
  ∧ Base64.decode "Zm9v YmE=" = "fooba" ∧ Base64.decode "Zm9vYg" = "foob"
  ∧ Base64.decode "Zm9v=YmFy" = "foo".
Proof. vm_compute. repeat split; reflexivity. Qed.

(** X1. The file data POST /upload stores ([fileBuffer.toString('base64')])
    and GET /file/:token decodes ([Buffer.from(file.data, 'base64')]) make a
    round trip: decoding what was encoded gives back the file's bytes, for
    every file content. *)
Theorem base64_round_trip (content : string) :
  Base64.decode (Base64.encode content) = content.
Proof.
  unfold Base64.decode.
  by apply (Base64Facts.round_trip_upto (String.length content)).
Qed.

(** ** The file filter of the stand-alone router *)

(** X2. A file that the multer filter of the stand-alone router lets through
    is classified by [getEvidenceType] as a type of the schema's enum for
    [evidenceFiles.type]: never as 'unknown', which the enum does not have. *)
Theorem filtered_files_have_schema_types (mimetype : string) :
  Standalone.fileFilter mimetype = true →
  Evidence.getEvidenceType mimetype ∈ Schema.evidenceFile_types
  ∧ Evidence.getEvidenceType mimetype ≠ "unknown"
  ∧ "unknown" ∉ Schema.evidenceFile_types.
Proof.
  intros Hok%bool_decide_eq_true. unfold Standalone.allowedTypes in Hok.
  assert ("unknown" ∉ Schema.evidenceFile_types) as Hunknown.
  { unfold Schema.evidenceFile_types. rewrite !not_elem_of_cons.
    repeat split; try discriminate. apply not_elem_of_nil. }
  repeat (apply elem_of_cons in Hok as [->|Hok];
          [split; [vm_compute; set_solver | split; [discriminate | exact Hunknown]]|]).
  by apply elem_of_nil in Hok.
Qed.

Lemma filtered_files_have_schema_types_witness :
  Evidence.getEvidenceType "video/avi" ∈ Schema.evidenceFile_types
  ∧ Evidence.getEvidenceType "video/avi" ≠ "unknown"
  ∧ "unknown" ∉ Schema.evidenceFile_types.
Proof.
  apply (filtered_files_have_schema_types "video/avi"). vm_compute. reflexivity.
Defined.

(** Without the filter ([routes/evidenceRoutes.js] has none) a file can be
    classified 'unknown'. *)
Example unfiltered_file_is_unknown :
  Standalone.fileFilter "application/pdf" = false
  ∧ Evidence.getEvidenceType "application/pdf" = "unknown".
Proof. vm_compute. split; reflexivity. Qed.

(** ** The upload directory: what a request touches *)

Module DirectoryFacts.
Import Auth Evidence ChunkStore Directory.

(** Only upload-chunk and finalize-upload write to the upload directories. *)
Lemma handle_uploads scope st r :
  match r with
  | UploadChunk _ _ | FinalizeUpload _ _ _ _ => True
  | _ => uploads (fst (handle scope st r)) = uploads st
  end.
Proof.
  destruct r as [c b|c b now iv|c rid now|c lim sk|c eid|c eid|c b now|c lim pg
                |c sid|c eid sw now|c tok]; simpl; try done.
  - unfold get_evidence. by repeat case_match.
  - unfold list_events. by repeat case_match.
  - unfold get_event. by repeat case_match.
  - unfold delete_event. by repeat case_match.
  - unfold upload. by repeat case_match.
  - unfold user_all. by repeat case_match.
  - unfold get_by_sos. by repeat case_match.
  - unfold share. by repeat case_match.
  - unfold get_file. by repeat case_match.
Qed.

(** The progress entry of a stream after a stored chunk. *)
Lemma tracked_stored st uploadId recordingId fileType chunkIndex total chunk u ft :
  tracked (fst (stored st uploadId recordingId fileType chunkIndex total chunk)) u ft
  = if decide (u = uploadId ∧ ft = fileType)
    then Some (FileProgress (JS.succ (JS.parseInt (Some chunkIndex)))
                 (declared_total st uploadId fileType total))
    else tracked st u ft.
Proof.
  unfold stored, tracked. simpl.
  destruct (decide (u = uploadId)) as [->|Hu].
  - rewrite lookup_insert_eq. simpl.
    destruct (decide (ft = fileType)) as [->|Hf].
    + rewrite decide_True by done. apply get_set_eq.
    + rewrite decide_False by tauto. rewrite get_set_ne by done.
      unfold progress_before.
      destruct (uploads st !! uploadId) as [dir|]; simpl; [|done].
      by destruct (progress dir).
  - rewrite decide_False by tauto. by rewrite lookup_insert_ne.
Qed.

Lemma file_stored st uploadId recordingId fileType chunkIndex total chunk u name :
  file (fst (stored st uploadId recordingId fileType chunkIndex total chunk)) u name
  = if decide (u = uploadId ∧ name = chunk_name fileType chunkIndex)
    then Some chunk
    else file st u name.
Proof.
  unfold stored, file. simpl.
  destruct (decide (u = uploadId)) as [->|Hu].
  - rewrite lookup_insert_eq. simpl.
    destruct (decide (name = chunk_name fileType chunkIndex)) as [->|Hn].
    + rewrite decide_True by done. apply lookup_insert_eq.
    + rewrite decide_False by tauto. rewrite lookup_insert_ne by done.
      by destruct (uploads st !! uploadId).
  - rewrite decide_False by tauto. by rewrite lookup_insert_ne.
Qed.

(** The assembly loop of one stream reads and deletes numbered chunks only. *)
Lemma assemble_chunks_other fileType name :
  ∀ n fs i written,
    name ∉ map (λ j, chunk_name fileType (pretty j)) (seq i n) →
    (assemble_chunks fileType fs i n written).1.1 !! name = fs !! name.
Proof.
  induction n as [|n IH]; intros fs i written Hname; simpl; [done|].
  simpl in Hname. apply not_elem_of_cons in Hname as [Hne Hname].
  destruct (fs !! chunk_name fileType (pretty i)) as [chunkData|]; [|done].
  rewrite IH by done. by rewrite lookup_delete_ne.
Qed.

Lemma assemble_all_other recordingId name :
  ∀ p fs urls,
    name ∉ finalize_touches p →
    (assemble_all recordingId p fs urls).1 !! name = fs !! name.
Proof.
  induction p as [|[ft fp] p IH]; intros fs urls Hname; simpl; [done|].
  unfold finalize_touches in Hname. simpl in Hname.
  apply not_elem_of_cons in Hname as [Hfinal Hname].
  apply not_elem_of_app in Hname as [Hchunks Hrest].
  pose proof (assemble_chunks_other ft name (JS.loop_count (totalChunks fp)) fs 0 ""
                Hchunks) as Hasm.
  destruct (assemble_chunks ft fs 0 (JS.loop_count (totalChunks fp)) "")
    as [[fs1 written] ok]. simpl in Hasm.
  rewrite IH by done. rewrite lookup_insert_ne by done. exact Hasm.
Qed.

(** What finalize-upload does to the upload directories: nothing, or the
    assembly of the session it names. *)
Lemma finalize_uploads st c b now iv :
  uploads (fst (finalize_upload st c b now iv)) = uploads st
  ∨ ∃ uploadId recordingId dir p,
      fb_uploadId b = Some uploadId ∧ fb_recordingId b = Some recordingId
      ∧ uploads st !! uploadId = Some dir ∧ progress dir = Some p
      ∧ first_incomplete p = None
      ∧ uploads (fst (finalize_upload st c b now iv))
        = <[uploadId := Session (assemble_all recordingId p (files dir) []).1 (Some p)]>
            (uploads st).
Proof.
  unfold finalize_upload.
  destruct (authenticateToken c) as [?|userId]; [by left|].
  destruct (fb_uploadId b) as [uploadId|]; [|by left].
  destruct (fb_recordingId b) as [recordingId|]; [|by left].
  destruct (fb_metadata b) as [meta|]; [|by left].
  destruct (_ || _); [by left|].
  destruct (uploads st !! uploadId) as [dir|] eqn:Hdir; [|by left].
  destruct (progress dir) as [p|] eqn:Hp; [|by left].
  destruct (first_incomplete p) as [[ft fp]|] eqn:Hfirst; [by left|].
  right. exists uploadId, recordingId, dir, p.
  destruct (assemble_all recordingId p (files dir) []) as [fs urls].
  destruct (update_first_event _ _ _) as [[l id]|]; simpl; by rewrite ?Hp.
Qed.

End DirectoryFacts.

(** ** Ordinary requests keep the upload directories flat *)

Module FlatFacts.
Import Auth Evidence ChunkStore Directory Names.
Local Open Scope Z_scope.

Lemma digit_value_bound radix c d : JS.digit_value radix c = Some d → 0 ≤ d < radix.
Proof.
  unfold JS.digit_value. intros H.
  repeat case_match; simplify_eq;
    repeat match goal with
           | H : (_ && _)%bool = true |- _ => apply andb_prop in H as [? ?]
           end; lia.
Qed.

Lemma digits_prefix_bound radix s :
  0 < radix →
  ∀ acc z,
    0 ≤ default 0 acc →
    JS.digits_prefix radix s acc = Some z →
    0 ≤ z < (default 0 acc + 1) * radix ^ Z.of_nat (String.length s).
Proof.
  intros Hradix. induction s as [|c s IH]; intros acc z Hacc; cbn [JS.digits_prefix].
  - intros ->. simpl in *. lia.
  - assert (0 < radix ^ Z.of_nat (String.length s)) as Hpow by (apply Z.pow_pos_nonneg; lia).
    replace (Z.of_nat (String.length (String c s)))
      with (Z.succ (Z.of_nat (String.length s))) by (simpl; lia).
    rewrite Z.pow_succ_r by lia.
    destruct (JS.digit_value radix c) as [d|] eqn:Hd.
    + apply digit_value_bound in Hd. intros Hz. apply IH in Hz.
      * destruct acc as [a|]; simpl in *; nia.
      * destruct acc as [a|]; simpl in *; nia.
    + intros ->. simpl in *. nia.
Qed.

Lemma skip_white_length s : (String.length (JS.skip_white s) ≤ String.length s)%nat.
Proof.
  induction s as [|c s IH]; simpl; [done|]. destruct (JS.is_white c); simpl; lia.
Qed.

Lemma strip_hex_prefix_length s r :
  JS.strip_hex_prefix s = Some r → (String.length r + 2 = String.length s)%nat.
Proof.
  destruct s as [|c [|c' s]]; [done| |].
  - by destruct c as [[] [] [] [] [] [] [] []].
  - destruct c as [[] [] [] [] [] [] [] []]; try done;
      destruct c' as [[] [] [] [] [] [] [] []]; try done;
      intros [= <-]; simpl; lia.
Qed.

(** The sign that [parseInt] reads, and the text after it. *)
Lemma sign_split (s : string) :
  ∃ sign rest,
    match s with
    | String "-" r => ((-1)%Z, r)
    | String "+" r => (1%Z, r)
    | _ => (1%Z, s)
    end = (sign, rest)
    ∧ (sign = 1 ∨ sign = -1)
    ∧ (String.length rest ≤ String.length s)%nat.
Proof.
  destruct s as [|c s]; [by exists 1, ""; auto|].
  destruct c as [[] [] [] [] [] [] [] []];
    eexists _, _; (split; [reflexivity|]); simpl; split; auto; lia.
Qed.

(** A numeral of at most 15 characters is an integer that a double holds,
    and so is its successor. *)
Lemma parseInt_string_bound s z :
  (String.length s ≤ 15)%nat → JS.parseInt_string s = Some z → Z.abs z < 2 ^ 53 - 1.
Proof.
  intros Hlen. unfold JS.parseInt_string.
  pose proof (skip_white_length s) as Hwhite.
  destruct (sign_split (JS.skip_white s)) as (sign & rest & -> & Hsign & Hrest).
  destruct (JS.strip_hex_prefix rest) as [r|] eqn:Hhex.
  - apply strip_hex_prefix_length in Hhex.
    destruct (JS.digits_prefix 16 r None) as [m|] eqn:Hm; [|done].
    apply digits_prefix_bound in Hm; [|lia|simpl; lia]. simpl in Hm.
    intros [= <-].
    assert (16 ^ Z.of_nat (String.length r) ≤ 16 ^ 13)
      by (apply Z.pow_le_mono_r; lia).
    destruct Hsign as [-> | ->]; lia.
  - destruct (JS.digits_prefix 10 rest None) as [m|] eqn:Hm; [|done].
    apply digits_prefix_bound in Hm; [|lia|simpl; lia]. simpl in Hm.
    intros [= <-].
    assert (10 ^ Z.of_nat (String.length rest) ≤ 10 ^ 15)
      by (apply Z.pow_le_mono_r; lia).
    destruct Hsign as [-> | ->]; lia.
Qed.

Lemma safe_index chunkIndex :
  index_name chunkIndex = true → safe (JS.succ (JS.parseInt (Some chunkIndex))) = true.
Proof.
  unfold index_name. intros [_ Hlen%Nat.leb_le]%andb_prop. simpl.
  destruct (JS.parseInt_string chunkIndex) as [z|] eqn:Hz; [|done].
  apply parseInt_string_bound in Hz; [|done]. simpl. apply Z.ltb_lt. lia.
Qed.

Lemma safe_total total : total_text total = true → safe (JS.parseInt total) = true.
Proof.
  destruct total as [s|]; [|done]. simpl. intros [Hlen%Nat.leb_le _]%andb_prop.
  destruct (JS.parseInt_string s) as [z|] eqn:Hz; [|done].
  apply parseInt_string_bound in Hz; [|done]. simpl. apply Z.ltb_lt. lia.
Qed.

Local Close Scope Z_scope.

Lemma chars_app (a b : string) :
  list_ascii_of_string (a +:+ b) = list_ascii_of_string a ++ list_ascii_of_string b.
Proof. induction a as [|c a IH]; [done|]. simpl. by rewrite IH. Qed.

Lemma length_app (a b : string) :
  String.length (a +:+ b) = (String.length a + String.length b)%nat.
Proof. induction a as [|c a IH]; [done|]. simpl. by rewrite IH. Qed.

Lemma name_char_component c :
  name_char c = true → (negb (Ascii.eqb c "/") && negb (Ascii.eqb c "000"))%bool = true.
Proof. by destruct c as [[] [] [] [] [] [] [] []]. Qed.

Lemma plain_chars s :
  plain s = true → forallb name_char (list_ascii_of_string s) = true.
Proof. unfold plain. by intros [_ ?]%andb_prop. Qed.

Lemma stream_name_plain s : stream_name s = true → plain s = true.
Proof. unfold stream_name. by intros [? _]%andb_prop. Qed.

Lemma index_name_plain s : index_name s = true → plain s = true.
Proof. unfold index_name. by intros [? _]%andb_prop. Qed.

Lemma component_chars s :
  forallb name_char (list_ascii_of_string s) = true →
  forallb (λ c, negb (Ascii.eqb c "/") && negb (Ascii.eqb c "000"))
    (list_ascii_of_string s) = true.
Proof.
  rewrite !forallb_forall. intros H c Hc. by apply name_char_component, H.
Qed.

(** The names the handlers build from plain names are file names. *)
Lemma chunk_name_file_name fileType chunkIndex :
  plain fileType = true → plain chunkIndex = true →
  file_name (chunk_name fileType chunkIndex) = true.
Proof.
  intros Hf%plain_chars Hi%plain_chars.
  assert (forallb name_char (list_ascii_of_string (chunk_name fileType chunkIndex)) = true)
    as Hchars.
  { unfold chunk_name. rewrite !chars_app, !forallb_app, Hf, Hi. done. }
  unfold file_name. apply andb_true_intro. split; [|by apply component_chars].
  apply negb_true_iff, not_true_is_false. intros Hex.
  apply existsb_exists in Hex as (x & Hx & Heq%String.eqb_eq).
  rewrite Heq in Hchars.
  assert (String.length (chunk_name fileType chunkIndex) ≠ 0)%nat as Hlen
    by (unfold chunk_name; rewrite !length_app; simpl; lia).
  rewrite Heq in Hlen.
  repeat (destruct Hx as [<-|Hx]; [by vm_compute in Hchars || done|]). done.
Qed.

Lemma final_name_file_name fileType :
  plain fileType = true → file_name (final_name fileType) = true.
Proof.
  intros Hf%plain_chars%component_chars.
  unfold file_name. apply andb_true_intro. split.
  - apply negb_true_iff, not_true_is_false. intros Hex.
    apply existsb_exists in Hex as (x & Hx & Heq%String.eqb_eq).
    assert (String.length (final_name fileType) = String.length fileType + 10)%nat
      as Hlen by (unfold final_name; by rewrite length_app).
    rewrite Heq in Hlen. unfold final_name in Heq.
    repeat (destruct Hx as [<-|Hx]; [simpl in Hlen; try lia|]); [|done].
    destruct fileType as [|a [|b [|c [|d fileType]]]]; simpl in Hlen; try lia.
    discriminate.
  - unfold final_name. by rewrite chars_app, forallb_app, Hf.
Qed.

Lemma Forall_set {V} (P : string * V → Prop) (o : JS.object V) k v :
  Forall P o → P (k, v) → Forall P (JS.set o k v).
Proof.
  intros Ho Hkv. induction Ho as [|[k' v'] o Hx Ho IH]; simpl.
  - by constructor.
  - case_decide; by constructor.
Qed.

Lemma get_elem {V} (o : JS.object V) k v : JS.get o k = Some v → (k, v) ∈ o.
Proof.
  induction o as [|[k' v'] o IH]; simpl; [done|].
  case_decide as Hk.
  - intros [= ->]. subst. by left.
  - intros H. right. by apply IH.
Qed.

Lemma flat_uploads st st' : uploads st' = uploads st → flat st → flat st'.
Proof. unfold flat. by intros ->. Qed.

(** A stored chunk keeps the directories flat. *)
Lemma flat_stored st uploadId recordingId fileType chunkIndex total chunk :
  flat st →
  plain uploadId = true → stream_name fileType = true →
  index_name chunkIndex = true → total_text total = true →
  flat (fst (stored st uploadId recordingId fileType chunkIndex total chunk)).
Proof.
  intros Hflat Hu Hf Hi Ht. unfold flat, stored. cbn [fst uploads].
  assert (map_Forall (λ name _, file_name name = true)
            (files (default empty_session (uploads st !! uploadId)))
          ∧ Forall (λ entry, progress_entry entry = true) (progress_before st uploadId))
    as [Hfiles Hprogress].
  { unfold progress_before.
    destruct (uploads st !! uploadId) as [dir|] eqn:Hdir; simpl.
    - by destruct (Hflat _ _ Hdir) as (_ & ? & ?).
    - split; [apply map_Forall_empty | constructor]. }
  apply map_Forall_insert_2; [|done]. cbn [files progress]. split; [done|]. split.
  - apply map_Forall_insert_2; [|done].
    apply chunk_name_file_name; [by apply stream_name_plain | by apply index_name_plain].
  - simpl. apply Forall_set; [done|].
    unfold progress_entry. apply andb_true_intro. split;
      [apply andb_true_intro; split; [exact Hf | by apply safe_index]|].
    cbn [snd totalChunks]. unfold declared_total, tracked.
    destruct (uploads st !! uploadId) as [dir|] eqn:Hdir; simpl; [|by apply safe_total].
    destruct (progress dir) as [p|] eqn:Hp; simpl; [|by apply safe_total].
    destruct (JS.get p fileType) as [fp|] eqn:Hget; [|by apply safe_total].
    destruct (Hflat _ _ Hdir) as (_ & _ & Hentries). rewrite Hp in Hentries.
    apply get_elem in Hget. rewrite Forall_forall in Hentries.
    apply Hentries in Hget. unfold progress_entry in Hget.
    by apply andb_prop in Hget as [_ ?].
Qed.

Lemma assemble_chunks_names (P : string → string → Prop) fileType :
  ∀ n fs i written,
    map_Forall P fs → map_Forall P (assemble_chunks fileType fs i n written).1.1.
Proof.
  induction n as [|n IH]; intros fs i written Hfs; simpl; [done|].
  destruct (fs !! chunk_name fileType (pretty i)); [|done].
  apply IH. by apply map_Forall_delete.
Qed.

Lemma assemble_all_names recordingId :
  ∀ p fs urls,
    map_Forall (λ name _, file_name name = true) fs →
    Forall (λ entry, progress_entry entry = true) p →
    map_Forall (λ name _, file_name name = true) (assemble_all recordingId p fs urls).1.
Proof.
  induction p as [|[ft fp] p IH]; intros fs urls Hfs Hp; simpl; [done|].
  apply Forall_cons in Hp as [Hentry Hp].
  pose proof (assemble_chunks_names (λ name _, file_name name = true) ft
                (JS.loop_count (totalChunks fp)) fs 0 "" Hfs) as Hasm.
  destruct (assemble_chunks ft fs 0 (JS.loop_count (totalChunks fp)) "")
    as [[fs1 written] ok]. simpl in Hasm.
  apply IH; [|done]. apply map_Forall_insert_2; [|done].
  apply final_name_file_name, stream_name_plain.
  unfold progress_entry in Hentry. simpl in Hentry.
  by apply andb_prop in Hentry as [[? _]%andb_prop _].
Qed.

(** Every request with ordinary names, and every cleanup, keeps the
    directories flat. *)
Lemma flat_step scope st ev :
  flat st → ordinary_event ev = true → flat (step scope st ev).
Proof.
  intros Hflat Hev. destruct ev as [r|uploadId]; simpl.
  - pose proof (DirectoryFacts.handle_uploads scope st r) as Hup.
    destruct r as [c b|c b now iv|c rid now|c lim sk|c eid|c eid|c b now|c lim pg
                  |c sid|c eid sw now|c tok];
      try (by apply (flat_uploads _ _ Hup)).
    + (* upload-chunk *)
      simpl in *.
      destruct (ChunkStoreFacts.upload_chunk_cases st c b)
        as [->|(uploadId & recordingId & fileType & chunkIndex & chunk & Hb & ->)];
        [done|].
      unfold ordinary_chunk in Hev. rewrite Hb in Hev. simpl in Hev.
      apply andb_prop in Hev as [[[Hu Hf]%andb_prop Hi]%andb_prop Ht].
      by apply flat_stored.
    + (* finalize-upload *)
      simpl.
      destruct (DirectoryFacts.finalize_uploads st c b now iv)
        as [Heq|(uploadId & recordingId & dir & p & _ & _ & Hdir & Hp & _ & Heq)];
        [by apply (flat_uploads _ _ Heq)|].
      unfold flat. rewrite Heq.
      destruct (Hflat _ _ Hdir) as (Hu & Hfiles & Hentries). rewrite Hp in Hentries.
      apply map_Forall_insert_2; [|done]. cbn [files progress]. split; [done|].
      split; [|done]. by apply assemble_all_names.
  - unfold cleanup_timer. case_decide; [|done].
    unfold flat. cbn [uploads]. by apply map_Forall_delete.
Qed.

Lemma flat_run scope st evs :
  flat st → Forall (λ ev, ordinary_event ev = true) evs → flat (run scope st evs).
Proof.
  intros Hflat Hevs. revert st Hflat.
  induction Hevs as [|ev evs Hev _ IH]; intros st Hflat; [done|].
  simpl. by apply IH, flat_step.
Qed.

End FlatFacts.

(** X3. On a store of flat upload directories, an upload-chunk request with
    ordinary names, accepted or not, touches one place only: the evidence
    records, the SOS events, the users' histories and the pending cleanups
    stay as they are; so do the other upload sessions, every file of the
    session other than the chunk file named by the request's stream type and
    chunk index, and the progress entries of the other streams; and the
    upload directories are flat afterwards. *)
Theorem upload_chunk_touches_one_chunk (st : Evidence.store) (c : Auth.credential)
    (b : Evidence.chunkBody) :
  Names.flat st →
  Names.ordinary_chunk b = true →
  let st' := fst (Evidence.upload_chunk st c b) in
  (Evidence.evidences st' = Evidence.evidences st
   ∧ Evidence.sosEvents st' = Evidence.sosEvents st
   ∧ Evidence.sosHistory st' = Evidence.sosHistory st
   ∧ Evidence.timers st' = Evidence.timers st)
  ∧ (∀ uploadId, Evidence.cb_uploadId b ≠ Some uploadId →
       Evidence.uploads st' !! uploadId = Evidence.uploads st !! uploadId)
  ∧ (∀ uploadId name,
       (∀ fileType chunkIndex,
          Evidence.cb_fileType b = Some fileType →
          Evidence.cb_chunkIndex b = Some chunkIndex →
          name ≠ Evidence.chunk_name fileType chunkIndex) →
       Directory.file st' uploadId name = Directory.file st uploadId name)
  ∧ (∀ uploadId fileType, Evidence.cb_fileType b ≠ Some fileType →
       ChunkStore.tracked st' uploadId fileType
       = ChunkStore.tracked st uploadId fileType)
  ∧ Names.flat st'.
Proof.
  intros Hflat Hb. cbv zeta.
  pose proof (FlatFacts.flat_step Evidence.evidenceRoutes_js st
                (Evidence.Http (Evidence.UploadChunk c b)) Hflat Hb) as Hflat'.
  simpl in Hflat'. clear Hflat Hb.
  destruct (ChunkStoreFacts.upload_chunk_cases st c b)
    as [Heq|(uploadId & recordingId & fileType & chunkIndex & chunk & Hb & Heq)].
  { rewrite Heq in *. do 4 (split; [done|]). exact Hflat'. }
  rewrite Heq in *. clear Heq.
  rewrite Hb. split; [done|]. split; [|split; [|split; [|exact Hflat']]].
  - intros u Hu. simpl in Hu. unfold ChunkStore.stored. simpl.
    apply lookup_insert_ne. congruence.
  - intros u name Hname. rewrite DirectoryFacts.file_stored.
    rewrite decide_False; [done|]. intros [_ ->]. by eapply Hname.
  - intros u ft Hft. rewrite DirectoryFacts.tracked_stored.
    rewrite decide_False; [done|]. intros [_ ->]. done.
Qed.

Lemma upload_chunk_touches_one_chunk_witness :
  let b :=
    Evidence.ChunkBody (Some "u1") (Some "rec1") (Some "frontVideo") (Some "0")
      (Some "4") (Some "VV") in
  let st' := fst (Evidence.upload_chunk Scenario.only_first Scenario.alice b) in
  (Evidence.evidences st' = Evidence.evidences Scenario.only_first
   ∧ Evidence.sosEvents st' = Evidence.sosEvents Scenario.only_first
   ∧ Evidence.sosHistory st' = Evidence.sosHistory Scenario.only_first
   ∧ Evidence.timers st' = Evidence.timers Scenario.only_first)
  ∧ (∀ uploadId, Evidence.cb_uploadId b ≠ Some uploadId →
       Evidence.uploads st' !! uploadId = Evidence.uploads Scenario.only_first !! uploadId)
  ∧ (∀ uploadId name,
       (∀ fileType chunkIndex,
          Evidence.cb_fileType b = Some fileType →
          Evidence.cb_chunkIndex b = Some chunkIndex →
          name ≠ Evidence.chunk_name fileType chunkIndex) →
       Directory.file st' uploadId name = Directory.file Scenario.only_first uploadId name)
  ∧ (∀ uploadId fileType, Evidence.cb_fileType b ≠ Some fileType →
       ChunkStore.tracked st' uploadId fileType
       = ChunkStore.tracked Scenario.only_first uploadId fileType)
  ∧ Names.flat st'.
Proof.
  intros b.
  apply (upload_chunk_touches_one_chunk Scenario.only_first Scenario.alice b).
  - apply (bool_decide_unpack _). vm_compute. exact I.
  - reflexivity.
Defined.

(** The first chunk of a second stream arrives in a session that holds the
    first chunk of the audio stream: that chunk and its progress entry are as
    they were. *)
Example second_stream_scenario :
  let b :=
    Evidence.ChunkBody (Some "u1") (Some "rec1") (Some "frontVideo") (Some "0")
      (Some "4") (Some "VV") in
  let st' := fst (Evidence.upload_chunk Scenario.only_first Scenario.alice b) in
  Directory.file st' "u1" (Evidence.chunk_name "audioRecording" "0") = Some "AA"
  ∧ Directory.file st' "u1" (Evidence.chunk_name "frontVideo" "0") = Some "VV"
  ∧ ChunkStore.tracked st' "u1" "audioRecording"
    = Some (Evidence.FileProgress (Some 1%Z) (Some 3%Z))
  ∧ ChunkStore.tracked st' "u1" "frontVideo"
    = Some (Evidence.FileProgress (Some 1%Z) (Some 4%Z)).
Proof. vm_compute. repeat split; reflexivity. Qed.

Module TotalFacts.
Import Auth Evidence ChunkStore Directory.

Lemma tracked_uploads st st' u ft :
  uploads st' = uploads st → tracked st' u ft = tracked st u ft.
Proof. unfold tracked. by intros ->. Qed.

(** No request changes the total a stream was declared with. *)
Lemma handle_keeps_total scope st r u ft fp :
  tracked st u ft = Some fp →
  ∃ fp', tracked (fst (handle scope st r)) u ft = Some fp'
         ∧ totalChunks fp' = totalChunks fp.
Proof.
  intros Htracked.
  pose proof (DirectoryFacts.handle_uploads scope st r) as Hup.
  destruct r as [c b|c b now iv|c rid now|c lim sk|c eid|c eid|c b now|c lim pg
                |c sid|c eid sw now|c tok];
    try (exists fp; split; [|done];
         by rewrite (tracked_uploads _ _ _ _ Hup)).
  - (* upload-chunk *)
    simpl.
    destruct (ChunkStoreFacts.upload_chunk_cases st c b)
      as [->|(uploadId & recordingId & fileType & chunkIndex & chunk & Hb & ->)];
      [by exists fp|].
    rewrite DirectoryFacts.tracked_stored.
    destruct (decide (u = uploadId ∧ ft = fileType)) as [[-> ->]|Hne];
      [|by exists fp].
    eexists. split; [reflexivity|]. simpl.
    unfold declared_total. by rewrite Htracked.
  - (* finalize-upload *)
    simpl.
    destruct (DirectoryFacts.finalize_uploads st c b now iv)
      as [Heq|(uploadId & recordingId & dir & p & _ & _ & Hdir & Hp & _ & Heq)].
    + exists fp. split; [|done]. by rewrite (tracked_uploads _ _ _ _ Heq).
    + exists fp. split; [|done]. rewrite <- Htracked. unfold tracked. rewrite Heq.
      destruct (decide (u = uploadId)) as [->|Hu].
      * rewrite lookup_insert_eq, Hdir. simpl. by rewrite Hp.
      * by rewrite lookup_insert_ne.
Qed.

(** Neither does the cleanup of another session. *)
Lemma step_keeps_total scope st ev u ft fp :
  ev ≠ Timeout u →
  tracked st u ft = Some fp →
  ∃ fp', tracked (step scope st ev) u ft = Some fp'
         ∧ totalChunks fp' = totalChunks fp.
Proof.
  intros Hev Htracked. destruct ev as [r|u']; simpl.
  - by apply handle_keeps_total.
  - exists fp. split; [|done]. unfold cleanup_timer. case_decide; [|done].
    rewrite <- Htracked. unfold tracked. simpl.
    rewrite lookup_delete_ne; [done|]. congruence.
Qed.

End TotalFacts.

(** X4. The total of a stream is the one declared by the chunk that created
    its progress entry.  From a store of flat upload directories, over any
    sequence of requests with ordinary names and of cleanups, on either
    router, the entry stays and keeps its [totalChunks] until the cleanup of
    its own session runs, whatever totals later chunks carry (a number,
    another number, none); and the upload directories stay flat. *)
Theorem declared_total_is_kept (scope : Evidence.module_scope) (st : Evidence.store)
    (evs : list Evidence.event) (uploadId fileType : string)
    (fp : Evidence.fileProgress) :
  Names.flat st →
  Forall (λ ev, Names.ordinary_event ev = true) evs →
  Evidence.Timeout uploadId ∉ evs →
  ChunkStore.tracked st uploadId fileType = Some fp →
  Names.flat (Evidence.run scope st evs)
  ∧ ∃ fp',
      ChunkStore.tracked (Evidence.run scope st evs) uploadId fileType = Some fp'
      ∧ Evidence.totalChunks fp' = Evidence.totalChunks fp.
Proof.
  intros Hflat Hevs Hcleanup Htracked.
  split; [by apply FlatFacts.flat_run|]. clear Hflat Hevs.
  revert st fp Hcleanup Htracked.
  induction evs as [|ev evs IH]; intros st fp Hcleanup Htracked; simpl.
  - by exists fp.
  - apply not_elem_of_cons in Hcleanup as [Hev Hcleanup].
    destruct (TotalFacts.step_keeps_total scope st ev uploadId fileType fp)
      as (fp1 & Htracked1 & Htotal1); [congruence | done |].
    destruct (IH _ fp1 Hcleanup Htracked1) as (fp' & Htracked' & Htotal').
    exists fp'. split; [done|]. congruence.
Qed.

Lemma declared_total_is_kept_witness :
  let evs :=
    [ Scenario.put "audioRecording" "1" "7" "BB";
      Evidence.Timeout "u2";
      Evidence.Http
        (Evidence.UploadChunk Scenario.alice
           (Evidence.ChunkBody (Some "u1") (Some "rec1") (Some "audioRecording")
              (Some "2") None (Some "CC")));
      Evidence.Http (Evidence.ListEvents Scenario.alice None None) ] in
  Names.flat (Evidence.run Evidence.evidenceRoutes_js Scenario.only_first evs)
  ∧ ∃ fp',
      ChunkStore.tracked (Evidence.run Evidence.evidenceRoutes_js Scenario.only_first evs)
        "u1" "audioRecording"
      = Some fp'
      ∧ Evidence.totalChunks fp' = Some 3%Z.
Proof.
  intros evs.
  apply (declared_total_is_kept Evidence.evidenceRoutes_js Scenario.only_first evs
           "u1" "audioRecording" (Evidence.FileProgress (Some 1%Z) (Some 3%Z))).
  - apply (bool_decide_unpack _). vm_compute. exact I.
  - apply (bool_decide_unpack _). vm_compute. exact I.
  - unfold evs, Scenario.put. rewrite !not_elem_of_cons.
    repeat split; try discriminate. apply not_elem_of_nil.
  - vm_compute. reflexivity.
Defined.

(** X5. On a store of flat upload directories, finalize-upload for a plain
    upload id reads, deletes and writes only the files its progress object
    names: for each stream the chunk files numbered [0] to the total minus
    one, written as decimal numerals, and the stream's final file.  Every
    other file of the session is left as it is, whatever the answer: in
    particular a chunk stored under an index at or beyond the total, or under
    an index written otherwise (such as '01'), is in no assembled file. *)
Theorem finalize_leaves_other_files (scope : Evidence.module_scope)
    (st : Evidence.store) (c : Auth.credential) (b : Evidence.finalizeBody)
    (now : Z) (iv : string) (uploadId name : string) :
  Names.flat st →
  Names.ordinary_finalize b = true →
  name ∉ Directory.finalize_touches (Directory.progress_of st uploadId) →
  Directory.file (fst (Evidence.handle scope st (Evidence.FinalizeUpload c b now iv)))
    uploadId name
  = Directory.file st uploadId name.
Proof.
  intros _ _ Hname. simpl. unfold Directory.file.
  destruct (DirectoryFacts.finalize_uploads st c b now iv)
    as [->|(u & recordingId & dir & p & _ & _ & Hdir & Hp & _ & ->)]; [done|].
  destruct (decide (uploadId = u)) as [->|Hu]; [|by rewrite lookup_insert_ne].
  rewrite lookup_insert_eq, Hdir. simpl.
  apply DirectoryFacts.assemble_all_other.
  unfold Directory.progress_of in Hname. rewrite Hdir in Hname. simpl in Hname.
  by rewrite Hp in Hname.
Qed.

Lemma finalize_leaves_other_files_witness :
  Directory.file
    (fst (Evidence.handle Evidence.evidenceRoutes_js Cases.padded_index Scenario.finalize))
    "u1" (Evidence.chunk_name "audioRecording" "01")
  = Directory.file Cases.padded_index "u1" (Evidence.chunk_name "audioRecording" "01").
Proof.
  apply (finalize_leaves_other_files Evidence.evidenceRoutes_js Cases.padded_index
           Scenario.alice
           (ChunkStore.finalize_request "u1" "rec1" Scenario.meta)
           5000 "00112233445566778899aabbccddeeff" "u1"
           (Evidence.chunk_name "audioRecording" "01")).
  - apply (bool_decide_unpack _). vm_compute. exact I.
  - reflexivity.
  - apply (bool_decide_unpack _). vm_compute. exact I.
Defined.

(** The chunk sent as '01' is counted as the second of two, finalize passes
    its check, and the chunk stays on disk beside an empty final file. *)
Example padded_index_is_counted_but_not_assembled :
  let after :=
    fst (Evidence.handle Evidence.evidenceRoutes_js Cases.padded_index Scenario.finalize) in
  ChunkStore.tracked Cases.padded_index "u1" "audioRecording"
  = Some (Evidence.FileProgress (Some 2%Z) (Some 2%Z))
  ∧ Directory.file after "u1" (Evidence.chunk_name "audioRecording" "01") = Some "BB"
  ∧ Directory.file after "u1" (Evidence.final_name "audioRecording") = Some "".
Proof. vm_compute. repeat split; reflexivity. Qed.

(** ** Chunks received in index order: the files *)

Module AssemblyFacts.
Import Auth Evidence ChunkStore Directory.



End AssemblyFacts.



(** ** Sorting and paging *)

Module SortFacts.
Import Evidence Events.

Section Decreasing.
Context {A : Type} (key : A → Z).
Implicit Types (l : list A).

Lemma insert_sorted_decreasing x l :
  decreasing key l →
  decreasing key (insert_sorted (λ x y, (key y <=? key x)%Z) x l).
Proof.
  induction l as [|y l IH]; simpl; [by intros; split|].
  intros [Hall Hdec]. destruct (Z.leb_spec (key y) (key x)) as [Hle|Hgt]; simpl.
  - split; [|done]. constructor; [done|].
    eapply Forall_impl; [exact Hall|]. simpl. intros; lia.
  - split; [|by apply IH].
    rewrite RetrievalFacts.insert_sorted_perm. constructor; [lia | done].
Qed.

Lemma newest_first_decreasing l : decreasing key (newest_first key l).
Proof.
  unfold newest_first. induction l as [|x l IH]; simpl; [done|].
  by apply insert_sorted_decreasing.
Qed.

Lemma decreasing_drop n l : decreasing key l → decreasing key (drop n l).
Proof.
  revert l. induction n as [|n IH]; intros [|x l]; simpl; try done.
  intros [_ Hdec]. by apply IH.
Qed.

Lemma decreasing_take n l : decreasing key l → decreasing key (take n l).
Proof.
  revert l. induction n as [|n IH]; intros [|x l]; simpl; try done.
  intros [Hall Hdec]. split; [|by apply IH].
  apply Forall_forall. intros y Hy. rewrite Forall_forall in Hall. apply Hall.
  eapply subseteq_take. exact Hy.
Qed.

Lemma decreasing_fmap {B} (f : B → A) (l : list B) :
  decreasing (key ∘ f) l → decreasing key (f <$> l).
Proof.
  induction l as [|x l IH]; simpl; [done|].
  intros [Hall Hdec]. split; [|by apply IH]. by apply Forall_fmap.
Qed.

End Decreasing.

Lemma newest_first_length {A} (key : A → Z) (l : list A) :
  length (newest_first key l) = length l.
Proof. unfold newest_first. by rewrite RetrievalFacts.sort_by_perm. Qed.

Lemma newest_first_elem {A} (key : A → Z) (l : list A) x :
  x ∈ newest_first key l ↔ x ∈ l.
Proof. unfold newest_first. by rewrite RetrievalFacts.sort_by_perm. Qed.

End SortFacts.

(** ** The SOS events of a user: GET / and GET /events/:eventId *)

(** X9. The two event retrieval requests of a verified user leave the store
    as it is and disclose nothing of other users: every event in the
    response is a stored event whose [userId] is the requester's id; and
    when the requester owns no event with the id asked for,
    GET /events/:eventId is not answered 200 and shows no event. *)
Theorem event_retrieval_discloses_only_own_events (scope : Evidence.module_scope)
    (st : Evidence.store) (id : string) (r : Evidence.request) :
  Events.retrieval_by id r →
  let resp := snd (Evidence.handle scope st r) in
  fst (Evidence.handle scope st r) = st
  ∧ (∀ v, v ∈ Events.shown (Evidence.payload resp) →
          v ∈ Evidence.sosEvents st ∧ Evidence.v_userId v = id)
  ∧ match r with
    | Evidence.GetEvent _ eventId =>
        (∀ v, v ∈ Evidence.sosEvents st → Evidence.v_userId v = id →
              Evidence.v_id v ≠ eventId) →
        Evidence.status resp ≠ 200 ∧ Events.shown (Evidence.payload resp) = []
    | _ => True
    end.
Proof.
  intros Hr. cbv zeta.
  destruct r as [c b|c b now iv|c rid now|c lim sk|c eid|c eid|c b now|c lim pg
                |c sid|c eid sw now|c tok]; try done;
    destruct c as [| |id']; try done; simpl in Hr; subst id'; simpl.
  - (* GET / *)
    unfold Evidence.list_events. simpl.
    destruct (Evidence.paginate _ _ _) as [page|] eqn:Hpage;
      [|repeat case_match; simpl; (split; [done|]; split; [by intros ? ?%elem_of_nil | done])].
    destruct (match lim with Some _ => _ | None => _ end) as [n|] eqn:Hn;
      [|simpl; (split; [done|]; split; [by intros ? ?%elem_of_nil | done])].
    destruct (match sk with Some _ => _ | None => _ end) as [s|] eqn:Hs;
      [|simpl; (split; [done|]; split; [by intros ? ?%elem_of_nil | done])].
    simpl. split; [done|]. split; [|done].
    intros v Hv. rewrite map_map in Hv. simpl in Hv. rewrite map_id in Hv.
    unfold Evidence.paginate in Hpage.
    destruct (_ || _); [done|]. injection Hpage as <-.
    assert (v ∈ Evidence.newest_first (λ v, default 0%Z (Evidence.v_timestamp v))
                  (Evidence.find_all (λ v, bool_decide (Evidence.v_userId v = id))
                     (Evidence.sosEvents st))) as Hin.
    { destruct (n =? 0)%Z.
      - eapply subseteq_drop. exact Hv.
      - eapply subseteq_drop. eapply subseteq_take. exact Hv. }
    apply SortFacts.newest_first_elem in Hin.
    apply RetrievalFacts.find_all_elem in Hin as [Hin Hu%bool_decide_eq_true].
    done.
  - (* GET /events/:eventId *)
    unfold Evidence.get_event. simpl.
    destruct (Evidence.find_one _ _) as [v|] eqn:Hfind; simpl.
    + apply RetrievalFacts.find_one_Some in Hfind as [Hin Hid%bool_decide_eq_true].
      destruct (decide (Evidence.v_userId v ≠ id)) as [Hne|Heq]; simpl.
      * split; [done|]. split; [by intros ? ?%elem_of_nil|]. done.
      * apply dec_stable in Heq. split; [done|]. split.
        -- by intros ? ->%list_elem_of_singleton.
        -- intros Hnone. destruct (Hnone v Hin Heq Hid).
    + split; [done|]. split; [by intros ? ?%elem_of_nil|]. done.
Qed.
Lemma event_retrieval_discloses_only_own_events_witness :
  let st := Cases.event_log in
  let r := Evidence.GetEvent Scenario.bob 3 in
  let resp := snd (Evidence.handle Evidence.evidenceRoutes_js st r) in
  fst (Evidence.handle Evidence.evidenceRoutes_js st r) = st
  ∧ (∀ v, v ∈ Events.shown (Evidence.payload resp) →
          v ∈ Evidence.sosEvents st ∧ Evidence.v_userId v = Scenario.bob_id)
  ∧ ((∀ v, v ∈ Evidence.sosEvents st → Evidence.v_userId v = Scenario.bob_id →
           Evidence.v_id v ≠ 3%nat) →
     Evidence.status resp ≠ 200 ∧ Events.shown (Evidence.payload resp) = []).
Proof.
  apply (event_retrieval_discloses_only_own_events Evidence.evidenceRoutes_js
           Cases.event_log Scenario.bob_id (Evidence.GetEvent Scenario.bob 3)).
  reflexivity.
Defined.

(** Event 3 is alice's: she is shown it, bob is answered 403, and an id that
    no event has is answered 404.  Bob's list holds his one event. *)
Example event_scenario :
  let ask c eventId :=
    Evidence.status (snd (Evidence.handle Evidence.evidenceRoutes_js Cases.event_log
                            (Evidence.GetEvent c eventId))) in
  let list c :=
    map Evidence.v_id
      (Events.shown
         (Evidence.payload
            (snd (Evidence.handle Evidence.evidenceRoutes_js Cases.event_log
                    (Evidence.ListEvents c None None))))) in
  ask Scenario.alice 3 = 200 ∧ ask Scenario.bob 3 = 403 ∧ ask Scenario.alice 7 = 404
  ∧ list Scenario.bob = [2] ∧ list Scenario.alice = [3; 5; 4; 1].
Proof. vm_compute. repeat split; reflexivity. Qed.

Module PageFacts.
Import Auth Evidence Events.

(** GET / with a limit and a skip written as decimal numerals. *)
Lemma list_events_numerals st id (L S : nat) :
  (0 < L)%nat →
  list_events st (Verified id) (Some (pretty L)) (Some (pretty S))
  = (st, Response 200
           (EventList
              (map (λ v, (v, populate st v)) (take L (drop S (history_of st id))))
              (count_of st id) (Z.of_nat L) (Z.of_nat S))).
Proof.
  intros HL. unfold list_events. cbn [authenticateToken].
  rewrite !NumeralFacts.parseInt_pretty. unfold paginate.
  rewrite (proj2 (Z.ltb_ge (Z.of_nat L) 0)) by lia.
  rewrite (proj2 (Z.ltb_ge (Z.of_nat S) 0)) by lia.
  rewrite (proj2 (Z.eqb_neq (Z.of_nat L) 0)) by lia.
  simpl. by rewrite !Nat2Z.id.
Qed.

End PageFacts.

(** X10. GET / with a limit [L > 0] and a skip [S], both below 2^31, asked by
    a user whose events all have a timestamp: the answer is 200; it lists
    [min L (total - S)] events, [total] being the number of events of the
    requester; every listed event is a stored event of the requester; the
    events go by decreasing timestamp; and [hasMore] is true exactly when
    the requester has events beyond the ones skipped and listed. *)
Theorem list_events_page (st : Evidence.store) (id : string) (L S : nat) :
  (0 < L)%nat → (Z.of_nat L < 2 ^ 31)%Z → (Z.of_nat S < 2 ^ 31)%Z →
  Events.timestamped st id →
  let resp :=
    snd (Evidence.list_events st (Auth.Verified id) (Some (pretty L)) (Some (pretty S))) in
  let events := Events.shown (Evidence.payload resp) in
  Evidence.status resp = 200
  ∧ length events = (L `min` (Events.count_of st id - S))%nat
  ∧ (∀ v, v ∈ events → v ∈ Evidence.sosEvents st ∧ Evidence.v_userId v = id)
  ∧ Events.decreasing (λ v, default 0%Z (Evidence.v_timestamp v)) events
  ∧ (Events.hasMore (Evidence.payload resp) = Some true
     ↔ (S + length events < Events.count_of st id)%nat).
Proof.
  intros HL _ _ _. cbv zeta. rewrite PageFacts.list_events_numerals by done. simpl.
  rewrite map_map. simpl. rewrite map_id.
  assert (length (take L (drop S (Events.history_of st id)))
          = (L `min` (Events.count_of st id - S))%nat) as Hlen.
  { rewrite length_take, length_drop. unfold Events.history_of, Events.count_of.
    by rewrite SortFacts.newest_first_length. }
  split; [done|]. split; [done|]. split; [|split].
  - intros v Hv%subseteq_take%subseteq_drop.
    apply SortFacts.newest_first_elem in Hv.
    by apply RetrievalFacts.find_all_elem in Hv as [Hin Hu%bool_decide_eq_true].
  - apply SortFacts.decreasing_take, SortFacts.decreasing_drop.
    apply SortFacts.newest_first_decreasing.
  - rewrite Hlen. split.
    + intros [= H%Z.ltb_lt]. lia.
    + intros H. f_equal. apply Z.ltb_lt. lia.
Qed.

Lemma list_events_page_witness :
  let st := Cases.event_log in
  let resp :=
    snd (Evidence.list_events st Scenario.alice (Some (pretty 2%nat)) (Some (pretty 1%nat))) in
  let events := Events.shown (Evidence.payload resp) in
  Evidence.status resp = 200
  ∧ length events = (2 `min` (Events.count_of st Scenario.alice_id - 1))%nat
  ∧ (∀ v, v ∈ events → v ∈ Evidence.sosEvents st ∧ Evidence.v_userId v = Scenario.alice_id)
  ∧ Events.decreasing (λ v, default 0%Z (Evidence.v_timestamp v)) events
  ∧ (Events.hasMore (Evidence.payload resp) = Some true
     ↔ (1 + length events < Events.count_of st Scenario.alice_id)%nat).
Proof.
  apply (list_events_page Cases.event_log Scenario.alice_id 2 1); [lia | done | done |].
  intros v Hv _.
  repeat (apply elem_of_cons in Hv as [->|Hv]; [by eexists|]).
  by apply elem_of_nil in Hv.
Defined.

(** Alice has four events.  With one skipped and a limit of two she is shown
    the second and the third newest, and more are left; with three skipped
    she is shown the oldest, and none is left. *)
Example page_scenario :
  let page limit skip :=
    Evidence.payload
      (snd (Evidence.list_events Cases.event_log Scenario.alice (Some limit) (Some skip))) in
  Events.count_of Cases.event_log Scenario.alice_id = 4%nat
  ∧ map Evidence.v_id (Events.shown (page "2" "1")) = [5; 4]
  ∧ Events.hasMore (page "2" "1") = Some true
  ∧ map Evidence.v_id (Events.shown (page "2" "3")) = [1]
  ∧ Events.hasMore (page "2" "3") = Some false.
Proof. vm_compute. repeat split; reflexivity. Qed.

(** ** The stand-alone router: upload, download, listing, share *)

Module StandaloneFacts.
Import Auth Evidence.




Lemma find_one_position {A} (p : A → bool) l x :
  find_one p l = Some x →
  ∃ k, l !! k = Some x ∧ p x = true
       ∧ ∀ j y, (j < k)%nat → l !! j = Some y → p y = false.
Proof.
  unfold find_one. induction l as [|y l IH]; simpl; [done|].
  destruct (p y) eqn:Hy.
  - intros [= ->]. exists 0%nat. repeat split; [done|]. intros; lia.
  - intros Hfind. destruct (IH Hfind) as (k & Hk & Hp & Hfirst).
    exists (S k). repeat split; [done..|].
    intros [|j] z Hj Hz; simpl in Hz; [by injection Hz as -> |].
    apply (Hfirst j); [lia | done].
Qed.

(** [findOne] and [save]: the document found is the one written back. *)
Lemma update_first_position {A} (p : A → bool) (f : A → A) l k x :
  l !! k = Some x → p x = true →
  (∀ j y, (j < k)%nat → l !! j = Some y → p y = false) →
  update_first p f l = <[k := f x]> l.
Proof.
  revert k. induction l as [|y l IH]; intros k Hk Hp Hfirst.
  - by rewrite lookup_nil in Hk.
  - destruct k as [|k]; simpl in *.
    + injection Hk as ->. by rewrite Hp.
    + rewrite (Hfirst 0%nat y) by (done || lia). f_equal.
      apply IH; [done | done |].
      intros j z Hj Hz. apply (Hfirst (S j) z); [lia | done].
Qed.

(** The record POST /upload stores. *)
Lemma upload_stores st id b now :
  ub_files b ≠ [] →
  ∃ doc,
    fst (upload standalone_router st (Verified id) b now)
    = Store (uploads st) (evidences st ++ [doc]) (sosEvents st) (sosHistory st)
        (S (next_id st)) (timers st)
    ∧ status (snd (upload standalone_router st (Verified id) b now)) = 200
    ∧ e_userId doc = id ∧ e_sosId doc = ub_sosId b ∧ e_id doc = next_id st
    ∧ e_sharedWith doc = []
    ∧ e_evidenceFiles doc
      = map (λ f, EvidenceFile (getEvidenceType (u_mimetype f)) (u_originalname f)
                    (u_content f) (secure_url (u_random f))
                    (String.length (u_content f)) (u_mimetype f)) (ub_files b).
Proof.
  intros Hfiles. unfold upload. simpl.
  destruct (ub_files b) as [|f fs] eqn:Hb; [done|].
  rewrite LedgerFacts.process_files_spec. simpl.
  eexists. split; [reflexivity|]. by repeat split.
Qed.

(** POST /upload answers 200 only when the request carries a file. *)
Lemma upload_200_files scope st c b now :
  status (snd (upload scope st c b now)) = 200 → ub_files b ≠ [].
Proof.
  unfold upload. intros H200 Hnil. rewrite Hnil in H200.
  by destruct c.
Qed.

End StandaloneFacts.



(** X12. A POST /upload that the stand-alone router answers 200 adds one record,
    owned by the requester and filed under the request's SOS id.  The owner's
    GET /sos/:sosId for that SOS lists it; for every other user, and for
    every SOS id, the answer of GET /sos/:sosId is what it was before the
    upload. *)
Theorem uploaded_record_is_listed_for_its_owner_only (st : Evidence.store)
    (id sosId : string) (b : Evidence.uploadBody) (now : Z) :
  Evidence.status
    (snd (Evidence.upload Evidence.standalone_router st (Auth.Verified id) b now)) = 200 →
  Evidence.ub_sosId b = Some sosId →
  let st' := fst (Evidence.upload Evidence.standalone_router st (Auth.Verified id) b now) in
  ∃ doc,
    Evidence.evidences st' = Evidence.evidences st ++ [doc]
    ∧ Evidence.e_userId doc = id
    ∧ Evidence.e_sosId doc = Some sosId
    ∧ (∃ docs,
         snd (Evidence.handle Evidence.standalone_router st'
                (Evidence.GetBySos (Auth.Verified id) sosId))
         = Evidence.Response 200 (Evidence.EvidenceList docs)
         ∧ doc ∈ docs)
    ∧ ∀ id' sosId',
        id' ≠ id →
        snd (Evidence.handle Evidence.standalone_router st'
               (Evidence.GetBySos (Auth.Verified id') sosId'))
        = snd (Evidence.handle Evidence.standalone_router st
                 (Evidence.GetBySos (Auth.Verified id') sosId')).
Proof.
  intros H200 Hsos. cbv zeta.
  destruct (StandaloneFacts.upload_stores st id b now
              (StandaloneFacts.upload_200_files _ _ _ _ _ H200))
    as (doc & -> & _ & Howner & Hsos' & _ & _ & _).
  exists doc. simpl. split; [done|]. split; [done|].
  split; [congruence|]. split.
  - eexists. unfold Evidence.get_by_sos. simpl. split; [reflexivity|].
    apply SortFacts.newest_first_elem, RetrievalFacts.find_all_elem.
    split; [set_solver|].
    rewrite Hsos', Hsos, Howner. by rewrite !bool_decide_eq_true_2.
  - intros id' sosId' Hne. unfold Evidence.get_by_sos. simpl. do 3 f_equal.
    unfold Evidence.find_all. rewrite List.filter_app. simpl.
    rewrite (bool_decide_eq_false_2 (Evidence.e_userId doc = id')) by congruence.
    rewrite andb_false_r. by rewrite app_nil_r.
Qed.

Lemma uploaded_record_is_listed_for_its_owner_only_witness :
  let st' := Scenario.with_upload in
  ∃ doc,
    Evidence.evidences st' = Evidence.evidences Evidence.empty_store ++ [doc]
    ∧ Evidence.e_userId doc = Scenario.alice_id
    ∧ Evidence.e_sosId doc = Some Scenario.sos_id
    ∧ (∃ docs,
         snd (Evidence.handle Evidence.standalone_router st'
                (Evidence.GetBySos Scenario.alice Scenario.sos_id))
         = Evidence.Response 200 (Evidence.EvidenceList docs)
         ∧ doc ∈ docs)
    ∧ ∀ id' sosId',
        id' ≠ Scenario.alice_id →
        snd (Evidence.handle Evidence.standalone_router st'
               (Evidence.GetBySos (Auth.Verified id') sosId'))
        = snd (Evidence.handle Evidence.standalone_router Evidence.empty_store
                 (Evidence.GetBySos (Auth.Verified id') sosId')).
Proof.
  apply (uploaded_record_is_listed_for_its_owner_only Evidence.empty_store
           Scenario.alice_id Scenario.sos_id
           (Scenario.upload_of [Scenario.photo; Scenario.audio]) 7000).
  - reflexivity.
  - reflexivity.
Defined.

(** X13. A share request that the stand-alone router answers 200 was sent by
    the owner of the record it names, and it changes that record only: one
    entry per requested party, in the order of the request and stamped with
    the time of the request, is appended to the record's [sharedWith], and
    the answer carries the whole list.  Parties already present are not
    merged: they are appended again. *)
Theorem share_appends_to_the_owners_record (st : Evidence.store) (c : Auth.credential)
    (evidenceId : nat) (shareWith : option (list string)) (now : Z) :
  Evidence.status
    (snd (Evidence.handle Evidence.standalone_router st
            (Evidence.Share c evidenceId shareWith now))) = 200 →
  ∃ id types k e,
    c = Auth.Verified id ∧ shareWith = Some types
    ∧ Evidence.evidences st !! k = Some e
    ∧ Evidence.e_id e = evidenceId ∧ Evidence.e_userId e = id
    ∧ let records := map (λ type, Evidence.ShareRecord type now) types in
      Evidence.handle Evidence.standalone_router st
        (Evidence.Share c evidenceId shareWith now)
      = (Evidence.Store (Evidence.uploads st)
           (<[k := Evidence.push_shares records e]> (Evidence.evidences st))
           (Evidence.sosEvents st) (Evidence.sosHistory st) (Evidence.next_id st)
           (Evidence.timers st),
         Evidence.Response 200 (Evidence.Shared (Evidence.e_sharedWith e ++ records))).
Proof.
  simpl. unfold Evidence.share. intros H200.
  destruct c as [| |id]; [discriminate..|]. simpl in *.
  destruct (Evidence.find_one _ _) as [e|] eqn:Hfind; [|discriminate].
  destruct shareWith as [types|]; [|discriminate].
  destruct (StandaloneFacts.find_one_position _ _ _ Hfind) as (k & Hk & Hp & Hfirst).
  pose proof Hp as Hp'.
  apply andb_prop in Hp' as [Hid%bool_decide_eq_true Hu%bool_decide_eq_true].
  exists id, types, k, e. repeat split; try done. simpl.
  by rewrite (StandaloneFacts.update_first_position _ _ _ k e).
Qed.

Lemma share_appends_to_the_owners_record_witness :
  ∃ id types k e,
    Scenario.alice = Auth.Verified id ∧ Some ["police"; "family"; "police"] = Some types
    ∧ Evidence.evidences Scenario.with_upload !! k = Some e
    ∧ Evidence.e_id e = 0%nat ∧ Evidence.e_userId e = id
    ∧ let records := map (λ type, Evidence.ShareRecord type 9000) types in
      Evidence.handle Evidence.standalone_router Scenario.with_upload
        (Evidence.Share Scenario.alice 0 (Some ["police"; "family"; "police"]) 9000)
      = (Evidence.Store (Evidence.uploads Scenario.with_upload)
           (<[k := Evidence.push_shares records e]> (Evidence.evidences Scenario.with_upload))
           (Evidence.sosEvents Scenario.with_upload) (Evidence.sosHistory Scenario.with_upload)
           (Evidence.next_id Scenario.with_upload) (Evidence.timers Scenario.with_upload),
         Evidence.Response 200 (Evidence.Shared (Evidence.e_sharedWith e ++ records))).
Proof.
  apply (share_appends_to_the_owners_record Scenario.with_upload Scenario.alice 0
           (Some ["police"; "family"; "police"]) 9000).
  vm_compute. reflexivity.
Defined.

(** ** SOS history: GET /history *)

Module HistoryFacts.
Import SosHistory.

Lemma ceil_div_bounds (t n : Z) :
  (0 < n)%Z → (t ≤ ceil_div t n * n < t + n)%Z.
Proof.
  intros Hn. unfold ceil_div.
  pose proof (Z.div_mod (- t) n ltac:(lia)) as Hdiv.
  pose proof (Z.mod_pos_bound (- t) n Hn) as Hmod. nia.
Qed.

Lemma below_ceil_div (t n p : Z) :
  (0 < n)%Z → (p < ceil_div t n ↔ p * n < t)%Z.
Proof. intros Hn. pose proof (ceil_div_bounds t n Hn). nia. Qed.

(** Consecutive windows of [n] elements, put together. *)
Lemma windows_concat {A} (l : list A) (n k : nat) :
  concat (map (λ i, take n (drop (i * n) l)) (seq 0 k)) = take (k * n) l.
Proof.
  induction k as [|k IH]; [by rewrite take_0|].
  rewrite seq_S, map_app, concat_app, IH. simpl. rewrite app_nil_r.
  rewrite take_take_drop. f_equal. lia.
Qed.

Section Pages.
Context {number : Type}.
Implicit Types (st : list (@sosDoc number)).

(** The request for a page, spelled out. *)
Lemma page_request_eq st id (n p : nat) :
  id ≠ "" → (0 < n)%nat → (0 < p)%nat →
  let mine := events_of st (Some id) in
  page_request st id n p
  = Response 200
      (History
         (map format (take n (drop ((p - 1) * n) (Evidence.newest_first d_timestamp mine))))
         (Pagination (Z.of_nat p) (ceil_div (Z.of_nat (length mine)) (Z.of_nat n))
            (Z.of_nat n) (length mine)
            (Z.of_nat p <? ceil_div (Z.of_nat (length mine)) (Z.of_nat n))%Z
            (1 <? Z.of_nat p)%Z)).
Proof.
  intros Hid Hn Hp. cbv zeta. unfold page_request, history. cbn [authenticateToken].
  unfold Evidence.parseInt_or. rewrite !NumeralFacts.parseInt_pretty.
  rewrite (proj2 (Z.eqb_neq (Z.of_nat n) 0)) by lia.
  rewrite (proj2 (Z.eqb_neq (Z.of_nat p) 0)) by lia.
  cbn [JS.falsy user_id]. rewrite decide_False by done. unfold skip_limit.
  rewrite (proj2 (Z.ltb_ge _ 0)) by nia.
  rewrite (proj2 (Z.eqb_neq (Z.of_nat n) 0)) by lia.
  replace (Z.to_nat (Z.abs (Z.of_nat n))) with n by lia.
  replace (Z.to_nat ((Z.of_nat p - 1) * Z.of_nat n)) with ((p - 1) * n)%nat by nia.
  reflexivity.
Qed.

End Pages.
End HistoryFacts.

(** X14. GET /history for page [p ≥ 1] with [n > 0] events a page, asked by a
    user with a non-empty id: the answer is 200; every entry is a stored
    event of that user; the page holds [min n (total - (p - 1) n)] entries,
    by decreasing timestamp; [pages] is [total / n] rounded up;
    [hasNextPage] is true exactly when the user has events beyond this page,
    and [hasPrevPage] exactly when [p > 1]. *)
Theorem history_page {number : Type} (st : list (@SosHistory.sosDoc number))
    (id : string) (n p : nat) :
  id ≠ "" → (0 < n)%nat → (0 < p)%nat →
  let r := SosHistory.page_request st id n p in
  let total := length (SosHistory.events_of st (Some id)) in
  SosHistory.status r = 200
  ∧ (∀ e, e ∈ SosHistory.data_of r →
          ∃ d, d ∈ st ∧ SosHistory.d_userId d = id ∧ e = SosHistory.format d)
  ∧ length (SosHistory.data_of r) = (n `min` (total - (p - 1) * n))%nat
  ∧ Events.decreasing SosHistory.h_timestamp (SosHistory.data_of r)
  ∧ ∃ pg,
      SosHistory.pagination_of r = Some pg
      ∧ SosHistory.page pg = Z.of_nat p ∧ SosHistory.limit pg = Z.of_nat n
      ∧ SosHistory.total pg = total
      ∧ (Z.of_nat total ≤ SosHistory.pages pg * Z.of_nat n < Z.of_nat total + Z.of_nat n)%Z
      ∧ (SosHistory.hasNextPage pg = true ↔ (p * n < total)%nat)
      ∧ (SosHistory.hasPrevPage pg = true ↔ (1 < p)%nat).
Proof.
  intros Hid Hn Hp. cbv zeta.
  rewrite HistoryFacts.page_request_eq by done.
  unfold SosHistory.data_of, SosHistory.pagination_of. simpl.
  set (mine := SosHistory.events_of st (Some id)).
  set (sorted := Evidence.newest_first SosHistory.d_timestamp mine).
  split; [done|]. split; [|split; [|split]].
  - intros e He.
    apply list_elem_of_In, in_map_iff in He as (d & <- & Hd%list_elem_of_In).
    exists d. split; [|split; [|done]].
    + apply subseteq_take, subseteq_drop in Hd. subst sorted.
      apply SortFacts.newest_first_elem in Hd. subst mine. unfold SosHistory.events_of in Hd.
      apply list_elem_of_In, filter_In in Hd as [Hd _]. by apply list_elem_of_In.
    + apply subseteq_take, subseteq_drop in Hd. subst sorted.
      apply SortFacts.newest_first_elem in Hd. subst mine. unfold SosHistory.events_of in Hd.
      apply list_elem_of_In, filter_In in Hd as [_ Hd%bool_decide_eq_true]. congruence.
  - rewrite length_map, length_take, length_drop. subst sorted.
    by rewrite SortFacts.newest_first_length.
  - change (Events.decreasing SosHistory.h_timestamp
              (SosHistory.format <$> take n (drop ((p - 1) * n) sorted))).
    apply SortFacts.decreasing_fmap.
    apply SortFacts.decreasing_take, SortFacts.decreasing_drop.
    apply (SortFacts.newest_first_decreasing SosHistory.d_timestamp).
  - eexists. split; [reflexivity|]. simpl. repeat split; try done.
    + apply HistoryFacts.ceil_div_bounds. lia.
    + apply HistoryFacts.ceil_div_bounds. lia.
    + intros H%Z.ltb_lt. apply HistoryFacts.below_ceil_div in H; lia.
    + intros H. apply Z.ltb_lt. apply HistoryFacts.below_ceil_div; lia.
    + intros H%Z.ltb_lt. lia.
    + intros H. apply Z.ltb_lt. lia.
Qed.

Lemma history_page_witness :
  let r := SosHistory.page_request Cases.sos_log Scenario.alice_id 2 1 in
  let total := length (SosHistory.events_of Cases.sos_log (Some Scenario.alice_id)) in
  SosHistory.status r = 200
  ∧ (∀ e, e ∈ SosHistory.data_of r →
          ∃ d, d ∈ Cases.sos_log ∧ SosHistory.d_userId d = Scenario.alice_id
               ∧ e = SosHistory.format d)
  ∧ length (SosHistory.data_of r) = (2 `min` (total - (1 - 1) * 2))%nat
  ∧ Events.decreasing SosHistory.h_timestamp (SosHistory.data_of r)
  ∧ ∃ pg,
      SosHistory.pagination_of r = Some pg
      ∧ SosHistory.page pg = Z.of_nat 1 ∧ SosHistory.limit pg = Z.of_nat 2
      ∧ SosHistory.total pg = total
      ∧ (Z.of_nat total ≤ SosHistory.pages pg * Z.of_nat 2 < Z.of_nat total + Z.of_nat 2)%Z
      ∧ (SosHistory.hasNextPage pg = true ↔ (1 * 2 < total)%nat)
      ∧ (SosHistory.hasPrevPage pg = true ↔ (1 < 1)%nat).
Proof.
  apply (history_page Cases.sos_log Scenario.alice_id 2 1); [discriminate | lia | lia].
Defined.

(** Alice's three events in pages of two: the newest two, then the oldest,
    and nothing of bob's. *)
Example history_scenario :
  let ids p := map SosHistory.h_id
                 (SosHistory.data_of (SosHistory.page_request Cases.sos_log Scenario.alice_id 2 p)) in
  ids 1%nat = ["65b000000000000000000003"; "65b000000000000000000004"]
  ∧ ids 2%nat = ["65b000000000000000000001"]
  ∧ ids 3%nat = []
  ∧ SosHistory.pagination_of (SosHistory.page_request Cases.sos_log Scenario.alice_id 2 1)
    = Some (SosHistory.Pagination 1 2 2 3 true false).
Proof. vm_compute. repeat split; reflexivity. Qed.

(** X15. Paging through the history shows every event once: for a user with a
    non-empty id whose events have pairwise distinct timestamps (the order of
    events with equal timestamps is the server's choice), and [n > 0] events
    a page, every page reports the same [pages], and the pages [1] to [pages]
    put one after the other are the user's events, newest first, each exactly
    once. *)
Theorem history_pages_cover_everything {number : Type}
    (st : list (@SosHistory.sosDoc number)) (id : string) (n : nat) :
  id ≠ "" → (0 < n)%nat →
  NoDup (map SosHistory.d_timestamp (SosHistory.events_of st (Some id))) →
  let mine := SosHistory.events_of st (Some id) in
  let pages := Z.to_nat (SosHistory.ceil_div (Z.of_nat (length mine)) (Z.of_nat n)) in
  (∀ p, (0 < p)%nat →
        SosHistory.pages <$> SosHistory.pagination_of (SosHistory.page_request st id n p)
        = Some (Z.of_nat pages))
  ∧ concat (map (λ p, SosHistory.data_of (SosHistory.page_request st id n p))
              (seq 1 pages))
    = map SosHistory.format (Evidence.newest_first SosHistory.d_timestamp mine)
  ∧ map SosHistory.format (Evidence.newest_first SosHistory.d_timestamp mine)
    ≡ₚ map SosHistory.format mine.
Proof.
  intros Hid Hn _. cbv zeta.
  set (mine := SosHistory.events_of st (Some id)).
  set (sorted := Evidence.newest_first SosHistory.d_timestamp mine).
  pose proof (HistoryFacts.ceil_div_bounds (Z.of_nat (length mine)) (Z.of_nat n)
                ltac:(lia)) as Hceil.
  split; [|split].
  - intros p Hp. rewrite HistoryFacts.page_request_eq by done.
    unfold SosHistory.pagination_of. simpl. f_equal. fold mine. nia.
  - transitivity (map SosHistory.format
                    (concat (map (λ i, take n (drop (i * n) sorted))
                               (seq 0 (Z.to_nat (SosHistory.ceil_div
                                                   (Z.of_nat (length mine))
                                                   (Z.of_nat n))))))).
    + rewrite <- (fmap_S_seq 0). change (S <$> ?l) with (map S l).
      rewrite map_map, concat_map, map_map. f_equal.
      apply map_ext_in. intros i Hi%in_seq.
      rewrite HistoryFacts.page_request_eq by (done || lia).
      unfold SosHistory.data_of. simpl. do 3 f_equal. lia.
    + rewrite HistoryFacts.windows_concat. rewrite take_ge; [done|].
      subst sorted. rewrite SortFacts.newest_first_length. nia.
  - subst sorted. unfold Evidence.newest_first.
    by rewrite RetrievalFacts.sort_by_perm.
Qed.

Lemma history_pages_cover_everything_witness :
  let mine := SosHistory.events_of Cases.sos_log (Some Scenario.alice_id) in
  let pages := Z.to_nat (SosHistory.ceil_div (Z.of_nat (length mine)) (Z.of_nat 2)) in
  (∀ p, (0 < p)%nat →
        SosHistory.pages
          <$> SosHistory.pagination_of
                (SosHistory.page_request Cases.sos_log Scenario.alice_id 2 p)
        = Some (Z.of_nat pages))
  ∧ concat (map (λ p, SosHistory.data_of
                        (SosHistory.page_request Cases.sos_log Scenario.alice_id 2 p))
              (seq 1 pages))
    = map SosHistory.format (Evidence.newest_first SosHistory.d_timestamp mine)
  ∧ map SosHistory.format (Evidence.newest_first SosHistory.d_timestamp mine)
    ≡ₚ map SosHistory.format mine.
Proof.
  apply (history_pages_cover_everything Cases.sos_log Scenario.alice_id 2);
    [discriminate | lia |].
  apply (bool_decide_unpack _). vm_compute. exact I.
Defined.

(** ** The volunteer router: registration, alerts *)

Module VolunteerFacts.
Import Auth.

Lemma update_first_elem {A} (p : A → bool) (f : A → A) (l : list A) x :
  x ∈ Evidence.update_first p f l → x ∈ l ∨ ∃ y, y ∈ l ∧ p y = true ∧ x = f y.
Proof.
  induction l as [|y l IH]; simpl; [by intros ?%elem_of_nil|].
  destruct (p y) eqn:Hy.
  - intros [->|Hx]%elem_of_cons.
    + right. exists y. split; [left | done].
    + left. by right.
  - intros [->|Hx]%elem_of_cons; [left; left|].
    destruct (IH Hx) as [?|(z & Hz & Hpz & ->)]; [left; by right|].
    right. exists z. split; [by right | done].
Qed.

Lemma update_first_fmap {A B} (g : A → B) (p : A → bool) (f : A → A) (l : list A) :
  (∀ x, p x = true → g (f x) = g x) →
  g <$> Evidence.update_first p f l = g <$> l.
Proof.
  intros Hg. induction l as [|y l IH]; [done|]. cbn [Evidence.update_first].
  destruct (p y) eqn:Hy; rewrite !fmap_cons; [by rewrite Hg | by rewrite IH].
Qed.

Section Routes.
Context {point number : Type}.
Variable sphere_distance : point → point → Z.
Variable calculateDistance : point → point → Z.
Variable parse_origin : string → string → option point.
Variable parse_radius : string → option Z.
Variable is_zero : number → bool.
Variable stored_point : @Json.value number → @Json.value number → option point.
Variable query_point : @Json.value number → @Json.value number → option point.
Variable distance_km : @Json.value number → @Json.value number → point → number.

Local Abbreviation user := (@Volunteers.user point).
Local Abbreviation handle :=
  (VolunteerRoutes.handle sphere_distance calculateDistance parse_origin parse_radius
     is_zero stored_point query_point distance_km).
Local Abbreviation run :=
  (VolunteerRoutes.run sphere_distance calculateDistance parse_origin parse_radius
     is_zero stored_point query_point distance_km).

Local Abbreviation hidden := (@VolunteerRoutes.hidden point).
Local Abbreviation unregister := (@VolunteerRoutes.unregister point number).
Local Abbreviation status := (@VolunteerRoutes.status point number).

Lemma findById_Some (users : list user) id u :
  VolunteerRoutes.findById users id = Some u → u ∈ users ∧ Volunteers.u_id u = id.
Proof.
  intros [Hin Hid%bool_decide_eq_true]%RetrievalFacts.find_one_Some. done.
Qed.

(** A saved document replaces a document with the same id, and only that one
    changes. *)
Lemma save_elem (users : list user) id new u :
  u ∈ VolunteerRoutes.save users id new → u ∈ users ∨ u = new.
Proof.
  intros [?|(y & _ & _ & ->)]%update_first_elem; [by left | by right].
Qed.

Lemma save_ids (users : list user) id new :
  Volunteers.u_id new = id →
  Volunteers.u_id <$> VolunteerRoutes.save users id new = Volunteers.u_id <$> users.
Proof.
  intros Hnew. apply update_first_fmap.
  intros x Hx%bool_decide_eq_true. congruence.
Qed.

Lemma unregister_hides (users : list user) id :
  NoDup (Volunteers.u_id <$> users) →
  status (snd (unregister users (Verified id))) = 200 →
  hidden id (fst (unregister users (Verified id))).
Proof.
  intros Hnodup H200. unfold VolunteerRoutes.unregister in *. simpl in *.
  destruct (VolunteerRoutes.findById users id) as [u|] eqn:Hfind; [|done]. simpl.
  destruct (StandaloneFacts.find_one_position _ _ _ Hfind)
    as (k & Hk & Hp%bool_decide_eq_true & Hfirst).
  unfold VolunteerRoutes.save.
  rewrite (StandaloneFacts.update_first_position _ _ _ k u)
    by (done || by apply bool_decide_eq_true).
  intros v [j Hj]%list_elem_of_lookup Hv.
  destruct (decide (j = k)) as [->|Hne].
  - rewrite list_lookup_insert_eq in Hj by (by eapply lookup_lt_Some).
    by injection Hj as <-.
  - rewrite list_lookup_insert_ne in Hj by done.
    destruct Hne. eapply (NoDup_lookup _ j k id); [exact Hnodup|..].
    + by rewrite list_lookup_fmap, Hj; simpl; rewrite Hv.
    + by rewrite list_lookup_fmap, Hk; simpl; rewrite Hp.
Qed.

Lemma handle_hidden (users : list user) id r :
  hidden id users → ¬ VolunteerRoutes.registers id r →
  hidden id (fst (handle users r)).
Proof.
  intros Hhidden Hr.
  destruct r as [c latitude longitude now|c latitude longitude now|c
                |c lat lng radius now|c latitude longitude emergencyType now];
    simpl; try done.
  - (* register *)
    unfold VolunteerRoutes.register.
    destruct c as [| |id']; simpl; try done.
    destruct (_ || _); simpl; [done|].
    destruct (VolunteerRoutes.findById users id') as [u|] eqn:Hfind; simpl; [|done].
    destruct (stored_point longitude latitude); simpl; [|done].
    apply findById_Some in Hfind as [Hin Hid].
    intros v [Hv| ->]%save_elem Hvid; [by apply Hhidden|].
    simpl in *. destruct Hr. congruence.
  - (* location *)
    unfold VolunteerRoutes.update_location.
    destruct c as [| |id']; simpl; try done.
    destruct (_ || _); simpl; [done|].
    destruct (VolunteerRoutes.findById users id') as [u|] eqn:Hfind; simpl; [|done].
    destruct (Volunteers.isVolunteer u) eqn:Hvol; simpl; [|done].
    destruct (stored_point longitude latitude); simpl; [|done].
    apply findById_Some in Hfind as [Hin Hid].
    intros v [Hv| ->]%save_elem Hvid; [by apply Hhidden|].
    simpl in *. rewrite <- Hvol. apply Hhidden; [done | congruence].
  - (* unregister *)
    unfold VolunteerRoutes.unregister.
    destruct c as [| |id']; simpl; try done.
    destruct (VolunteerRoutes.findById users id') as [u|] eqn:Hfind; simpl; [|done].
    intros v [Hv| ->]%save_elem Hvid; [by apply Hhidden | done].
Qed.

Lemma matches_volunteer now origin radius (u : user) :
  Volunteers.matches sphere_distance now origin radius u = true →
  Volunteers.isVolunteer u = true
  ∧ ∃ p t, Volunteers.volunteerLocation u = Some p
           ∧ Volunteers.volunteerLastActive u = Some t
           ∧ (now - Volunteers.day_ms ≤ t)%Z
           ∧ (sphere_distance origin p ≤ radius)%Z.
Proof.
  unfold Volunteers.matches. intros H.
  apply andb_prop in H as [H Hloc]. apply andb_prop in H as [Hvol Hact].
  split; [done|].
  destruct (Volunteers.volunteerLastActive u) as [t|]; [|done].
  destruct (Volunteers.volunteerLocation u) as [p|]; [|done].
  exists p, t. repeat split; [by apply Z.leb_le | by apply Z.leb_le].
Qed.

Lemma find_to_alert_matches (users : list user) now origin u :
  u ∈ VolunteerRoutes.find_to_alert sphere_distance users now origin →
  u ∈ users ∧ Volunteers.matches sphere_distance now origin 5000 u = true.
Proof.
  unfold VolunteerRoutes.find_to_alert. intros Hin%subseteq_take.
  rewrite RetrievalFacts.sort_by_perm in Hin.
  by apply list_elem_of_filter in Hin as [? ?].
Qed.

Lemma listed_hidden (users : list user) id q :
  hidden id users → id ∉ VolunteerRoutes.listed_ids (snd (handle users q)).
Proof.
  intros Hhidden Hin.
  destruct q as [c latitude longitude now|c latitude longitude now|c
                |c lat lng radius now|c latitude longitude emergencyType now];
    simpl in Hin.
  - assert (VolunteerRoutes.listed_ids
              (VolunteerRoutes.Answer
                 (snd (VolunteerRoutes.register is_zero stored_point users c latitude
                         longitude now))) = []) as Hnone.
    { clear Hin. unfold VolunteerRoutes.register. destruct c; simpl; by repeat case_match. }
    destruct (VolunteerRoutes.register _ _ _ _ _ _ _) as [users' resp].
    simpl in Hin, Hnone. rewrite Hnone in Hin. by apply elem_of_nil in Hin.
  - assert (VolunteerRoutes.listed_ids
              (VolunteerRoutes.Answer
                 (snd (VolunteerRoutes.update_location is_zero stored_point users c
                         latitude longitude now))) = []) as Hnone.
    { clear Hin. unfold VolunteerRoutes.update_location.
      destruct c; simpl; by repeat case_match. }
    destruct (VolunteerRoutes.update_location _ _ _ _ _ _ _) as [users' resp].
    simpl in Hin, Hnone. rewrite Hnone in Hin. by apply elem_of_nil in Hin.
  - assert (VolunteerRoutes.listed_ids
              (VolunteerRoutes.Answer (snd (unregister users c))) = []) as Hnone.
    { clear Hin. unfold VolunteerRoutes.unregister.
      destruct c; simpl; by repeat case_match. }
    destruct (VolunteerRoutes.unregister _ _) as [users' resp].
    simpl in Hin, Hnone. rewrite Hnone in Hin. by apply elem_of_nil in Hin.
  - unfold Volunteers.nearby in Hin.
    destruct (Volunteers.authenticateToken c) as [[s b]|?] eqn:Hauth.
    { destruct c; simplify_eq/=; by apply elem_of_nil in Hin. }
    destruct (_ || _); simpl in Hin; [by apply elem_of_nil in Hin|].
    destruct (parse_origin lat lng) as [origin|]; [|by apply elem_of_nil in Hin].
    destruct (parse_radius radius) as [searchRadius|]; [|by apply elem_of_nil in Hin].
    simpl in Hin.
    apply list_elem_of_In, in_map_iff in Hin as (v & Hid & Hv%list_elem_of_In).
    apply list_elem_of_omap in Hv as (u & Hu & Hdesc).
    apply find_nearby_matches in Hu as [Hu Hm].
    apply matches_volunteer in Hm as [Hvol _].
    unfold Volunteers.describe in Hdesc.
    destruct (Volunteers.volunteerLocation u); [|done].
    destruct (Volunteers.volunteerLastActive u); [|done].
    injection Hdesc as <-. simpl in Hid.
    rewrite (Hhidden u Hu Hid) in Hvol. done.
  - unfold VolunteerRoutes.alert_nearby in Hin.
    destruct (VolunteerRoutes.authenticateToken c) as [[s b]|?] eqn:Hauth.
    { destruct c; simplify_eq/=; by apply elem_of_nil in Hin. }
    destruct (_ || _); simpl in Hin; [by apply elem_of_nil in Hin|].
    destruct (query_point longitude latitude) as [origin|];
      [|by apply elem_of_nil in Hin].
    destruct (VolunteerRoutes.find_to_alert _ _ _ _) as [|u0 l] eqn:Hfound;
      [by apply elem_of_nil in Hin|].
    change (id ∈ map VolunteerRoutes.ai_id
                   (omap (VolunteerRoutes.describe_alert distance_km latitude longitude)
                      (u0 :: l))) in Hin.
    apply list_elem_of_In, in_map_iff in Hin as (v & Hid & Hv%list_elem_of_In).
    apply list_elem_of_omap in Hv as (u & Hu & Hdesc).
    rewrite <- Hfound in Hu.
    apply find_to_alert_matches in Hu as [Hu Hm].
    apply matches_volunteer in Hm as [Hvol _].
    unfold VolunteerRoutes.describe_alert in Hdesc.
    destruct (Volunteers.volunteerLocation u); [|done].
    injection Hdesc as <-. simpl in Hid.
    rewrite (Hhidden u Hu Hid) in Hvol. done.
Qed.

Lemma run_hidden rs : ∀ (users : list user) id,
  hidden id users → Forall (λ r, ¬ VolunteerRoutes.registers id r) rs →
  hidden id (run users rs).
Proof.
  induction rs as [|r rs IH]; intros users id Hhidden Hrs; simpl; [done|].
  apply Forall_cons in Hrs as [Hr Hrs].
  apply IH; [|done]. by apply handle_hidden.
Qed.

End Routes.
End VolunteerFacts.

Section VolunteerProperties.
Context {point number : Type}.
Variable sphere_distance : point → point → Z.
Variable calculateDistance : point → point → Z.
Variable parse_origin : string → string → option point.
Variable parse_radius : string → option Z.
Variable is_zero : number → bool.
Variable stored_point : @Json.value number → @Json.value number → option point.
Variable query_point : @Json.value number → @Json.value number → option point.
Variable distance_km : @Json.value number → @Json.value number → point → number.

Local Abbreviation user := (@Volunteers.user point).
Local Abbreviation request := (@VolunteerRoutes.request number).
Local Abbreviation handle :=
  (VolunteerRoutes.handle sphere_distance calculateDistance parse_origin parse_radius
     is_zero stored_point query_point distance_km).
Local Abbreviation run :=
  (VolunteerRoutes.run sphere_distance calculateDistance parse_origin parse_radius
     is_zero stored_point query_point distance_km).
Local Abbreviation matches := (Volunteers.matches sphere_distance).

(** X16. After a successful DELETE /unregister a user is out of every list of
    volunteers: whatever requests follow, as long as none of them is a
    POST /register of that user, no user with that id is a volunteer, and
    neither GET /nearby nor POST /alert-nearby lists the id, at any time,
    place and radius.  In particular PUT /location does not bring the user
    back.  (User ids are unique.) *)
Theorem unregistered_volunteer_is_not_listed (users : list user) (id : string)
    (rs : list request) (q : request) :
  NoDup (Volunteers.u_id <$> users) →
  VolunteerRoutes.status_of (snd (handle users (VolunteerRoutes.Unregister (Auth.Verified id))))
  = 200 →
  Forall (λ r, ¬ VolunteerRoutes.registers id r) rs →
  let users' :=
    run (fst (handle users (VolunteerRoutes.Unregister (Auth.Verified id)))) rs in
  VolunteerRoutes.hidden id users'
  ∧ id ∉ VolunteerRoutes.listed_ids (snd (handle users' q)).
Proof.
  intros Hnodup H200 Hrs. cbv zeta.
  assert (VolunteerRoutes.hidden id
            (run (fst (handle users (VolunteerRoutes.Unregister (Auth.Verified id)))) rs))
    as Hhidden.
  { apply VolunteerFacts.run_hidden; [|done]. simpl in *.
    destruct (VolunteerRoutes.unregister users (Auth.Verified id)) as [users1 resp] eqn:Hun.
    simpl in *.
    pose proof (VolunteerFacts.unregister_hides (number := number) users id Hnodup) as H.
    rewrite Hun in H. simpl in H. by apply H. }
  split; [done|]. by apply VolunteerFacts.listed_hidden.
Qed.

(** X17. POST /alert-nearby of a verified user with truthy coordinates and
    emergency type: the users are left as they are (nothing is recorded of
    the alert); the answer is 200 and lists the matching volunteers, ten at
    most, all of them volunteers who were active in the 24 hours before the
    request and are within 5000 metres of the place of the request. *)
Theorem alert_nearby_lists_recent_volunteers_within_5km (users : list user)
    (id : string) (latitude longitude emergencyType : @Json.value number) (now : Z)
    (origin : point) :
  Json.falsy is_zero latitude = false →
  Json.falsy is_zero longitude = false →
  Json.falsy is_zero emergencyType = false →
  query_point longitude latitude = Some origin →
  let result :=
    handle users
      (VolunteerRoutes.AlertNearby (Auth.Verified id) latitude longitude emergencyType now) in
  fst result = users
  ∧ VolunteerRoutes.status_of (snd result) = 200
  ∧ ∃ volunteers : list user,
      VolunteerRoutes.listed_ids (snd result) = map Volunteers.u_id volunteers
      ∧ length volunteers
        = (10 `min` length (filter (λ u, matches now origin 5000 u = true) users))%nat
      ∧ ∀ u, u ∈ volunteers →
             u ∈ users ∧ Volunteers.isVolunteer u = true
             ∧ ∃ p t, Volunteers.volunteerLocation u = Some p
                      ∧ Volunteers.volunteerLastActive u = Some t
                      ∧ (now - Volunteers.day_ms ≤ t)%Z
                      ∧ (sphere_distance origin p ≤ 5000)%Z.
Proof.
  intros Hlat Hlng Htype Horigin. cbv zeta. simpl.
  split; [done|].
  unfold VolunteerRoutes.alert_nearby. simpl. rewrite Hlat, Hlng, Htype, Horigin. simpl.
  set (found := VolunteerRoutes.find_to_alert sphere_distance users now origin).
  assert (∀ u, u ∈ found →
               u ∈ users ∧ Volunteers.isVolunteer u = true
               ∧ ∃ p t, Volunteers.volunteerLocation u = Some p
                        ∧ Volunteers.volunteerLastActive u = Some t
                        ∧ (now - Volunteers.day_ms ≤ t)%Z
                        ∧ (sphere_distance origin p ≤ 5000)%Z) as Hfound.
  { intros u [Hu Hm]%VolunteerFacts.find_to_alert_matches.
    split; [done|]. by apply VolunteerFacts.matches_volunteer in Hm. }
  assert (map VolunteerRoutes.ai_id
            (omap (VolunteerRoutes.describe_alert distance_km latitude longitude) found)
          = map Volunteers.u_id found) as Hids.
  { clear -Hfound. induction found as [|u l IH]; [done|].
    destruct (Hfound u) as (_ & _ & p & t & Hp & _); [left|].
    cbn [omap list_omap]. unfold VolunteerRoutes.describe_alert at 1. rewrite Hp.
    cbn [map]. f_equal. apply IH. intros u' Hu'. apply Hfound. by right. }
  assert (length found
          = (10 `min` length (filter (λ u, matches now origin 5000 u = true) users))%nat)
    as Hlen.
  { subst found. unfold VolunteerRoutes.find_to_alert.
    by rewrite length_take, (Permutation_length (RetrievalFacts.sort_by_perm _ _)). }
  destruct found as [|u0 l] eqn:Hf.
  - split; [done|]. exists []. split; [done|]. split; [exact Hlen|].
    intros u Hu. by apply elem_of_nil in Hu.
  - split; [done|]. exists (u0 :: l). split; [exact Hids|]. split; [exact Hlen|].
    exact Hfound.
Qed.

(** X18. A coordinate that is the number zero counts as missing: a verified
    user at latitude 0 or at longitude 0 cannot register, cannot update the
    position and cannot alert.  The answer is 400 and the users are left as
    they are, whatever the other fields. *)
Theorem zero_coordinate_is_refused (users : list user) (id : string) (x : number)
    (other emergencyType : @Json.value number) (now : Z) (r : request) :
  is_zero x = true →
  r ∈ [ VolunteerRoutes.Register (Auth.Verified id) (Json.JNumber x) other now;
        VolunteerRoutes.Register (Auth.Verified id) other (Json.JNumber x) now;
        VolunteerRoutes.UpdateLocation (Auth.Verified id) (Json.JNumber x) other now;
        VolunteerRoutes.UpdateLocation (Auth.Verified id) other (Json.JNumber x) now;
        VolunteerRoutes.AlertNearby (Auth.Verified id) (Json.JNumber x) other
          emergencyType now;
        VolunteerRoutes.AlertNearby (Auth.Verified id) other (Json.JNumber x)
          emergencyType now ] →
  fst (handle users r) = users
  ∧ VolunteerRoutes.status_of (snd (handle users r)) = 400.
Proof.
  intros Hzero Hr.
  repeat (apply elem_of_cons in Hr as [->|Hr];
          [simpl; unfold VolunteerRoutes.register, VolunteerRoutes.update_location,
             VolunteerRoutes.alert_nearby; simpl; rewrite Hzero;
           rewrite ?orb_true_r; simpl; by split|]).
  by apply elem_of_nil in Hr.
Qed.

(** X19. A position report that is answered 200 (POST /register, or
    PUT /location of a volunteer) makes the user a volunteer at the reported
    position, last active at the time of the request, and changes no other
    user: the user then passes the filter of GET /nearby and
    POST /alert-nearby for every query made up to 24 hours later from a place
    within the radius. *)
Theorem position_report_makes_findable_for_a_day (users : list user) (id : string)
    (latitude longitude : @Json.value number) (now : Z) (r : request) :
  VolunteerRoutes.reports_position id latitude longitude now r →
  VolunteerRoutes.status_of (snd (handle users r)) = 200 →
  ∃ p k u,
    stored_point longitude latitude = Some p
    ∧ users !! k = Some u ∧ Volunteers.u_id u = id
    ∧ fst (handle users r)
      = <[k := Volunteers.User id (Volunteers.u_name u) (Volunteers.u_mobile u) true
                 (Some p) (Some now)]> users
    ∧ ∀ t origin radius,
        (t - Volunteers.day_ms ≤ now)%Z → (sphere_distance origin p ≤ radius)%Z →
        matches t origin radius
          (Volunteers.User id (Volunteers.u_name u) (Volunteers.u_mobile u) true
             (Some p) (Some now)) = true.
Proof.
  intros [-> | ->] H200; simpl in *.
  - unfold VolunteerRoutes.register in *. simpl in *.
    destruct (_ || _); simpl in *; [done|].
    destruct (VolunteerRoutes.findById users id) as [u|] eqn:Hfind; simpl in *; [|done].
    destruct (stored_point longitude latitude) as [p|]; simpl in *; [|done].
    destruct (StandaloneFacts.find_one_position _ _ _ Hfind)
      as (k & Hk & Hp & Hfirst).
    pose proof Hp as Hid%bool_decide_eq_true.
    exists p, k, u. split; [done|]. split; [done|]. split; [done|]. split.
    + unfold VolunteerRoutes.save. rewrite Hid.
      by rewrite (StandaloneFacts.update_first_position _ _ users k u Hk Hp Hfirst).
    + intros t origin radius Ht Hd. unfold Volunteers.matches. simpl.
      apply andb_true_intro. split; apply Z.leb_le; lia.
  - unfold VolunteerRoutes.update_location in *. simpl in *.
    destruct (_ || _); simpl in *; [done|].
    destruct (VolunteerRoutes.findById users id) as [u|] eqn:Hfind; simpl in *; [|done].
    destruct (Volunteers.isVolunteer u) eqn:Hvol; simpl in *; [|done].
    destruct (stored_point longitude latitude) as [p|]; simpl in *; [|done].
    destruct (StandaloneFacts.find_one_position _ _ _ Hfind)
      as (k & Hk & Hp & Hfirst).
    pose proof Hp as Hid%bool_decide_eq_true.
    exists p, k, u. split; [done|]. split; [done|]. split; [done|]. split.
    + unfold VolunteerRoutes.save. rewrite Hid.
      by rewrite (StandaloneFacts.update_first_position _ _ users k u Hk Hp Hfirst).
    + intros t origin radius Ht Hd. unfold Volunteers.matches. simpl.
      apply andb_true_intro. split; apply Z.leb_le; lia.
Qed.

End VolunteerProperties.

Lemma unregistered_volunteer_is_not_listed_witness :
  let users := [Scenario.recent_volunteer; Cases.newcomer] in
  let rs :=
    [VolunteerRoutes.UpdateLocation Cases.asha (Json.JNumber 1%Z) (Json.JNumber 1%Z)
       Scenario.query_time] in
  let users' :=
    Cases.grid_run
      (fst (Cases.grid_handle users (VolunteerRoutes.Unregister Cases.asha))) rs in
  VolunteerRoutes.hidden "v1" users'
  ∧ "v1" ∉ VolunteerRoutes.listed_ids
             (snd (Cases.grid_handle users'
                     (VolunteerRoutes.Nearby Scenario.alice "0" "0" "10"
                        Scenario.query_time))).
Proof.
  apply (unregistered_volunteer_is_not_listed Scenario.grid_distance
           Scenario.grid_distance Scenario.grid_origin Scenario.grid_radius
           (Z.eqb 0) Cases.grid_point Cases.grid_point Cases.grid_km
           [Scenario.recent_volunteer; Cases.newcomer] "v1"
           [VolunteerRoutes.UpdateLocation Cases.asha (Json.JNumber 1%Z)
              (Json.JNumber 1%Z) Scenario.query_time]
           (VolunteerRoutes.Nearby Scenario.alice "0" "0" "10" Scenario.query_time)).
  - apply (bool_decide_unpack _). vm_compute. exact I.
  - vm_compute. reflexivity.
  - repeat constructor. simpl. tauto.
Defined.

(** The volunteer is listed before the unregistration and not after it, and
    the position update that follows is answered 404. *)
Example unregister_scenario :
  let users := [Scenario.recent_volunteer; Cases.newcomer] in
  let nearby := VolunteerRoutes.Nearby Scenario.alice "0" "0" "10" Scenario.query_time in
  let update :=
    VolunteerRoutes.UpdateLocation Cases.asha (Json.JNumber 1%Z) (Json.JNumber 1%Z)
      Scenario.query_time in
  let users1 := fst (Cases.grid_handle users (VolunteerRoutes.Unregister Cases.asha)) in
  VolunteerRoutes.listed_ids (snd (Cases.grid_handle users nearby)) = ["v1"]
  ∧ VolunteerRoutes.status_of (snd (Cases.grid_handle users1 update)) = 404
  ∧ VolunteerRoutes.listed_ids (snd (Cases.grid_handle users1 nearby)) = [].
Proof. vm_compute. repeat split; reflexivity. Qed.

Lemma alert_nearby_lists_recent_volunteers_within_5km_witness :
  let users := [Scenario.stale_volunteer; Scenario.recent_volunteer] in
  let result :=
    Cases.grid_handle users
      (VolunteerRoutes.AlertNearby Scenario.alice (Json.JNumber 1%Z) (Json.JNumber 1%Z)
         (Json.JString "panic") Scenario.query_time) in
  fst result = users
  ∧ VolunteerRoutes.status_of (snd result) = 200
  ∧ ∃ volunteers : list Volunteers.user,
      VolunteerRoutes.listed_ids (snd result) = map Volunteers.u_id volunteers
      ∧ length volunteers
        = (10 `min` length (filter (λ u, Volunteers.matches Scenario.grid_distance
                                          Scenario.query_time (1, 1)%Z 5000 u = true)
                              users))%nat
      ∧ ∀ u, u ∈ volunteers →
             u ∈ users ∧ Volunteers.isVolunteer u = true
             ∧ ∃ p t, Volunteers.volunteerLocation u = Some p
                      ∧ Volunteers.volunteerLastActive u = Some t
                      ∧ (Scenario.query_time - Volunteers.day_ms ≤ t)%Z
                      ∧ (Scenario.grid_distance (1, 1)%Z p ≤ 5000)%Z.
Proof.
  apply (alert_nearby_lists_recent_volunteers_within_5km Scenario.grid_distance
           Scenario.grid_distance Scenario.grid_origin Scenario.grid_radius
           (Z.eqb 0) Cases.grid_point Cases.grid_point Cases.grid_km
           [Scenario.stale_volunteer; Scenario.recent_volunteer] Scenario.alice_id
           (Json.JNumber 1%Z) (Json.JNumber 1%Z) (Json.JString "panic")
           Scenario.query_time (1, 1)%Z); reflexivity.
Defined.

Lemma zero_coordinate_is_refused_witness :
  let users := [Scenario.recent_volunteer; Cases.newcomer] in
  let r :=
    VolunteerRoutes.Register (Auth.Verified "v3") (Json.JNumber 0%Z) (Json.JNumber 77%Z)
      Scenario.query_time in
  fst (Cases.grid_handle users r) = users
  ∧ VolunteerRoutes.status_of (snd (Cases.grid_handle users r)) = 400.
Proof.
  apply (zero_coordinate_is_refused Scenario.grid_distance
           Scenario.grid_distance Scenario.grid_origin Scenario.grid_radius
           (Z.eqb 0) Cases.grid_point Cases.grid_point Cases.grid_km
           [Scenario.recent_volunteer; Cases.newcomer] "v3" 0%Z (Json.JNumber 77%Z)
           (Json.JString "panic") Scenario.query_time).
  - reflexivity.
  - left.
Defined.

Lemma position_report_makes_findable_for_a_day_witness :
  let users := [Scenario.recent_volunteer; Cases.newcomer] in
  let r :=
    VolunteerRoutes.Register (Auth.Verified "v3") (Json.JNumber 3%Z) (Json.JNumber 4%Z)
      Scenario.query_time in
  ∃ p k u,
    Cases.grid_point (Json.JNumber 4%Z) (Json.JNumber 3%Z) = Some p
    ∧ users !! k = Some u ∧ Volunteers.u_id u = "v3"
    ∧ fst (Cases.grid_handle users r)
      = <[k := Volunteers.User "v3" (Volunteers.u_name u) (Volunteers.u_mobile u) true
                 (Some p) (Some Scenario.query_time)]> users
    ∧ ∀ t origin radius,
        (t - Volunteers.day_ms ≤ Scenario.query_time)%Z →
        (Scenario.grid_distance origin p ≤ radius)%Z →
        Volunteers.matches Scenario.grid_distance t origin radius
          (Volunteers.User "v3" (Volunteers.u_name u) (Volunteers.u_mobile u) true
             (Some p) (Some Scenario.query_time)) = true.
Proof.
  apply (position_report_makes_findable_for_a_day Scenario.grid_distance
           Scenario.grid_distance Scenario.grid_origin Scenario.grid_radius
           (Z.eqb 0) Cases.grid_point Cases.grid_point Cases.grid_km
           [Scenario.recent_volunteer; Cases.newcomer] "v3"
           (Json.JNumber 3%Z) (Json.JNumber 4%Z) Scenario.query_time).
  - by left.
  - vm_compute. reflexivity.
Defined.

(** ** Reading the Authorization header *)

Module MiddlewareFacts.
Import Middleware.

Lemma not_space_char c : is_space c = false → c ≠ " "%char.
Proof. intros H ->. vm_compute in H. discriminate. Qed.

Lemma before_space_word w rest :
  one_word w → before_space (w +:+ String " " rest) = w.
Proof.
  unfold one_word. induction w as [|c w IH]; [done|].
  intros [Hc Hw]%Forall_cons.
  change (String c w +:+ String " " rest) with (String c (w +:+ String " " rest)).
  cbn [before_space]. rewrite decide_False by done. by rewrite IH.
Qed.

Lemma before_space_plain w : one_word w → before_space w = w.
Proof.
  unfold one_word. induction w as [|c w IH]; [done|].
  intros [Hc Hw]%Forall_cons. cbn [before_space].
  rewrite decide_False by done. by rewrite IH.
Qed.

Lemma after_space_word w rest :
  one_word w → after_space (w +:+ String " " rest) = Some rest.
Proof.
  unfold one_word. induction w as [|c w IH]; [done|].
  intros [Hc Hw]%Forall_cons.
  change (String c w +:+ String " " rest) with (String c (w +:+ String " " rest)).
  cbn [after_space]. rewrite decide_False by done. by apply IH.
Qed.

Lemma plain_token_word tok : plain_token tok → one_word tok.
Proof.
  intros [_ Hall]. unfold one_word. eapply Forall_impl; [exact Hall|].
  apply not_space_char.
Qed.

Lemma trim_end_plain tok :
  Forall (λ c, is_space c = false) (list_ascii_of_string tok) → trim_end tok = tok.
Proof.
  induction tok as [|c tok IH]; [done|].
  intros [Hc Htok]%Forall_cons. cbn [trim_end].
  rewrite IH by done. rewrite Hc. by destruct tok.
Qed.

Lemma trim_plain tok : plain_token tok → trim tok = tok.
Proof.
  intros [Hne Hall]. unfold trim.
  destruct tok as [|c tok]; [done|].
  pose proof Hall as [Hc Htok]%Forall_cons.
  cbn [trim_start]. rewrite Hc. by apply trim_end_plain.
Qed.

(** The header of a scheme word, a space and a token. *)
Lemma header_token_second_word scheme tok :
  one_word scheme → plain_token tok →
  header_token (Some (scheme +:+ String " " tok)) = Some tok.
Proof.
  intros Hscheme Htok. unfold header_token, second_word.
  rewrite decide_False by (by destruct scheme).
  rewrite after_space_word by done. cbn [fmap option_fmap option_map].
  by rewrite before_space_plain by (by apply plain_token_word).
Qed.

Lemma prefix_app p s : String.prefix p s = true → ∃ rest, s = p +:+ rest.
Proof.
  revert s. induction p as [|c p IH]; intros s H.
  - by exists s.
  - destruct s as [|d s]; [done|]. cbn [String.prefix] in H.
    destruct (ascii_dec c d) as [->|]; [|done].
    destruct (IH _ H) as [rest ->]. by exists rest.
Qed.

Lemma prefix_of_append p rest : String.prefix p (p +:+ rest) = true.
Proof.
  induction p as [|c p IH]; [by destruct rest|].
  change (String c p +:+ rest) with (String c (p +:+ rest)).
  cbn [String.prefix]. by destruct (ascii_dec c c).
Qed.

(** A header that starts with 'Bearer ' has 'Bearer' for its first word. *)
Lemma starts_with_Bearer scheme tok :
  one_word scheme →
  Evidence.starts_with "Bearer " (scheme +:+ String " " tok) = true →
  scheme = "Bearer".
Proof.
  unfold Evidence.starts_with. intros Hword H.
  case_decide as Hprefix; [clear H | done].
  apply prefix_app in Hprefix as [rest Hrest].
  rewrite <- (before_space_word scheme tok Hword), Hrest.
  apply (before_space_word "Bearer" rest).
  unfold one_word. by repeat constructor.
Qed.

End MiddlewareFacts.

Section MiddlewareProperties.
Context {payload userId : Type}.
Variable jwt_verify : string → string → Middleware.jwt_error + payload.
Variable JWT_SECRET : option string.
Variable userId_of : payload → option userId.

Local Abbreviation authenticateToken :=
  (Middleware.authenticateToken jwt_verify JWT_SECRET).
Local Abbreviation auth := (Middleware.auth jwt_verify JWT_SECRET userId_of).

(** X20.  For a header made of one scheme word, one space and a token
    without white space: [authenticateToken] of [middleware/auth.js]
    verifies the token whatever the scheme word is, and answers 403 or
    passes the payload on; [auth] of [index.js] answers 401 unless the
    scheme word is exactly 'Bearer', and then verifies the same token.
    Each verifies against the environment's secret or its own default. *)
Theorem scheme_word_matters_to_one_middleware_only (scheme tok : string) :
  Middleware.one_word scheme → Middleware.plain_token tok →
  let header := Some (scheme +:+ " " +:+ tok) in
  authenticateToken header
  = match jwt_verify
            (Evidence.or_default JWT_SECRET
               "your-super-secret-jwt-key-change-this-in-production") tok with
    | inl _ => inl (Middleware.Response 403 "Invalid or expired token")
    | inr user => inr user
    end
  ∧ (scheme ≠ "Bearer" →
     auth header
     = inl (Middleware.Response 401
              "Invalid token format. Expected: Bearer <token>"))
  ∧ (scheme = "Bearer" →
     auth header
     = match jwt_verify (Evidence.or_default JWT_SECRET "your-secret-key") tok with
       | inl Middleware.TokenExpiredError =>
           inl (Middleware.Response 401 "Token has expired")
       | inl Middleware.JsonWebTokenError =>
           inl (Middleware.Response 401 "Invalid token signature")
       | inl Middleware.NotBeforeError =>
           inl (Middleware.Response 401 "Token verification failed")
       | inr decoded =>
           match userId_of decoded with
           | None => inl (Middleware.Response 401 "Invalid token structure")
           | Some id => inr id
           end
       end).
Proof.
  intros Hscheme Htok header. subst header.
  change (" " +:+ tok) with (String " " tok).
  split; [|split].
  - unfold Middleware.authenticateToken.
    rewrite MiddlewareFacts.header_token_second_word by done.
    destruct Htok as [Hne _]. unfold JS.falsy.
    by rewrite decide_False by done.
  - intros Hother. unfold Middleware.auth.
    replace (JS.falsy (Some (scheme +:+ String " " tok))) with false
      by (unfold JS.falsy; rewrite decide_False; [done | by destruct scheme]).
    cbn [from_option id].
    destruct (Evidence.starts_with "Bearer " (scheme +:+ String " " tok)) eqn:Hstart;
      [|done].
    by apply MiddlewareFacts.starts_with_Bearer in Hstart.
  - intros ->. unfold Middleware.auth.
    change (JS.falsy (Some ("Bearer" +:+ String " " tok))) with false.
    cbn [from_option id]. unfold Evidence.starts_with.
    rewrite decide_True by apply (MiddlewareFacts.prefix_of_append "Bearer " tok).
    cbn [negb].
    change (Middleware.slice 7 ("Bearer" +:+ String " " tok)) with tok.
    rewrite MiddlewareFacts.trim_plain by done.
    destruct Htok as [Hne _]. by rewrite decide_False by done.
Qed.

End MiddlewareProperties.

Lemma scheme_word_matters_to_one_middleware_only_witness :
  let verify := λ secret token : string,
    if decide (secret = "s3cret" ∧ token = "abc.def.ghi")
    then inr "u1" else inl Middleware.JsonWebTokenError in
  let userId_of := λ p : string, Some p in
  (Middleware.one_word "Token" ∧ Middleware.plain_token "abc.def.ghi")
  ∧ Middleware.authenticateToken verify (Some "s3cret") (Some "Token abc.def.ghi")
    = inr "u1"
  ∧ Middleware.auth verify (Some "s3cret") userId_of (Some "Token abc.def.ghi")
    = inl (Middleware.Response 401 "Invalid token format. Expected: Bearer <token>")
  ∧ Middleware.auth verify (Some "s3cret") userId_of (Some "Bearer abc.def.ghi")
    = inr "u1".
Proof.
  assert (Middleware.one_word "Token") as Hw
    by (unfold Middleware.one_word; by repeat constructor).
  assert (Middleware.one_word "Bearer") as Hb
    by (unfold Middleware.one_word; by repeat constructor).
  assert (Middleware.plain_token "abc.def.ghi") as Ht
    by (split; [done | by repeat constructor]).
  intros verify userId_of. split; [done|].
  destruct (scheme_word_matters_to_one_middleware_only verify (Some "s3cret")
              userId_of "Token" "abc.def.ghi" Hw Ht) as (H1 & H2 & _).
  destruct (scheme_word_matters_to_one_middleware_only verify (Some "s3cret")
              userId_of "Bearer" "abc.def.ghi" Hb Ht) as (_ & _ & H3).
  split; [exact H1|]. split; [by apply H2 | by apply H3].
Defined.

(** ** Emergency contacts *)

Module ContactFacts.
Import Contacts.

Lemma filter_remove_first {A} (p q : A → bool) l :
  (∀ x, p x = true → q x = false) →
  List.filter q (remove_first p l) = List.filter q l.
Proof.
  intros Hpq. induction l as [|x l IH]; [done|].
  cbn [remove_first]. destruct (p x) eqn:Hp.
  - cbn [List.filter]. by rewrite (Hpq x Hp).
  - cbn [List.filter]. by rewrite IH.
Qed.

Lemma filter_update_first {A} (p q : A → bool) (f : A → A) l :
  (∀ x, p x = true → q x = false ∧ q (f x) = false) →
  List.filter q (Evidence.update_first p f l) = List.filter q l.
Proof.
  intros Hpq. induction l as [|x l IH]; [done|].
  cbn [Evidence.update_first]. destruct (p x) eqn:Hp.
  - cbn [List.filter]. destruct (Hpq x Hp) as [-> ->]. done.
  - cbn [List.filter]. by rewrite IH.
Qed.

Lemma remove_first_position {A} (p : A → bool) l k x :
  l !! k = Some x → p x = true →
  (∀ j y, (j < k)%nat → l !! j = Some y → p y = false) →
  remove_first p l = delete k l.
Proof.
  revert k. induction l as [|y l IH]; intros k Hk Hp Hfirst.
  - by rewrite lookup_nil in Hk.
  - destruct k as [|k]; simpl in *.
    + injection Hk as ->. by rewrite Hp.
    + rewrite (Hfirst 0%nat y) by (done || lia). f_equal.
      apply IH; [done | done |].
      intros j z Hj Hz. apply (Hfirst (S j) z); [lia | done].
Qed.

Section Handlers.
Context {payload body fields : Type}.
Variable jwt_verify : string → string → Middleware.jwt_error + payload.
Variable JWT_SECRET : option string.
Variable userId_of : payload → option string.
Variable created : body → option fields.
Variable updated : body → option (fields → fields).

Local Abbreviation auth := (@Contacts.auth payload fields jwt_verify JWT_SECRET userId_of).
Local Abbreviation handle :=
  (Contacts.handle jwt_verify JWT_SECRET userId_of created updated).
Local Abbreviation run := (Contacts.run jwt_verify JWT_SECRET userId_of created updated).
Local Abbreviation sent_by := (@Contacts.sent_by payload body jwt_verify JWT_SECRET userId_of).
Local Abbreviation response := (@Contacts.response fields).
Local Abbreviation store := (@Contacts.store fields).

(** What the middleware refuses is answered 401, with a message. *)
Lemma auth_refused (h : option string) (r : response) :
  auth h = inl r → status r = 401 ∧ shown r = [].
Proof.
  unfold Contacts.auth, Middleware.auth.
  repeat case_match; intros; by simplify_eq.
Qed.

Lemma auth_passed (h : option string) (user : string) :
  @Contacts.auth payload fields jwt_verify JWT_SECRET userId_of h = inr user
  ↔ Middleware.auth jwt_verify JWT_SECRET userId_of h = inr user.
Proof.
  unfold Contacts.auth. destruct (Middleware.auth _ _ _ _); split; congruence.
Qed.

Lemma owned_by_user (user : string) (id : nat) (c : @contact fields) :
  owned_by user id c = true ↔ c_id c = id ∧ c_userId c = user.
Proof.
  unfold owned_by. rewrite andb_true_iff, !bool_decide_eq_true. done.
Qed.

(** A request that does not pass as [user] passes as someone else, or not
    at all. *)
Lemma other_sender (user : string) (r : request) :
  ¬ sent_by user r →
  match auth (header_of r) with
  | inl refusal => shown refusal = []
  | inr sender => sender ≠ user
  end.
Proof.
  unfold Contacts.sent_by. intros Hother.
  destruct (auth (header_of r)) as [refusal|sender] eqn:Hauth.
  - by apply auth_refused in Hauth as [_ ?].
  - intros ->. by apply Hother, auth_passed.
Qed.

(** Such a request leaves the contacts of [user] as they are. *)
Lemma handle_of_user (st : store) (user : string) (r : request) :
  ¬ sent_by user r → of_user user (fst (handle st r)) = of_user user st.
Proof.
  intros Hother%other_sender.
  destruct r as [h|h b|h id b|h id]; cbn [Contacts.handle header_of] in *.
  - unfold get_contacts. by destruct (auth h).
  - unfold post_contact. destruct (auth h) as [|sender]; [done|].
    destruct (created b); [|done]. cbn [fst]. unfold of_user, Evidence.find_all.
    cbn [contacts]. rewrite List.filter_app. cbn [List.filter c_userId].
    rewrite bool_decide_eq_false_2 by done. by rewrite app_nil_r.
  - unfold put_contact. destruct (auth h) as [|sender]; [done|].
    destruct (updated b); [|done].
    destruct (Evidence.find_one _ _) as [found|] eqn:Hfind; [|done].
    cbn [fst]. unfold of_user, Evidence.find_all. cbn [contacts].
    apply filter_update_first. intros x [_ Hx]%owned_by_user.
    apply RetrievalFacts.find_one_Some in Hfind as [_ [_ Hfound]%owned_by_user].
    cbn [c_userId]. rewrite !bool_decide_eq_false_2 by congruence. done.
  - unfold delete_contact. destruct (auth h) as [|sender]; [done|].
    destruct (Evidence.find_one _ _) as [found|] eqn:Hfind; [|done].
    cbn [fst]. unfold of_user, Evidence.find_all. cbn [contacts].
    apply filter_remove_first. intros x [_ Hx]%owned_by_user.
    apply bool_decide_eq_false_2. congruence.
Qed.

Lemma run_of_user (st : store) (user : string) (rs : list request) :
  Forall (λ r, ¬ sent_by user r) rs → of_user user (run st rs) = of_user user st.
Proof.
  intros Hrs. revert st. induction Hrs as [|r rs Hr _ IH]; intros st; [done|].
  cbn [Contacts.run]. rewrite IH. by apply handle_of_user.
Qed.

(** Such a request is shown no contact of [user]. *)
Lemma handle_shown (st : store) (user : string) (r : request) (c : contact) :
  ¬ sent_by user r → c ∈ shown (snd (handle st r)) → c_userId c ≠ user.
Proof.
  intros Hother%other_sender.
  destruct r as [h|h b|h id b|h id]; cbn [Contacts.handle header_of] in *.
  - unfold get_contacts. destruct (auth h) as [refusal|sender]; cbn [snd].
    + rewrite Hother. by intros ?%elem_of_nil.
    + unfold shown. cbn [payload_of].
      intros [_ Hc%bool_decide_eq_true]%RetrievalFacts.find_all_elem. congruence.
  - unfold post_contact. destruct (auth h) as [refusal|sender]; cbn [snd].
    + rewrite Hother. by intros ?%elem_of_nil.
    + destruct (created b); unfold shown; cbn [snd payload_of].
      * intros ->%list_elem_of_singleton. done.
      * by intros ?%elem_of_nil.
  - unfold put_contact. destruct (auth h) as [refusal|sender]; cbn [snd].
    + rewrite Hother. by intros ?%elem_of_nil.
    + destruct (updated b); unfold shown; cbn [snd payload_of];
        [|by intros ?%elem_of_nil].
      destruct (Evidence.find_one _ _) as [found|] eqn:Hfind; cbn [snd payload_of];
        [|by intros ?%elem_of_nil].
      apply RetrievalFacts.find_one_Some in Hfind as [_ [_ Hfound]%owned_by_user].
      intros ->%list_elem_of_singleton. cbn [c_userId]. congruence.
  - unfold delete_contact. destruct (auth h) as [refusal|sender]; cbn [snd].
    + rewrite Hother. by intros ?%elem_of_nil.
    + destruct (Evidence.find_one _ _); unfold shown; cbn [snd payload_of];
        by intros ?%elem_of_nil.
Qed.

End Handlers.
End ContactFacts.

Section ContactProperties.
Context {payload body fields : Type}.
Variable jwt_verify : string → string → Middleware.jwt_error + payload.
Variable JWT_SECRET : option string.
Variable userId_of : payload → option string.
Variable created : body → option fields.
Variable updated : body → option (fields → fields).

Local Abbreviation contact_auth :=
  (@Contacts.auth payload fields jwt_verify JWT_SECRET userId_of).
Local Abbreviation contact_handle :=
  (Contacts.handle jwt_verify JWT_SECRET userId_of created updated).
Local Abbreviation contact_run :=
  (Contacts.run jwt_verify JWT_SECRET userId_of created updated).
Local Abbreviation contact_sent_by :=
  (@Contacts.sent_by payload body jwt_verify JWT_SECRET userId_of).

(** X21. The contacts of a user are out of reach of everyone else: over any
    sequence of contact requests none of which passes [auth] as that user
    (requests of other users, requests without a valid token), the user's
    contacts stay as they are, none of them is shown in an answer, and the
    user's next GET /api/contacts returns them unchanged. *)
Theorem contacts_are_out_of_reach_of_others (st : @Contacts.store fields)
    (user : string) (rs : list Contacts.request) (q : Contacts.request)
    (h : option string) :
  Forall (λ r, ¬ contact_sent_by user r) rs →
  ¬ contact_sent_by user q →
  contact_sent_by user (Contacts.GetContacts h) →
  let st' := contact_run st rs in
  Contacts.of_user user st' = Contacts.of_user user st
  ∧ (∀ c, c ∈ Contacts.shown (snd (contact_handle st' q)) → Contacts.c_userId c ≠ user)
  ∧ contact_handle st' (Contacts.GetContacts h)
    = (st', Contacts.Response 200 (Contacts.ContactList (Contacts.of_user user st))).
Proof.
  intros Hrs Hq Hh st'.
  assert (Contacts.of_user user st' = Contacts.of_user user st) as Hsame
    by (by apply ContactFacts.run_of_user).
  split; [exact Hsame|]. split.
  - intros c Hc. by eapply ContactFacts.handle_shown.
  - apply (ContactFacts.auth_passed (fields:=fields)) in Hh.
    cbn [Contacts.header_of] in Hh.
    cbn [Contacts.handle]. unfold Contacts.get_contacts. by rewrite Hh, Hsame.
Qed.

(** X22. A DELETE /api/contacts/:id that is answered 200 removed one contact:
    it had the id of the request and belonged to the requester, and the
    other contacts are as they were, in their order.  Ids being unique, no
    contact has that id afterwards: the requester's second DELETE of it is
    answered 404, and a PUT on it 404 or 500. *)
Theorem deleted_contact_is_gone (st : @Contacts.store fields) (h : option string)
    (id : nat) :
  NoDup (Contacts.c_id <$> Contacts.contacts st) →
  Contacts.status (snd (contact_handle st (Contacts.DeleteContact h id))) = 200 →
  let st' := fst (contact_handle st (Contacts.DeleteContact h id)) in
  ∃ user k c,
    contact_auth h = inr user
    ∧ Contacts.contacts st !! k = Some c
    ∧ Contacts.c_id c = id ∧ Contacts.c_userId c = user
    ∧ Contacts.contacts st' = delete k (Contacts.contacts st)
    ∧ Contacts.next_id st' = Contacts.next_id st
    ∧ (∀ c', c' ∈ Contacts.contacts st' → Contacts.c_id c' ≠ id)
    ∧ contact_handle st' (Contacts.DeleteContact h id)
      = (st', Contacts.Response 404 (Contacts.Message "Contact not found"))
    ∧ ∀ b, Contacts.status (snd (contact_handle st' (Contacts.PutContact h id b))) = 404
           ∨ Contacts.status (snd (contact_handle st' (Contacts.PutContact h id b))) = 500.
Proof.
  intros Hids. cbn [Contacts.handle]. unfold Contacts.delete_contact.
  destruct (contact_auth h) as [r|user] eqn:Hauth.
  { apply ContactFacts.auth_refused in Hauth as [H401 _]. cbn [snd].
    rewrite H401. discriminate. }
  destruct (Evidence.find_one _ _) as [c|] eqn:Hfind; [|done]. intros _.
  destruct (StandaloneFacts.find_one_position _ _ _ Hfind) as (k & Hk & Hp & Hfirst).
  pose proof Hp as [Hid Huser]%ContactFacts.owned_by_user.
  cbn [fst Contacts.contacts Contacts.next_id].
  rewrite (ContactFacts.remove_first_position _ _ k c Hk Hp Hfirst).
  assert (∀ c', c' ∈ delete k (Contacts.contacts st) → Contacts.c_id c' ≠ id) as Hgone.
  { intros c' [j Hj]%list_elem_of_lookup Hc'.
    assert (Contacts.contacts st !! (if decide (j < k)%nat then j else S j) = Some c')
      as Hj'.
    { case_decide.
      - by rewrite list_lookup_delete_lt in Hj.
      - by rewrite list_lookup_delete_ge in Hj by lia. }
    assert ((if decide (j < k)%nat then j else S j) = k) as Heq.
    { eapply NoDup_lookup; [exact Hids | |].
      - by rewrite list_lookup_fmap, Hj'; cbn; rewrite Hc'.
      - by rewrite list_lookup_fmap, Hk; cbn; rewrite Hid. }
    case_decide; lia. }
  assert (Evidence.find_one (Contacts.owned_by user id) (delete k (Contacts.contacts st))
          = None) as Hnone.
  { destruct (Evidence.find_one _ (delete k _)) as [c'|] eqn:Hfind'; [|done].
    apply RetrievalFacts.find_one_Some in Hfind' as [Hin [Hid' _]%ContactFacts.owned_by_user].
    by destruct (Hgone c' Hin). }
  exists user, k, c. repeat split; try done.
  - by rewrite Hnone.
  - intros b. unfold Contacts.put_contact. rewrite Hauth.
    cbn [Contacts.contacts].
    rewrite Hnone. destruct (updated b); [by left | by right].
Qed.

(** X23. A PUT /api/contacts/:id that is answered 200 changed one contact: it
    has the id of the request and belongs to the requester, it keeps its id
    and its owner, its name, relation and phone are what the update makes of
    them, and the answer is the changed contact.  Every other contact is as
    it was. *)
Theorem put_changes_one_contact_of_the_requester (st : @Contacts.store fields)
    (h : option string) (id : nat) (b : body) :
  Contacts.status (snd (contact_handle st (Contacts.PutContact h id b))) = 200 →
  ∃ user change k c,
    contact_auth h = inr user ∧ updated b = Some change
    ∧ Contacts.contacts st !! k = Some c
    ∧ Contacts.c_id c = id ∧ Contacts.c_userId c = user
    ∧ let changed := Contacts.Contact id user (change (Contacts.c_fields c)) in
      contact_handle st (Contacts.PutContact h id b)
      = (Contacts.Store (<[k := changed]> (Contacts.contacts st)) (Contacts.next_id st),
         Contacts.Response 200 (Contacts.ContactDoc changed)).
Proof.
  cbn [Contacts.handle]. unfold Contacts.put_contact.
  destruct (contact_auth h) as [r|user] eqn:Hauth.
  { apply ContactFacts.auth_refused in Hauth as [H401 _]. cbn [snd].
    rewrite H401. discriminate. }
  destruct (updated b) as [change|]; [|done].
  destruct (Evidence.find_one _ _) as [c|] eqn:Hfind; [|done]. intros _.
  destruct (StandaloneFacts.find_one_position _ _ _ Hfind) as (k & Hk & Hp & Hfirst).
  pose proof Hp as [Hid Huser]%ContactFacts.owned_by_user.
  exists user, change, k, c. repeat split; try done. cbv zeta.
  rewrite (StandaloneFacts.update_first_position _ _ _ k c Hk Hp Hfirst).
  by rewrite Hid, Huser.
Qed.

End ContactProperties.

Lemma contacts_are_out_of_reach_of_others_witness :
  let rs :=
    [ Contacts.DeleteContact Book.bob_header 0;
      Contacts.PutContact Book.bob_header 2 (Some "Mallory", None, Some "666");
      Contacts.PostContact Book.bob_header (Some "Gita", Some "sister", Some "444");
      Contacts.DeleteContact None 2;
      Contacts.DeleteContact (Some "Bearer forged.jwt") 2;
      Contacts.DeleteContact Book.bob_header 1 ] in
  let st' := Book.run Book.book rs in
  Contacts.of_user Scenario.alice_id st' = Contacts.of_user Scenario.alice_id Book.book
  ∧ (∀ c, c ∈ Contacts.shown (snd (Book.handle st' (Contacts.GetContacts Book.bob_header))) →
          Contacts.c_userId c ≠ Scenario.alice_id)
  ∧ Book.handle st' (Contacts.GetContacts Book.alice_header)
    = (st', Contacts.Response 200
              (Contacts.ContactList (Contacts.of_user Scenario.alice_id Book.book))).
Proof.
  intros rs.
  apply (contacts_are_out_of_reach_of_others Book.verify (Some "s3cret") Book.userId_of
           Book.created Book.updated Book.book Scenario.alice_id rs
           (Contacts.GetContacts Book.bob_header) Book.alice_header).
  - repeat constructor; vm_compute; discriminate.
  - vm_compute. discriminate.
  - vm_compute. reflexivity.
Defined.

(** Bob's requests on alice's contacts are answered 404 and change nothing; a
    request without a token, or with a token that is not verified, is
    answered 401; a new contact without a relation is answered 500. *)
Example contact_scenario :
  let after_delete := Book.handle Book.book (Contacts.DeleteContact Book.bob_header 0) in
  let after_put :=
    Book.handle Book.book
      (Contacts.PutContact Book.bob_header 2 (Some "Mallory", None, Some "666")) in
  after_delete = (Book.book, Contacts.Response 404 (Contacts.Message "Contact not found"))
  ∧ after_put = (Book.book, Contacts.Response 404 (Contacts.Message "Contact not found"))
  ∧ snd (Book.handle Book.book (Contacts.DeleteContact None 2))
    = Contacts.Response 401 (Contacts.Message "No token, authorization denied")
  ∧ snd (Book.handle Book.book (Contacts.DeleteContact (Some "Bearer forged.jwt") 2))
    = Contacts.Response 401 (Contacts.Message "Invalid token signature")
  ∧ snd (Book.handle Book.book
           (Contacts.PostContact Book.bob_header (Some "Gita", None, Some "444")))
    = Contacts.Response 500 (Contacts.Message "Server error").
Proof. vm_compute. repeat split. Qed.

Lemma deleted_contact_is_gone_witness :
  let st' := fst (Book.handle Book.book (Contacts.DeleteContact Book.alice_header 0)) in
  ∃ user k c,
    Contacts.auth Book.verify (Some "s3cret") Book.userId_of Book.alice_header
    = (inr user : @Contacts.response Book.fields + string)
    ∧ Contacts.contacts Book.book !! k = Some c
    ∧ Contacts.c_id c = 0%nat ∧ Contacts.c_userId c = user
    ∧ Contacts.contacts st' = delete k (Contacts.contacts Book.book)
    ∧ Contacts.next_id st' = Contacts.next_id Book.book
    ∧ (∀ c', c' ∈ Contacts.contacts st' → Contacts.c_id c' ≠ 0%nat)
    ∧ Book.handle st' (Contacts.DeleteContact Book.alice_header 0)
      = (st', Contacts.Response 404 (Contacts.Message "Contact not found"))
    ∧ ∀ b, Contacts.status (snd (Book.handle st' (Contacts.PutContact Book.alice_header 0 b)))
           = 404
           ∨ Contacts.status
               (snd (Book.handle st' (Contacts.PutContact Book.alice_header 0 b))) = 500.
Proof.
  apply (deleted_contact_is_gone Book.verify (Some "s3cret") Book.userId_of
           Book.created Book.updated Book.book Book.alice_header 0).
  - apply (bool_decide_unpack _). vm_compute. exact I.
  - vm_compute. reflexivity.
Defined.

Lemma put_changes_one_contact_of_the_requester_witness :
  ∃ user change k c,
    Contacts.auth Book.verify (Some "s3cret") Book.userId_of Book.alice_header
    = (inr user : @Contacts.response Book.fields + string)
    ∧ Book.updated (None, None, Some "999") = Some change
    ∧ Contacts.contacts Book.book !! k = Some c
    ∧ Contacts.c_id c = 2%nat ∧ Contacts.c_userId c = user
    ∧ let changed := Contacts.Contact 2 user (change (Contacts.c_fields c)) in
      Book.handle Book.book (Contacts.PutContact Book.alice_header 2 (None, None, Some "999"))
      = (Contacts.Store (<[k := changed]> (Contacts.contacts Book.book))
           (Contacts.next_id Book.book),
         Contacts.Response 200 (Contacts.ContactDoc changed)).
Proof.
  apply (put_changes_one_contact_of_the_requester Book.verify (Some "s3cret")
           Book.userId_of Book.created Book.updated Book.book Book.alice_header 2
           (None, None, Some "999")).
  vm_compute. reflexivity.
Defined.
